(** * The namespace debt controller: suspend / resume of a tenant's pods

    A shallow embedding of
    [controllers/account/controllers/namespace_controller.go]
    and the properties of its suspend / resume protocol.

    The controller talks to the cluster through [client.WithWatch].  The
    cluster is modelled as an in-memory API server ([World]) driven by an
    environment ([Env]) that decides which requests fail, what a
    subscription delivers, and which status the platform reports for a pod
    it has just accepted.  Every request the controller issues and every
    notification it consumes is recorded, in order, in the world's trace,
    so that ordering properties are statements about that trace. *)

From stdpp Require Import base option list gmap strings.

Local Open Scope string_scope.
Local Open Scope list_scope.

(** ** Errors *)

(** [metav1.StatusReason], as far as the controller distinguishes them. *)
Inductive StatusReason :=
  | NotFound | AlreadyExists | Conflict | Invalid | Forbidden | ServerTimeout.

(** Go's [error].  [nil] is [None] of [option error]. *)
Inductive error :=
  | StatusError (reason : StatusReason)       (* *apierrors.StatusError *)
  | OtherError (msg : string)                 (* transport, context deadline, ... *)
  | Errorf_w (msg : string) (cause : error)   (* fmt.Errorf(msg + ": %w", cause) *)
  | Errorf_v (msg : string) (cause : error).  (* fmt.Errorf(msg + ": %v", cause) *)

(** [apierrors.IsNotFound]: looks through [%w] wrappers only. *)
Fixpoint IsNotFound (err : error) : bool :=
  match err with
  | StatusError NotFound => true
  | StatusError _ => false
  | OtherError _ => false
  | Errorf_w _ cause => IsNotFound cause
  | Errorf_v _ _ => false
  end.

(** [client.IgnoreNotFound]. *)
Definition IgnoreNotFound (err : option error) : option error :=
  match err with
  | Some e => if IsNotFound e then None else Some e
  | None => None
  end.

(** ** Objects *)

Record OwnerReference := { OwnerKind : string; OwnerName : string }.

(** [metav1.ObjectMeta].  [Annotations] is a Go map that may be [nil]. *)
Record ObjectMeta := {
  Name : string;
  Namespace : string;
  ResourceVersion : string;
  Annotations : option (gmap string string);
  OwnerReferences : list OwnerReference
}.

Record PodSpec := { NodeName : string; SchedulerName : string }.

Record PodStatus := { Phase : string; PodIP : string }.

Record Pod := { PodMeta : ObjectMeta; Spec : PodSpec; Status : PodStatus }.

Record NamespaceObj := { NsMeta : ObjectMeta; NsLabels : gmap string string }.

(** [corev1.ResourceQuota]; [Hard] is [Spec.Hard], quantities as written. *)
Record ResourceQuota := { QuotaMeta : ObjectMeta; Hard : gmap string string }.

Global Instance OwnerReference_eq_dec : EqDecision OwnerReference.
Proof. solve_decision. Defined.
Global Instance ObjectMeta_eq_dec : EqDecision ObjectMeta.
Proof. solve_decision. Defined.
Global Instance PodSpec_eq_dec : EqDecision PodSpec.
Proof. solve_decision. Defined.
Global Instance PodStatus_eq_dec : EqDecision PodStatus.
Proof. solve_decision. Defined.
Global Instance Pod_eq_dec : EqDecision Pod.
Proof. solve_decision. Defined.
Global Instance ResourceQuota_eq_dec : EqDecision ResourceQuota.
Proof. solve_decision. Defined.

(** The zero value [corev1.PodStatus{}]. *)
Definition PodStatus_zero : PodStatus := {| Phase := ""; PodIP := "" |}.

Definition ObjectMeta_zero : ObjectMeta :=
  {| Name := ""; Namespace := ""; ResourceVersion := "";
     Annotations := None; OwnerReferences := [] |}.

(** Field assignments, one per field the controller writes. *)
Definition set_Name (v : string) (m : ObjectMeta) : ObjectMeta :=
  {| Name := v; Namespace := Namespace m; ResourceVersion := ResourceVersion m;
     Annotations := Annotations m; OwnerReferences := OwnerReferences m |}.
Definition set_Namespace (v : string) (m : ObjectMeta) : ObjectMeta :=
  {| Name := Name m; Namespace := v; ResourceVersion := ResourceVersion m;
     Annotations := Annotations m; OwnerReferences := OwnerReferences m |}.
Definition set_ResourceVersion (v : string) (m : ObjectMeta) : ObjectMeta :=
  {| Name := Name m; Namespace := Namespace m; ResourceVersion := v;
     Annotations := Annotations m; OwnerReferences := OwnerReferences m |}.
Definition set_Annotations (v : option (gmap string string)) (m : ObjectMeta)
  : ObjectMeta :=
  {| Name := Name m; Namespace := Namespace m;
     ResourceVersion := ResourceVersion m;
     Annotations := v; OwnerReferences := OwnerReferences m |}.

Definition with_meta (f : ObjectMeta -> ObjectMeta) (p : Pod) : Pod :=
  {| PodMeta := f (PodMeta p); Spec := Spec p; Status := Status p |}.
Definition set_NodeName (v : string) (p : Pod) : Pod :=
  {| PodMeta := PodMeta p;
     Spec := {| NodeName := v; SchedulerName := SchedulerName (Spec p) |};
     Status := Status p |}.
Definition set_SchedulerName (v : string) (p : Pod) : Pod :=
  {| PodMeta := PodMeta p;
     Spec := {| NodeName := NodeName (Spec p); SchedulerName := v |};
     Status := Status p |}.
Definition set_Status (v : PodStatus) (p : Pod) : Pod :=
  {| PodMeta := PodMeta p; Spec := Spec p; Status := v |}.

(** Reading a Go map that may be nil: [v, ok := m[k]]. *)
Definition anno_lookup (k : string) (m : option (gmap string string))
  : option string :=
  match m with Some mp => mp !! k | None => None end.

(** Writing [m[k] = v]; the callers have made sure [m] is not nil. *)
Definition anno_insert (k v : string) (m : option (gmap string string))
  : option (gmap string string) :=
  match m with Some mp => Some (<[k := v]> mp) | None => Some {[ k := v ]} end.

(** [delete(m, k)]: a no-op on a nil map. *)
Definition anno_delete (k : string) (m : option (gmap string string))
  : option (gmap string string) :=
  match m with Some mp => Some (delete k mp) | None => None end.

(** ** Notifications *)

(** [watch.EventType]. *)
Inductive EventType := Added | Modified | Deleted | Bookmark | Error.

Global Instance EventType_eq_dec : EqDecision EventType.
Proof. solve_decision. Defined.

(** [runtime.Object] as carried by a [watch.Event]: a pod or something else
    (an error event carries a [*metav1.Status]). *)
Inductive Object := PodObject (p : Pod) | StatusObject (msg : string).

Record Event := { EvType : EventType; EvObject : Object }.

(** How a subscription's channel ends after the notifications it delivers:
    it is closed (by the server, or because the context expired), or it
    stays open without ever delivering anything more. *)
Inductive StreamEnd := Closed | Silent.

Record Stream := { delivered : list Event; ending : StreamEnd }.

(** ** Requests and the trace *)

Inductive Call :=
  | GetNamespace (name : string)
  | UpdateNamespace (ns : NamespaceObj)
  | ListPods (namespace : string)
  | WatchPods
  | DeletePod (p : Pod)
  | CreatePod (p : Pod)
  | GetQuota (namespace name : string)
  | CreateQuota (q : ResourceQuota)
  | UpdateQuota (q : ResourceQuota)
  | DeleteQuota (q : ResourceQuota).

Inductive Act :=
  | Issued (c : Call)         (* a request sent to the API server *)
  | Received (ev : Event)     (* a notification read from the channel *)
  | Stopped.                  (* watcher.Stop() *)

(** ** The cluster *)

(** The stored objects, and the trace of what happened so far.  An object
    is found by its key: the name for a namespace, namespace and name for a
    pod or a quota. *)
Record World := {
  namespaces : list NamespaceObj;
  pods : list Pod;
  quotas : list ResourceQuota;
  trace : list Act
}.

(** What the controller does not decide. *)
Record Env := {
  (** whether the API server fails a request, given all that happened *)
  fault : list Act -> Call -> option error;
  (** what a subscription delivers, given all that happened up to the
      moment the controller starts reading from it *)
  feed : list Act -> Stream;
  (** the status the platform reports for a pod it has accepted; the
      status submitted with a create is ignored *)
  platform_status : Pod -> PodStatus
}.

Definition record (a : Act) (w : World) : World :=
  {| namespaces := namespaces w; pods := pods w; quotas := quotas w;
     trace := trace w ++ [a] |}.
Definition set_pods (ps : list Pod) (w : World) : World :=
  {| namespaces := namespaces w; pods := ps; quotas := quotas w;
     trace := trace w |}.
Definition set_quotas (qs : list ResourceQuota) (w : World) : World :=
  {| namespaces := namespaces w; pods := pods w; quotas := qs;
     trace := trace w |}.
Definition set_namespaces (ns : list NamespaceObj) (w : World) : World :=
  {| namespaces := ns; pods := pods w; quotas := quotas w; trace := trace w |}.

(** Pods are identified by namespace and name. *)
Definition same_pod (p q : Pod) : bool :=
  bool_decide (Namespace (PodMeta p) = Namespace (PodMeta q)
               ∧ Name (PodMeta p) = Name (PodMeta q)).

Definition in_namespace (ns : string) (p : Pod) : bool :=
  bool_decide (Namespace (PodMeta p) = ns).

Definition quota_key (q : ResourceQuota) : string * string :=
  (Namespace (QuotaMeta q), Name (QuotaMeta q)).

Definition has_key (k : string * string) (q : ResourceQuota) : bool :=
  bool_decide (quota_key q = k).

Definition named (name : string) (ns : NamespaceObj) : bool :=
  bool_decide (Name (NsMeta ns) = name).

(** ** Computations against the cluster *)

(** A call either returns, or never does (a read on a channel that stays
    open and silent). *)
Inductive Outcome (A : Type) :=
  | Returns (a : A) (w : World)
  | Hangs (w : World).
Arguments Returns {A} a w.
Arguments Hangs {A} w.

Definition M (A : Type) : Type := World -> Outcome A.

Definition ret {A} (a : A) : M A := fun w => Returns a w.

Definition bind {A B} (m : M A) (k : A -> M B) : M B :=
  fun w => match m w with
           | Returns a w' => k a w'
           | Hangs w' => Hangs w'
           end.

Notation "x <- m ;; k" := (bind m (fun x => k))
  (at level 100, m at next level, right associativity).

Definition final {A} (o : Outcome A) : World :=
  match o with Returns _ w => w | Hangs w => w end.

(** ** The constants of the account API *)

(** The controller refers to seven constants of the package
    [controllers/account/api/v1].  Their values are not fixed here: the
    controller is embedded over any choice of them. *)
Record ApiV1 := {
  DebtNamespaceAnnoStatusKey : string;
  NormalDebtNamespaceAnnoStatus : string;
  SuspendDebtNamespaceAnnoStatus : string;
  ResumeDebtNamespaceAnnoStatus : string;
  PreviousSchedulerName : string;
  DebtSchedulerName : string;
  PodPhaseSuspended : string
}.

(** [ctrl.Result]; the controller only ever returns its zero value. *)
Record Result := { Requeue : bool }.
Definition Result_zero : Result := {| Requeue := false |}.

(** [ctrl.Request]. *)
Record Request := { ReqNamespace : string; ReqName : string }.

(** [controllerutil.OperationResult]. *)
Inductive OperationResult :=
  | OperationResultNone | OperationResultCreated | OperationResultUpdated.

Section Controller.

Variable v1 : ApiV1.
Variable E : Env.

(** *** The client ([client.WithWatch]) *)

(** Every request is recorded, then the environment may fail it. *)
Definition issue (c : Call) : M (option error) :=
  fun w => Returns (fault E (trace w) c) (record (Issued c) w).

Definition Client_Get_Namespace (name : string) : M (NamespaceObj + error) :=
  failed <- issue (GetNamespace name) ;;
  match failed with
  | Some err => ret (inr err)
  | None => fun w =>
      match find (named name) (namespaces w) with
      | Some ns => Returns (inl ns) w
      | None => Returns (inr (StatusError NotFound)) w
      end
  end.

Definition Client_Update_Namespace (ns : NamespaceObj) : M (option error) :=
  failed <- issue (UpdateNamespace ns) ;;
  match failed with
  | Some err => ret (Some err)
  | None => fun w =>
      match find (named (Name (NsMeta ns))) (namespaces w) with
      | Some _ =>
          Returns None
            (set_namespaces
               (map (fun n => if named (Name (NsMeta ns)) n then ns else n)
                  (namespaces w)) w)
      | None => Returns (Some (StatusError NotFound)) w
      end
  end.

(** [Client.List(ctx, &podList, client.InNamespace(namespace))]. *)
Definition Client_List_Pods (namespace : string) : M (list Pod + error) :=
  failed <- issue (ListPods namespace) ;;
  match failed with
  | Some err => ret (inr err)
  | None => fun w => Returns (inl (List.filter (in_namespace namespace) (pods w))) w
  end.

(** [Client.Delete(ctx, &pod)]: the pod of that namespace and name leaves
    the store. *)
Definition Client_Delete_Pod (p : Pod) : M (option error) :=
  failed <- issue (DeletePod p) ;;
  match failed with
  | Some err => ret (Some err)
  | None => fun w =>
      if existsb (same_pod p) (pods w)
      then Returns None
             (set_pods (List.filter (fun q => negb (same_pod p q)) (pods w)) w)
      else Returns (Some (StatusError NotFound)) w
  end.

(** [Client.Create(ctx, pod)]: refused when a resource version is set or the
    name is taken; the stored pod gets the status the platform assigns. *)
Definition Client_Create_Pod (p : Pod) : M (option error) :=
  failed <- issue (CreatePod p) ;;
  match failed with
  | Some err => ret (Some err)
  | None => fun w =>
      if negb (bool_decide (ResourceVersion (PodMeta p) = ""))
      then Returns (Some (StatusError Invalid)) w
      else if existsb (same_pod p) (pods w)
      then Returns (Some (StatusError AlreadyExists)) w
      else Returns None (set_pods (pods w ++ [set_Status (platform_status E p) p]) w)
  end.

(** [Client.Watch(ctx, &list)]: opens the subscription. *)
Definition Client_Watch : M (option error) := issue WatchPods.

(** [for event := range ch] starts: from here on the channel yields what
    the environment feeds it. *)
Definition ResultChan : M Stream := fun w => Returns (feed E (trace w)) w.

(** [watcher.Stop()]. *)
Definition Stop : M unit := fun w => Returns tt (record Stopped w).

Definition Client_Get_Quota (namespace name : string) : M (ResourceQuota + error) :=
  failed <- issue (GetQuota namespace name) ;;
  match failed with
  | Some err => ret (inr err)
  | None => fun w =>
      match find (has_key (namespace, name)) (quotas w) with
      | Some q => Returns (inl q) w
      | None => Returns (inr (StatusError NotFound)) w
      end
  end.

Definition Client_Create_Quota (q : ResourceQuota) : M (option error) :=
  failed <- issue (CreateQuota q) ;;
  match failed with
  | Some err => ret (Some err)
  | None => fun w =>
      match find (has_key (quota_key q)) (quotas w) with
      | Some _ => Returns (Some (StatusError AlreadyExists)) w
      | None => Returns None (set_quotas (quotas w ++ [q]) w)
      end
  end.

Definition Client_Update_Quota (q : ResourceQuota) : M (option error) :=
  failed <- issue (UpdateQuota q) ;;
  match failed with
  | Some err => ret (Some err)
  | None => fun w =>
      match find (has_key (quota_key q)) (quotas w) with
      | Some _ =>
          Returns None
            (set_quotas
               (map (fun o => if has_key (quota_key q) o then q else o)
                  (quotas w)) w)
      | None => Returns (Some (StatusError NotFound)) w
      end
  end.

Definition Client_Delete_Quota (q : ResourceQuota) : M (option error) :=
  failed <- issue (DeleteQuota q) ;;
  match failed with
  | Some err => ret (Some err)
  | None => fun w =>
      match find (has_key (quota_key q)) (quotas w) with
      | Some _ =>
          Returns None
            (set_quotas
               (List.filter (fun o => negb (has_key (quota_key q) o)) (quotas w)) w)
      | None => Returns (Some (StatusError NotFound)) w
      end
  end.

(** [controllerutil.CreateOrUpdate] of controller-runtime, at the type of
    quota objects: get the object; create it when it is not found; otherwise
    apply the mutation to what was read and update only if that changed it. *)
Definition CreateOrUpdate (obj : ResourceQuota)
    (f : ResourceQuota -> ResourceQuota * option error)
  : M (OperationResult * option error) :=
  let mutate (o : ResourceQuota) : ResourceQuota * option error :=
    match f o with
    | (o', Some e) => (o', Some e)
    | (o', None) =>
        if bool_decide (quota_key o' = quota_key obj) then (o', None)
        else (o', Some (OtherError
               "MutateFn cannot mutate object name and/or object namespace"))
    end in
  got <- Client_Get_Quota (Namespace (QuotaMeta obj)) (Name (QuotaMeta obj)) ;;
  match got with
  | inr err =>
      if negb (IsNotFound err) then ret (OperationResultNone, Some err)
      else
        match mutate obj with
        | (_, Some e) => ret (OperationResultNone, Some e)
        | (obj', None) =>
            err <- Client_Create_Quota obj' ;;
            match err with
            | Some e => ret (OperationResultNone, Some e)
            | None => ret (OperationResultCreated, None)
            end
        end
  | inl existing =>
      match mutate existing with
      | (_, Some e) => ret (OperationResultNone, Some e)
      | (obj', None) =>
          if bool_decide (existing = obj') then ret (OperationResultNone, None)
          else
            err <- Client_Update_Quota obj' ;;
            match err with
            | Some e => ret (OperationResultNone, Some e)
            | None => ret (OperationResultUpdated, None)
            end
      end
  end.

(** *** The quota gate (lines 142-166) *)

Definition GetLimit0ResourceQuota (namespace : string) : ResourceQuota :=
  {| QuotaMeta := set_Namespace namespace (set_Name "debt-limit0" ObjectMeta_zero);
     Hard := <["limits.cpu" := "0"]> (<["limits.memory" := "0"]>
             (<["requests.storage" := "0"]> ∅)) |}.

Definition limitResourceQuotaCreate (namespace : string) : M (option error) :=
  let limitQuota := GetLimit0ResourceQuota namespace in
  r <- CreateOrUpdate limitQuota (fun o => (o, None)) ;;
  ret (snd r).

Definition limitResourceQuotaDelete (namespace : string) : M (option error) :=
  let limitQuota := GetLimit0ResourceQuota namespace in
  err <- Client_Delete_Quota limitQuota ;;
  ret (IgnoreNotFound err).

(** *** The recreate protocol (lines 268-298) *)

(** The test of lines 284-285: a [Deleted] event whose object is a pod
    named like the old pod. *)
Definition is_deletion_of (oldPod : Pod) (event : Event) : bool :=
  match EvType event with
  | Deleted =>
      match EvObject event with
      | PodObject val => bool_decide (Name (PodMeta val) = Name (PodMeta oldPod))
      | StatusObject _ => false
      end
  | _ => false
  end.

(** The loop of lines 283-295 over what the channel delivers. *)
Fixpoint range_events (oldPod newPod : Pod) (evs : list Event) (fin : StreamEnd)
  : M (option error) :=
  match evs with
  | [] =>
      match fin with
      | Closed => ret None
      | Silent => fun w => Hangs w
      end
  | event :: rest =>
      fun w =>
        let w := record (Received event) w in
        (if is_deletion_of oldPod event then
           err <- Client_Create_Pod newPod ;;
           match err with
           | Some e =>
               ret (Some (Errorf_w ("failed to recreate pod "
                                    +:+ Name (PodMeta newPod)) e))
           | None => _ <- Stop ;; ret None
           end
         else range_events oldPod newPod rest fin) w
  end.

Definition recreatePod (oldPod newPod : Pod) : M (option error) :=
  err <- Client_Watch ;;
  match err with
  | Some e =>
      ret (Some (Errorf_w ("failed to start watch stream for pod "
                           +:+ Name (PodMeta oldPod)) e))
  | None =>
      err <- Client_Delete_Pod oldPod ;;
      match err with
      | Some e =>
          ret (Some (Errorf_w ("failed to delete pod "
                               +:+ Name (PodMeta oldPod)) e))
      | None =>
          ch <- ResultChan ;;
          range_events oldPod newPod (delivered ch) (ending ch)
      end
  end.

(** *** Suspending (lines 108-125, 168-221) *)

(** The clone of lines 178-195. *)
Definition suspend_clone (pod : Pod) : Pod :=
  let clone := pod in
  let clone := with_meta (set_ResourceVersion "") clone in
  let clone := set_NodeName "" clone in
  let clone := set_Status PodStatus_zero clone in
  let clone := set_SchedulerName (DebtSchedulerName v1) clone in
  let clone :=
    match Annotations (PodMeta clone) with
    | None => with_meta (set_Annotations (Some ∅)) clone
    | Some _ => clone
    end in
  with_meta (fun m =>
    set_Annotations (anno_insert (PreviousSchedulerName v1)
                       (SchedulerName (Spec pod)) (Annotations m)) m) clone.

(** The guard of line 174: the pods [suspendOrphanPod] leaves alone. *)
Definition suspend_skips (pod : Pod) : bool :=
  bool_decide (SchedulerName (Spec pod) = DebtSchedulerName v1)
  || bool_decide (0 < length (OwnerReferences (PodMeta pod))).

Fixpoint suspendOrphanPod_items (items : list Pod) : M (option error) :=
  match items with
  | [] => ret None
  | pod :: rest =>
      if suspend_skips pod then suspendOrphanPod_items rest
      else
        err <- recreatePod pod (suspend_clone pod) ;;
        match err with
        | Some e =>
            ret (Some (Errorf_w ("recrete unowned pod `" +:+ Name (PodMeta pod)
                                 +:+ "` failed") e))
        | None => suspendOrphanPod_items rest
        end
  end.

Definition suspendOrphanPod (namespace : string) : M (option error) :=
  podList <- Client_List_Pods namespace ;;
  match podList with
  | inr err => ret (Some err)
  | inl items => suspendOrphanPod_items items
  end.

(** The guard of line 210: the pods [deleteControlledPod] leaves alone. *)
Definition delete_skips (pod : Pod) : bool :=
  bool_decide (SchedulerName (Spec pod) = DebtSchedulerName v1)
  || bool_decide (length (OwnerReferences (PodMeta pod)) = 0).

Fixpoint deleteControlledPod_items (items : list Pod) : M (option error) :=
  match items with
  | [] => ret None
  | pod :: rest =>
      if delete_skips pod then deleteControlledPod_items rest
      else
        err <- Client_Delete_Pod pod ;;
        match err with
        | Some e => ret (Some e)
        | None => deleteControlledPod_items rest
        end
  end.

Definition deleteControlledPod (namespace : string) : M (option error) :=
  podList <- Client_List_Pods namespace ;;
  match podList with
  | inr err => ret (Some err)
  | inl items => deleteControlledPod_items items
  end.

(** The loop over [pipelines] of lines 119-123 and 134-138. *)
Fixpoint run_pipelines (pipelines : list (string -> M (option error)))
    (namespace : string) : M (option error) :=
  match pipelines with
  | [] => ret None
  | fn :: rest =>
      err <- fn namespace ;;
      match err with
      | Some e => ret (Some e)
      | None => run_pipelines rest namespace
      end
  end.

Definition SuspendUserResource (namespace : string) : M (option error) :=
  run_pipelines
    [suspendOrphanPod; limitResourceQuotaCreate; deleteControlledPod] namespace.

(** *** Resuming (lines 127-140, 223-266) *)

(** The clone of lines 240-256. *)
Definition resume_clone (pod : Pod) : Pod :=
  let clone := pod in
  let clone := with_meta (set_ResourceVersion "") clone in
  let clone := set_NodeName "" clone in
  let clone := set_Status PodStatus_zero clone in
  match anno_lookup (PreviousSchedulerName v1) (Annotations (PodMeta clone)) with
  | Some scheduler =>
      let clone := set_SchedulerName scheduler clone in
      with_meta (fun m =>
        set_Annotations (anno_delete (PreviousSchedulerName v1) (Annotations m)) m)
        clone
  | None => set_SchedulerName "" clone
  end.

(** The guard of line 231: the pods [resumePod] leaves alone. *)
Definition resume_skips (pod : Pod) : bool :=
  negb (bool_decide (Phase (Status pod) = PodPhaseSuspended v1))
  || negb (bool_decide (SchedulerName (Spec pod) = DebtSchedulerName v1)).

(** The requests of [resumePod] run under a context that expires after ten
    seconds; its expiry shows as failed requests and a closed channel, which
    are the environment's to decide. *)
Fixpoint resumePod_items (items : list Pod) : M (option error) :=
  match items with
  | [] => ret None
  | pod :: rest =>
      if resume_skips pod then resumePod_items rest
      else if bool_decide (0 < length (OwnerReferences (PodMeta pod))) then
        err <- Client_Delete_Pod pod ;;
        match err with
        | Some e =>
            ret (Some (Errorf_v ("delete pod " +:+ Name (PodMeta pod)
                                 +:+ " failed") e))
        | None => resumePod_items rest
        end
      else
        err <- recreatePod pod (resume_clone pod) ;;
        match err with
        | Some e =>
            ret (Some (Errorf_v ("recrete unowned pod " +:+ Name (PodMeta pod)
                                 +:+ " failed") e))
        | None => resumePod_items rest
        end
  end.

Definition resumePod (namespace : string) : M (option error) :=
  list <- Client_List_Pods namespace ;;
  match list with
  | inr err => ret (Some err)
  | inl items => resumePod_items items
  end.

Definition ResumeUserResource (namespace : string) : M (option error) :=
  run_pipelines [limitResourceQuotaDelete; resumePod] namespace.

(** *** Reconcile (lines 63-106) *)

(** [ns.Annotations[key] = value] on the namespace object read. *)
Definition set_debt_status (value : string) (ns : NamespaceObj) : NamespaceObj :=
  {| NsMeta := set_Annotations
                 (anno_insert (DebtNamespaceAnnoStatusKey v1) value
                    (Annotations (NsMeta ns))) (NsMeta ns);
     NsLabels := NsLabels ns |}.

Definition Reconcile (req : Request) : M (Result * option error) :=
  got <- Client_Get_Namespace (ReqName req) ;;
  match got with
  | inr err => ret (Result_zero, IgnoreNotFound (Some err))
  | inl ns =>
      match anno_lookup (DebtNamespaceAnnoStatusKey v1) (Annotations (NsMeta ns)) with
      | None => ret (Result_zero, None)
      | Some debtStatus =>
          if bool_decide (debtStatus = SuspendDebtNamespaceAnnoStatus v1) then
            err <- SuspendUserResource (ReqName req) ;;
            match err with
            | Some e => ret (Result_zero, Some e)
            | None => ret (Result_zero, None)
            end
          else if bool_decide (debtStatus = ResumeDebtNamespaceAnnoStatus v1) then
            err <- ResumeUserResource (ReqName req) ;;
            match err with
            | Some e => ret (Result_zero, Some e)
            | None =>
                err <- Client_Update_Namespace
                         (set_debt_status (NormalDebtNamespaceAnnoStatus v1) ns) ;;
                match err with
                | Some e => ret (Result_zero, Some e)
                | None => ret (Result_zero, None)
                end
            end
          else if bool_decide (debtStatus = NormalDebtNamespaceAnnoStatus v1) then
            ret (Result_zero, None)
          else
            err <- Client_Update_Namespace
                     (set_debt_status (NormalDebtNamespaceAnnoStatus v1) ns) ;;
            match err with
            | Some e => ret (Result_zero, Some e)
            | None => ret (Result_zero, None)
            end
      end
  end.

End Controller.

(** ** Reading traces *)

(** The pods whose deletion, respectively creation, a piece of trace
    requests, in the order of the requests. *)
Definition deleted_pod (a : Act) : option Pod :=
  match a with Issued (DeletePod p) => Some p | _ => None end.
Definition created_pod (a : Act) : option Pod :=
  match a with Issued (CreatePod p) => Some p | _ => None end.
Definition deletes (t : list Act) : list Pod := omap deleted_pod t.
Definition creates (t : list Act) : list Pod := omap created_pod t.

(** The shapes the trace of the waiting loop can take: notifications that
    are not the awaited deletion are read one after the other; the awaited
    one is followed by the create, and by [Stop] when the create succeeded. *)
Inductive wait_trace (oldPod newPod : Pod) : list Act -> Prop :=
  | wait_over : wait_trace oldPod newPod []
  | wait_skip ev t :
      is_deletion_of oldPod ev = false ->
      wait_trace oldPod newPod t ->
      wait_trace oldPod newPod (Received ev :: t)
  | wait_hit ev tl :
      is_deletion_of oldPod ev = true ->
      tl = [] \/ tl = [Stopped] ->
      wait_trace oldPod newPod (Received ev :: Issued (CreatePod newPod) :: tl).

(** The shapes of the trace of one run of the recreate protocol. *)
Inductive recreate_trace (oldPod newPod : Pod) : list Act -> Prop :=
  | recreate_no_watch : recreate_trace oldPod newPod [Issued WatchPods]
  | recreate_no_delete :
      recreate_trace oldPod newPod [Issued WatchPods; Issued (DeletePod oldPod)]
  | recreate_waited t :
      wait_trace oldPod newPod t ->
      recreate_trace oldPod newPod
        (Issued WatchPods :: Issued (DeletePod oldPod) :: t).

(** ** A concrete cluster *)

(** Modelled from the spec: the values of the constants of
    [controllers/account/api/v1], which the sources at hand do not contain.
    The three status values are the ones the spec names; the other four are
    only required to be what they are called. *)
Definition example_v1 : ApiV1 :=
  {| DebtNamespaceAnnoStatusKey := "debt.sealos/status";
     NormalDebtNamespaceAnnoStatus := "Normal";
     SuspendDebtNamespaceAnnoStatus := "SuspendRequested";
     ResumeDebtNamespaceAnnoStatus := "ResumeRequested";
     PreviousSchedulerName := "sealos.io/previous-scheduler";
     DebtSchedulerName := "sealos-debt-scheduler";
     PodPhaseSuspended := "Suspended" |}.

Definition event_of (ty : EventType) (p : Pod) : Event :=
  {| EvType := ty; EvObject := PodObject p |}.

(** A subscription that reports the pod whose deletion was requested last:
    first as modified (terminating), then as deleted. *)
Definition prompt_feed (tr : list Act) : Stream :=
  match last tr with
  | Some (Issued (DeletePod p)) =>
      {| delivered := [event_of Modified p; event_of Deleted p];
         ending := Silent |}
  | _ => {| delivered := []; ending := Closed |}
  end.

(** A subscription whose channel is closed before the deletion is
    reported, as when the context of the resume path expires. *)
Definition closing_feed (tr : list Act) : Stream :=
  match last tr with
  | Some (Issued (DeletePod p)) =>
      {| delivered := [event_of Modified p]; ending := Closed |}
  | _ => {| delivered := []; ending := Closed |}
  end.

Definition no_fault (tr : list Act) (c : Call) : option error := None.

(** A platform that starts every accepted pod as [Pending]. *)
Definition pending_status (p : Pod) : PodStatus :=
  {| Phase := "Pending"; PodIP := "" |}.

(** A platform that reports the pods parked under the reserved scheduler
    in the suspended phase. *)
Definition parking_status (v1 : ApiV1) (p : Pod) : PodStatus :=
  if bool_decide (SchedulerName (Spec p) = DebtSchedulerName v1)
  then {| Phase := PodPhaseSuspended v1; PodIP := "" |}
  else {| Phase := "Pending"; PodIP := "" |}.

Definition parking_cluster : Env :=
  {| fault := no_fault; feed := prompt_feed; platform_status := parking_status example_v1 |}.
Definition pending_cluster : Env :=
  {| fault := no_fault; feed := prompt_feed; platform_status := pending_status |}.
Definition closing_cluster : Env :=
  {| fault := no_fault; feed := closing_feed; platform_status := parking_status example_v1 |}.

Definition example_pod (name scheduler phase : string)
    (annotations : option (gmap string string))
    (owners : list OwnerReference) : Pod :=
  {| PodMeta := {| Name := name; Namespace := "tenant"; ResourceVersion := "41";
                   Annotations := annotations; OwnerReferences := owners |};
     Spec := {| NodeName := "node-x"; SchedulerName := scheduler |};
     Status := {| Phase := phase; PodIP := "10.0.0.7" |} |}.

(** An unmanaged pod and a managed one. *)
Definition pod_A : Pod := example_pod "a" "default" "Running" None [].
Definition pod_B : Pod :=
  example_pod "b" "default" "Running" None
    [{| OwnerKind := "ReplicaSet"; OwnerName := "web" |}].

(** A managed pod that already carries the reserved scheduler. *)
Definition pod_C : Pod :=
  example_pod "c" "sealos-debt-scheduler" "Pending" None
    [{| OwnerKind := "ReplicaSet"; OwnerName := "batch" |}].

(** An unmanaged pod parked under the reserved scheduler which the platform
    reports as [Pending]. *)
Definition pod_P : Pod :=
  example_pod "p" "sealos-debt-scheduler" "Pending"
    (Some {[ "sealos.io/previous-scheduler" := "default" ]}) [].

Definition tenant (status : string) : NamespaceObj :=
  {| NsMeta := {| Name := "tenant"; Namespace := ""; ResourceVersion := "7";
                  Annotations := Some {[ "debt.sealos/status" := status ]};
                  OwnerReferences := [] |};
     NsLabels := {[ "user" := "alice" ]} |}.

Definition cluster (status : string) (ps : list Pod) : World :=
  {| namespaces := [tenant status]; pods := ps; quotas := []; trace := [] |}.

Definition tenant_request : Request :=
  {| ReqNamespace := ""; ReqName := "tenant" |}.

(** The billing system asks for another status: it rewrites the debt status
    annotation of the namespace, outside the controller. *)
Definition request_status (v1 : ApiV1) (name status : string) (w : World) : World :=
  set_namespaces
    (map (fun n => if named name n then set_debt_status v1 status n else n)
       (namespaces w)) w.

(** *** Notions used to state the properties *)

(** The environment fails no request. *)
Definition reliable (E : Env) : Prop := forall tr c, fault E tr c = None.

(** Every subscription read right after the deletion of a pod was requested
    delivers, sooner or later, the deletion of a pod of that name. *)
Definition prompt (E : Env) : Prop :=
  forall tr p,
    existsb (is_deletion_of p)
      (delivered (feed E (tr ++ [Issued (DeletePod p)]))) = true.

(** [w'] is reached from [w] by recording acts that all satisfy [P], the
    namespace objects being left as they are. *)
Definition extends (P : Act -> Prop) (w w' : World) : Prop :=
  namespaces w' = namespaces w /\
  exists t, trace w' = trace w ++ t /\ Forall P t.

Definition keeps {A} (P : Act -> Prop) (m : M A) : Prop :=
  forall w, extends P w (final (m w)).

(** The acts one run of the recreate protocol can record. *)
Definition recreate_act (oldPod newPod : Pod) (a : Act) : Prop :=
  match a with
  | Issued WatchPods => True
  | Issued (DeletePod p) => p = oldPod
  | Issued (CreatePod q) => q = newPod
  | Issued _ => False
  | Received _ => True
  | Stopped => True
  end.

(** [t] consists of one complete run of the recreate protocol for each pod
    of [targets], in that order, the replacement of [p] being [clone p]. *)
Definition recreates_each (clone : Pod -> Pod) (targets : list Pod)
    (t : list Act) : Prop :=
  exists segs,
    t = concat segs /\
    Forall2 (fun p seg =>
               exists wt, seg = Issued WatchPods :: Issued (DeletePod p) :: wt
                          /\ wait_trace p (clone p) wt) targets segs.

(** The acts of runs of the recreate protocol for pods of [targets]. *)
Definition recreating (clone : Pod -> Pod) (targets : list Pod) (a : Act) : Prop :=
  exists p, In p targets /\ recreate_act p (clone p) a.

Definition unmanaged (p : Pod) : bool :=
  negb (bool_decide (0 < length (OwnerReferences (PodMeta p)))).

(** The acts of the resume loop on pods of [targets]: a plain delete for a
    managed pod, a run of the recreate protocol for an unmanaged one. *)
Definition resuming (v1 : ApiV1) (targets : list Pod) (a : Act) : Prop :=
  exists p, In p targets /\
    if unmanaged p then recreate_act p (resume_clone v1 p) a
    else a = Issued (DeletePod p).

(** The pods of a listing that each loop acts on. *)
Definition suspend_targets (v1 : ApiV1) (items : list Pod) : list Pod :=
  List.filter (fun p => negb (suspend_skips v1 p)) items.
Definition delete_targets (v1 : ApiV1) (items : list Pod) : list Pod :=
  List.filter (fun p => negb (delete_skips v1 p)) items.
Definition resume_targets (v1 : ApiV1) (items : list Pod) : list Pod :=
  List.filter (fun p => negb (resume_skips v1 p)) items.

(** The pods of a namespace, as a listing returns them. *)
Definition pods_in (namespace : string) (w : World) : list Pod :=
  List.filter (in_namespace namespace) (pods w).

(** What the create of the zero-limit record does once it is reached. *)
Definition create_limit0 (E : Env) (ns : string) (w : World) : Outcome (option error) :=
  let w1 := record (Issued (CreateQuota (GetLimit0ResourceQuota ns))) w in
  match fault E (trace w) (CreateQuota (GetLimit0ResourceQuota ns)) with
  | Some e => Returns (Some e) w1
  | None =>
      match find (has_key (ns, "debt-limit0")) (quotas w) with
      | Some _ => Returns (Some (StatusError AlreadyExists)) w1
      | None => Returns None (set_quotas (quotas w ++ [GetLimit0ResourceQuota ns]) w1)
      end
  end.

(** The act is not a request to update a namespace object. *)
Definition no_namespace_update (a : Act) : Prop :=
  forall n, a <> Issued (UpdateNamespace n).

(** ** The event filter (lines 328-351) *)

(** [client.Object] as the controller runtime hands it to a predicate. *)
Inductive ClientObject :=
  | NamespaceObject (ns : NamespaceObj)
  | PodClientObject (p : Pod)
  | QuotaClientObject (q : ResourceQuota).

(** [event.UpdateEvent]; [None] is the nil interface value. *)
Record UpdateEvent := {
  ObjectOld : option ClientObject;
  ObjectNew : option ClientObject
}.

(** [event.CreateEvent]; the object of a create event is never nil. *)
Record CreateEvent := { Object_ : ClientObject }.

(** The type assertion of an object to a namespace pointer. *)
Definition as_Namespace (o : option ClientObject) : option NamespaceObj :=
  match o with
  | Some (NamespaceObject ns) => Some ns
  | _ => None
  end.

(** [o.GetAnnotations()]. *)
Definition GetAnnotations (o : ClientObject) : option (gmap string string) :=
  match o with
  | NamespaceObject ns => Annotations (NsMeta ns)
  | PodClientObject p => Annotations (PodMeta p)
  | QuotaClientObject q => Annotations (QuotaMeta q)
  end.

(** [AnnotationChangedPredicate.Update] (lines 332-346). *)
Definition AnnotationChangedPredicate_Update (v1 : ApiV1) (e : UpdateEvent)
  : bool :=
  match as_Namespace (ObjectOld e), as_Namespace (ObjectNew e) with
  | Some oldObj, Some newObj =>
      match Annotations (NsMeta newObj) with
      | None => false
      | Some newAno =>
          let oldStatus :=
            match Annotations (NsMeta oldObj) with
            | Some oldAno => default "" (oldAno !! DebtNamespaceAnnoStatusKey v1)
            | None => ""
            end in
          match newAno !! DebtNamespaceAnnoStatusKey v1 with
          | Some newStatus => negb (bool_decide (oldStatus = newStatus))
          | None => false
          end
      end
  | _, _ => false
  end.

(** [AnnotationChangedPredicate.Create] (lines 348-351). *)
Definition AnnotationChangedPredicate_Create (v1 : ApiV1) (e : CreateEvent)
  : bool :=
  match anno_lookup (DebtNamespaceAnnoStatusKey v1) (GetAnnotations (Object_ e)) with
  | Some _ => true
  | None => false
  end.

(** *** Further notions used to state properties *)

(** The act neither subscribes to pods nor deletes or creates one. *)
Definition no_pod_write (a : Act) : Prop :=
  match a with
  | Issued WatchPods | Issued (DeletePod _) | Issued (CreatePod _) => False
  | _ => True
  end.

(** The pods outside a namespace, and the quota records outside it. *)
Definition pods_outside (namespace : string) (w : World) : list Pod :=
  List.filter (fun p => negb (in_namespace namespace p)) (pods w).
Definition quotas_outside (namespace : string) (w : World) : list ResourceQuota :=
  List.filter (fun q => negb (bool_decide (Namespace (QuotaMeta q) = namespace)))
    (quotas w).

(** Every run of [m] relates the world it starts in to the one it leaves. *)
Definition holds {A} (R : World -> World -> Prop) (m : M A) : Prop :=
  forall w, R w (final (m w)).

Definition namespaces_other (name : string) (w : World) : list NamespaceObj :=
  List.filter (fun n => negb (named name n)) (namespaces w).

(** Nothing outside the namespace changed: not the pods and quota records
    of other namespaces, not the other namespace objects. *)
Definition confined (namespace : string) (w w' : World) : Prop :=
  pods_outside namespace w' = pods_outside namespace w /\
  quotas_outside namespace w' = quotas_outside namespace w /\
  namespaces_other namespace w' = namespaces_other namespace w.

(** The pods of a listing all belong to the namespace. *)
Definition all_in (namespace : string) (items : list Pod) : Prop :=
  Forall (fun p => Namespace (PodMeta p) = namespace) items.

(** A subscription that never reports the awaited deletion and stays open. *)
Definition silent_feed (tr : list Act) : Stream :=
  match last tr with
  | Some (Issued (DeletePod p)) =>
      {| delivered := [event_of Modified p]; ending := Silent |}
  | _ => {| delivered := []; ending := Silent |}
  end.

(** A subscription over all namespaces: before the deletion that was
    requested it reports the deletion of a pod of the same name in the
    namespace ["other"]. *)
Definition namesake (p : Pod) : Pod :=
  with_meta (set_Namespace "other") p.
Definition crosstalk_feed (tr : list Act) : Stream :=
  match last tr with
  | Some (Issued (DeletePod p)) =>
      {| delivered := [event_of Modified p; event_of Deleted (namesake p);
                       event_of Deleted p];
         ending := Silent |}
  | _ => {| delivered := []; ending := Closed |}
  end.

Definition silent_cluster : Env :=
  {| fault := no_fault; feed := silent_feed;
     platform_status := pending_status |}.
Definition crosstalk_cluster : Env :=
  {| fault := no_fault; feed := crosstalk_feed;
     platform_status := pending_status |}.

(** A quota record under the well-known name whose limits are not zero. *)
Definition loose_quota : ResourceQuota :=
  {| QuotaMeta := set_Namespace "tenant" (set_Name "debt-limit0" ObjectMeta_zero);
     Hard := {[ "limits.cpu" := "4" ]} |}.

(** An API server that refuses every delete of a pod. *)
Definition refusing_deletes (tr : list Act) (c : Call) : option error :=
  match c with
  | DeletePod _ => Some (StatusError Forbidden)
  | _ => None
  end.
Definition readonly_cluster : Env :=
  {| fault := refusing_deletes; feed := prompt_feed;
     platform_status := pending_status |}.

Section Facts.

Variable E : Env.

Lemma is_deletion_of_spec oldPod ev :
  is_deletion_of oldPod ev = true <->
  EvType ev = Deleted /\
  exists val, EvObject ev = PodObject val
              /\ Name (PodMeta val) = Name (PodMeta oldPod).
Proof.
  unfold is_deletion_of. split.
  - destruct (EvType ev); try discriminate.
    destruct (EvObject ev) as [val|msg]; try discriminate.
    intros H%bool_decide_eq_true. eauto.
  - intros [-> (val & -> & Hn)]. by apply bool_decide_eq_true.
Qed.

(** *** What each request leaves behind *)

Lemma issue_run c w :
  issue E c w = Returns (fault E (trace w) c) (record (Issued c) w).
Proof. reflexivity. Qed.

Lemma Client_Create_Pod_trace p w :
  trace (final (Client_Create_Pod E p w)) = trace w ++ [Issued (CreatePod p)].
Proof.
  unfold Client_Create_Pod, bind, ret. rewrite issue_run.
  destruct (fault E (trace w) (CreatePod p)); simpl; [done|].
  repeat case_match; reflexivity.
Qed.

Lemma Client_Delete_Pod_trace p w :
  trace (final (Client_Delete_Pod E p w)) = trace w ++ [Issued (DeletePod p)].
Proof.
  unfold Client_Delete_Pod, bind, ret. rewrite issue_run.
  destruct (fault E (trace w) (DeletePod p)); simpl; [done|].
  repeat case_match; reflexivity.
Qed.

Lemma range_events_trace oldPod newPod evs fin w :
  exists t,
    trace (final (range_events E oldPod newPod evs fin w)) = trace w ++ t
    /\ wait_trace oldPod newPod t.
Proof.
  revert w. induction evs as [|ev rest IH]; intros w; simpl.
  - exists []. rewrite app_nil_r. split; [|constructor].
    by destruct fin.
  - destruct (is_deletion_of oldPod ev) eqn:Hm.
    + pose proof (Client_Create_Pod_trace newPod (record (Received ev) w)) as Hc.
      unfold bind, ret.
      destruct (Client_Create_Pod E newPod (record (Received ev) w))
        as [[e|] w1|w1]; simpl in *; rewrite Hc, <- app_assoc; simpl.
      * eexists; split; [reflexivity|]. apply wait_hit; auto.
      * exists [Received ev; Issued (CreatePod newPod); Stopped].
        split; [by rewrite <- !app_assoc|]. apply wait_hit; auto.
      * eexists; split; [reflexivity|]. apply wait_hit; auto.
    + destruct (IH (record (Received ev) w)) as (t & Ht & Hw).
      exists (Received ev :: t). split; [|by constructor].
      rewrite Ht. simpl. by rewrite <- app_assoc.
Qed.

Lemma recreatePod_trace oldPod newPod w :
  exists t,
    trace (final (recreatePod E oldPod newPod w)) = trace w ++ t
    /\ recreate_trace oldPod newPod t.
Proof.
  unfold recreatePod, Client_Watch, bind, ret. rewrite issue_run.
  destruct (fault E (trace w) WatchPods); simpl.
  { eexists; split; [reflexivity|constructor]. }
  pose proof (Client_Delete_Pod_trace oldPod (record (Issued WatchPods) w)) as Hd.
  destruct (Client_Delete_Pod E oldPod (record (Issued WatchPods) w))
    as [[e|] w1|w1]; simpl in *.
  - exists [Issued WatchPods; Issued (DeletePod oldPod)].
    split; [by rewrite Hd, <- app_assoc|constructor].
  - unfold ResultChan.
    destruct (range_events_trace oldPod newPod (delivered (feed E (trace w1)))
                (ending (feed E (trace w1))) w1) as (t & Ht & Hw).
    exists (Issued WatchPods :: Issued (DeletePod oldPod) :: t).
    split; [|by constructor]. rewrite Ht, Hd, <- !app_assoc. reflexivity.
  - exists [Issued WatchPods; Issued (DeletePod oldPod)].
    split; [by rewrite Hd, <- app_assoc|constructor].
Qed.

(** *** Positions in the trace of the waiting loop *)

Lemma wait_trace_create oldPod newPod t i q :
  wait_trace oldPod newPod t ->
  t !! i = Some (Issued (CreatePod q)) ->
  q = newPod /\
  exists j ev, i = S j /\ t !! j = Some (Received ev)
               /\ is_deletion_of oldPod ev = true.
Proof.
  intros Hw. revert i. induction Hw as [|ev t Hm Hw IH|ev tl Hm Htl]; intros i Hi.
  - by rewrite lookup_nil in Hi.
  - destruct i as [|i]; [discriminate|]. simpl in Hi.
    destruct (IH i Hi) as (-> & j & ev' & -> & Hj & Hm').
    split; [done|]. exists (S j), ev'. eauto.
  - destruct i as [|[|i]]; simpl in Hi.
    + discriminate.
    + injection Hi as ->. split; [done|]. exists 0, ev. eauto.
    + destruct Htl as [-> | ->]; [by rewrite lookup_nil in Hi|].
      destruct i; simpl in Hi; [discriminate|by rewrite lookup_nil in Hi].
Qed.

Lemma wait_trace_no_delete oldPod newPod t i p :
  wait_trace oldPod newPod t -> t !! i <> Some (Issued (DeletePod p)).
Proof.
  intros Hw. revert i. induction Hw as [|ev t Hm Hw IH|ev tl Hm Htl]; intros i Hi.
  - by rewrite lookup_nil in Hi.
  - destruct i as [|i]; [discriminate|]. by apply (IH i).
  - destruct i as [|[|i]]; simpl in Hi; try discriminate.
    destruct Htl as [-> | ->]; [by rewrite lookup_nil in Hi|].
    destruct i; simpl in Hi; [discriminate|by rewrite lookup_nil in Hi].
Qed.

Lemma wait_trace_ignored oldPod newPod t i ev :
  wait_trace oldPod newPod t ->
  t !! i = Some (Received ev) ->
  is_deletion_of oldPod ev = false ->
  t !! S i = None \/ exists ev', t !! S i = Some (Received ev').
Proof.
  intros Hw. revert i. induction Hw as [|e t Hm Hw IH|e tl Hm Htl]; intros i Hi Hno.
  - by rewrite lookup_nil in Hi.
  - destruct i as [|i].
    + simpl. destruct Hw; simpl; eauto.
    + simpl in *. by apply IH.
  - destruct i as [|[|i]]; simpl in Hi.
    + injection Hi as ->. congruence.
    + discriminate.
    + destruct Htl as [-> | ->]; [by rewrite lookup_nil in Hi|].
      destruct i; simpl in Hi; [discriminate|by rewrite lookup_nil in Hi].
Qed.

End Facts.

(** ** The recreate protocol *)

(** C1.  In every run of [recreatePod], whatever the cluster does: the
    subscription is opened first; the only delete requested is that of the
    old pod, and it comes after the subscription was opened; a create is
    requested only for the replacement pod, and only right after a
    notification read from the subscription, later than the delete, that is
    a deletion of a pod named like the old pod; a notification that is not a
    deletion, or is the deletion of a pod with another name, triggers no
    request: the next thing that happens, if anything, is the next read. *)
Theorem recreatePod_create_only_after_observed_deletion
    (E : Env) (oldPod newPod : Pod) (w : World) :
  exists t,
    trace (final (recreatePod E oldPod newPod w)) = trace w ++ t /\
    t !! 0 = Some (Issued WatchPods) /\
    (forall i p, t !! i = Some (Issued (DeletePod p)) -> p = oldPod /\ i = 1) /\
    (forall i q, t !! i = Some (Issued (CreatePod q)) ->
       q = newPod /\
       t !! 1 = Some (Issued (DeletePod oldPod)) /\
       exists j ev val,
         1 < j /\ i = S j /\ t !! j = Some (Received ev) /\
         EvType ev = Deleted /\ EvObject ev = PodObject val /\
         Name (PodMeta val) = Name (PodMeta oldPod)) /\
    (forall i ev, t !! i = Some (Received ev) ->
       (EvType ev <> Deleted \/
        forall val, EvObject ev = PodObject val ->
                    Name (PodMeta val) <> Name (PodMeta oldPod)) ->
       t !! S i = None \/ exists ev', t !! S i = Some (Received ev')).
Proof.
  destruct (recreatePod_trace E oldPod newPod w) as (t & Ht & Hshape).
  exists t. split; [exact Ht|].
  destruct Hshape as [| |t Hw].
  - split; [done|]. split; [|split].
    + intros i p Hi. by destruct i as [|[|i]].
    + intros i q Hi. by destruct i as [|[|i]].
    + intros i ev Hi. by destruct i as [|[|i]].
  - split; [done|]. split; [|split].
    + intros i p Hi. destruct i as [|[|[|i]]]; simpl in Hi; try discriminate.
      by injection Hi as ->.
    + intros i q Hi. by destruct i as [|[|[|i]]].
    + intros i ev Hi. by destruct i as [|[|[|i]]].
  - split; [done|]. split; [|split].
    + intros i p Hi. destruct i as [|[|i]]; simpl in Hi; try discriminate.
      * by injection Hi as ->.
      * destruct (wait_trace_no_delete _ _ _ _ _ Hw Hi).
    + intros i q Hi. destruct i as [|[|i]]; simpl in Hi; try discriminate.
      destruct (wait_trace_create _ _ _ _ _ Hw Hi) as (-> & j & ev & -> & Hj & Hm).
      apply is_deletion_of_spec in Hm as (Hty & val & Hobj & Hname).
      split; [done|]. split; [done|].
      exists (S (S j)), ev, val. repeat split; auto; lia.
    + intros i ev Hi Hother. destruct i as [|[|i]]; simpl in Hi; try discriminate.
      simpl. apply (wait_trace_ignored _ _ _ _ _ Hw Hi).
      destruct (is_deletion_of oldPod ev) eqn:Hm; [|done].
      apply is_deletion_of_spec in Hm as (Hty & val & Hobj & Hname).
      destruct Hother as [Hne|Hne]; [done|]. by destruct (Hne val Hobj).
Qed.

Section Frames.


Variable v1 : ApiV1.
Variable E : Env.

Lemma extends_refl P w : extends P w w.
Proof. split; [done|]. exists []. by rewrite app_nil_r. Qed.

Lemma extends_trans P w1 w2 w3 :
  extends P w1 w2 -> extends P w2 w3 -> extends P w1 w3.
Proof.
  intros [Hn1 (t1 & Ht1 & HP1)] [Hn2 (t2 & Ht2 & HP2)]. split; [congruence|].
  exists (t1 ++ t2). split; [by rewrite Ht2, Ht1, app_assoc|by apply Forall_app].
Qed.

Lemma extends_record P a w : P a -> extends P w (record a w).
Proof. intros Ha. split; [done|]. exists [a]. split; [done|]. by constructor. Qed.

Lemma keeps_ret {A} P (a : A) : keeps P (ret a).
Proof. intros w. apply extends_refl. Qed.

Lemma keeps_bind {A B} P (m : M A) (k : A -> M B) :
  keeps P m -> (forall a, keeps P (k a)) -> keeps P (bind m k).
Proof.
  intros Hm Hk w. unfold bind. specialize (Hm w).
  destruct (m w) as [a w1|w1]; simpl in *; [|done].
  eapply extends_trans; [exact Hm|apply Hk].
Qed.

Lemma keeps_weaken {A} (P Q : Act -> Prop) (m : M A) :
  (forall a, P a -> Q a) -> keeps P m -> keeps Q m.
Proof.
  intros HPQ Hm w. destruct (Hm w) as [Hn (t & Ht & HP)].
  split; [done|]. exists t. split; [done|]. eapply Forall_impl; eauto.
Qed.

Lemma keeps_issue P c : P (Issued c) -> keeps P (issue E c).
Proof. intros Hc w. rewrite issue_run. simpl. by apply extends_record. Qed.

(** A request that leaves the namespace objects alone whatever it answers. *)
Lemma keeps_request {A} P c (answer : World -> Outcome A) (failed : error -> A) :
  P (Issued c) ->
  (forall w, namespaces (final (answer w)) = namespaces w
             /\ trace (final (answer w)) = trace w) ->
  keeps P (bind (issue E c) (fun r => match r with
                                      | Some err => ret (failed err)
                                      | None => answer
                                      end)).
Proof.
  intros Hc Hans. apply keeps_bind; [by apply keeps_issue|].
  intros [err|]; [apply keeps_ret|].
  intros w. destruct (Hans w) as [Hn Ht]. split; [done|].
  exists []. by rewrite app_nil_r.
Qed.

Lemma keeps_List_Pods P ns : P (Issued (ListPods ns)) -> keeps P (Client_List_Pods E ns).
Proof. intros HP. apply keeps_request; [done|]. by intros w. Qed.

Lemma keeps_Delete_Pod P p : P (Issued (DeletePod p)) -> keeps P (Client_Delete_Pod E p).
Proof.
  intros HP. apply keeps_request; [done|]. intros w. by case_match.
Qed.

Lemma keeps_Create_Pod P p : P (Issued (CreatePod p)) -> keeps P (Client_Create_Pod E p).
Proof.
  intros HP. apply keeps_request; [done|]. intros w. by repeat case_match.
Qed.

Lemma keeps_Get_Quota P ns n : P (Issued (GetQuota ns n)) -> keeps P (Client_Get_Quota E ns n).
Proof. intros HP. apply keeps_request; [done|]. intros w. by case_match. Qed.

Lemma keeps_Create_Quota P q : P (Issued (CreateQuota q)) -> keeps P (Client_Create_Quota E q).
Proof. intros HP. apply keeps_request; [done|]. intros w. by case_match. Qed.

Lemma keeps_Update_Quota P q : P (Issued (UpdateQuota q)) -> keeps P (Client_Update_Quota E q).
Proof. intros HP. apply keeps_request; [done|]. intros w. by case_match. Qed.

Lemma keeps_Delete_Quota P q : P (Issued (DeleteQuota q)) -> keeps P (Client_Delete_Quota E q).
Proof. intros HP. apply keeps_request; [done|]. intros w. by case_match. Qed.

Lemma keeps_range_events P oldPod newPod evs fin :
  (forall a, recreate_act oldPod newPod a -> P a) ->
  keeps P (range_events E oldPod newPod evs fin).
Proof.
  intros HP. induction evs as [|ev rest IH]; simpl.
  - destruct fin; [apply keeps_ret|]. intros w. apply extends_refl.
  - intros w. eapply extends_trans.
    { apply (extends_record P (Received ev)). by apply HP. }
    destruct (is_deletion_of oldPod ev); [|apply IH].
    apply keeps_bind; [apply keeps_Create_Pod; by apply HP|].
    intros [e|]; [apply keeps_ret|].
    apply keeps_bind; [|intros; apply keeps_ret].
    intros w'. apply extends_record. by apply HP.
Qed.

Lemma keeps_recreatePod P oldPod newPod :
  (forall a, recreate_act oldPod newPod a -> P a) ->
  keeps P (recreatePod E oldPod newPod).
Proof.
  intros HP. unfold recreatePod.
  apply keeps_bind; [apply keeps_issue; by apply HP|].
  intros [e|]; [apply keeps_ret|].
  apply keeps_bind; [apply keeps_Delete_Pod; by apply HP|].
  intros [e|]; [apply keeps_ret|].
  apply keeps_bind; [intros w; apply extends_refl|].
  intros ch. by apply keeps_range_events.
Qed.



(** *** Runs of the protocol that return without error *)

Lemma range_events_ok oldPod newPod evs fin w w' :
  range_events E oldPod newPod evs fin w = Returns None w' ->
  exists wt, trace w' = trace w ++ wt /\ wait_trace oldPod newPod wt.
Proof.
  intros Hrun.
  destruct (range_events_trace E oldPod newPod evs fin w) as (t & Ht & Hw).
  rewrite Hrun in Ht. eauto.
Qed.

Lemma recreatePod_ok oldPod newPod w w' :
  recreatePod E oldPod newPod w = Returns None w' ->
  exists wt,
    trace w' = trace w ++ Issued WatchPods :: Issued (DeletePod oldPod) :: wt
    /\ wait_trace oldPod newPod wt.
Proof.
  unfold recreatePod, Client_Watch, bind, ret. rewrite issue_run.
  destruct (fault E (trace w) WatchPods); [discriminate|].
  pose proof (Client_Delete_Pod_trace E oldPod (record (Issued WatchPods) w)) as Hd.
  destruct (Client_Delete_Pod E oldPod (record (Issued WatchPods) w))
    as [[e|] w1|w1]; simpl in *; try discriminate.
  unfold ResultChan. intros (wt & Ht & Hw)%range_events_ok.
  exists wt. split; [|done]. by rewrite Ht, Hd, <- !app_assoc.
Qed.

(** When the awaited deletion is among the notifications, the loop reaches
    the create. *)
Lemma range_events_hit oldPod newPod evs fin w :
  existsb (is_deletion_of oldPod) evs = true ->
  exists wt,
    trace (final (range_events E oldPod newPod evs fin w)) = trace w ++ wt
    /\ wait_trace oldPod newPod wt /\ creates wt = [newPod] /\ deletes wt = [].
Proof.
  revert w. induction evs as [|ev rest IH]; intros w Hex; [discriminate|].
  simpl in *. destruct (is_deletion_of oldPod ev) eqn:Hm.
  - pose proof (Client_Create_Pod_trace E newPod (record (Received ev) w)) as Hc.
    unfold bind, ret.
    destruct (Client_Create_Pod E newPod (record (Received ev) w))
      as [[e|] w1|w1]; simpl in *; rewrite Hc, <- app_assoc; simpl.
    + eexists; split; [reflexivity|]. split; [apply wait_hit; auto|done].
    + exists [Received ev; Issued (CreatePod newPod); Stopped].
      split; [by rewrite <- !app_assoc|]. split; [apply wait_hit; auto|done].
    + eexists; split; [reflexivity|]. split; [apply wait_hit; auto|done].
  - destruct (IH (record (Received ev) w) Hex) as (t & Ht & Hw & Hc & Hd).
    exists (Received ev :: t). rewrite Ht. simpl. rewrite <- app_assoc.
    split; [done|]. split; [by constructor|done].
Qed.

Lemma wait_trace_deletes oldPod newPod wt :
  wait_trace oldPod newPod wt -> deletes wt = [].
Proof.
  induction 1 as [|ev t Hm Hw IH|ev tl Hm [-> | ->]]; simpl; auto.
Qed.

Lemma recreatePod_ok_prompt oldPod newPod w w' :
  prompt E ->
  recreatePod E oldPod newPod w = Returns None w' ->
  exists t, trace w' = trace w ++ t
            /\ deletes t = [oldPod] /\ creates t = [newPod].
Proof.
  intros Hp. unfold recreatePod, Client_Watch, bind, ret. rewrite issue_run.
  destruct (fault E (trace w) WatchPods); [discriminate|].
  pose proof (Client_Delete_Pod_trace E oldPod (record (Issued WatchPods) w)) as Hd.
  destruct (Client_Delete_Pod E oldPod (record (Issued WatchPods) w))
    as [[e|] w1|w1]; simpl in *; try discriminate.
  unfold ResultChan. intros Hrun.
  destruct (range_events_hit oldPod newPod (delivered (feed E (trace w1)))
              (ending (feed E (trace w1))) w1) as (wt & Ht & _ & Hc & Hdel).
  { rewrite Hd. apply Hp. }
  rewrite Hrun in Ht. simpl in Ht.
  exists (Issued WatchPods :: Issued (DeletePod oldPod) :: wt).
  split; [by rewrite Ht, Hd, <- !app_assoc|].
  split.
  - change (deletes (Issued WatchPods :: Issued (DeletePod oldPod) :: wt))
      with (oldPod :: deletes wt). by rewrite Hdel.
  - change (creates (Issued WatchPods :: Issued (DeletePod oldPod) :: wt))
      with (creates wt). done.
Qed.



(** *** The three loops over the pods of a namespace *)

Lemma keeps_suspend_items items :
  keeps (recreating (suspend_clone v1) (suspend_targets v1 items))
        (suspendOrphanPod_items v1 E items).
Proof.
  induction items as [|pod rest IH]; simpl; [apply keeps_ret|].
  unfold suspend_targets in *. simpl.
  destruct (suspend_skips v1 pod); simpl; [exact IH|].
  apply keeps_bind.
  - apply keeps_recreatePod. intros a Ha. exists pod. split; [by left|done].
  - intros [e|]; [apply keeps_ret|].
    eapply keeps_weaken; [|exact IH].
    intros a (p & Hin & Ha). exists p. split; [by right|done].
Qed.

Lemma keeps_resume_items items :
  keeps (resuming v1 (resume_targets v1 items)) (resumePod_items v1 E items).
Proof.
  induction items as [|pod rest IH]; simpl; [apply keeps_ret|].
  unfold resume_targets in *. simpl.
  destruct (resume_skips v1 pod); simpl; [exact IH|].
  assert (forall m : M (option error), keeps (resuming v1 (List.filter
            (fun p => negb (resume_skips v1 p)) rest)) m ->
          keeps (resuming v1 (pod :: List.filter
            (fun p => negb (resume_skips v1 p)) rest)) m) as Hweak.
  { intros m. apply keeps_weaken.
    intros a (p & Hin & Ha). exists p. split; [by right|done]. }
  destruct (bool_decide (0 < length (OwnerReferences (PodMeta pod)))) eqn:Hown.
  - apply keeps_bind.
    + apply keeps_Delete_Pod. exists pod. split; [by left|].
      unfold unmanaged. by rewrite Hown.
    + intros [e|]; [apply keeps_ret|]. by apply Hweak.
  - apply keeps_bind.
    + apply keeps_recreatePod. intros a Ha. exists pod. split; [by left|].
      unfold unmanaged. by rewrite Hown.
    + intros [e|]; [apply keeps_ret|]. by apply Hweak.
Qed.

Lemma suspend_items_ok items w w' :
  suspendOrphanPod_items v1 E items w = Returns None w' ->
  exists t, trace w' = trace w ++ t
            /\ recreates_each (suspend_clone v1) (suspend_targets v1 items) t.
Proof.
  revert w. induction items as [|pod rest IH]; intros w; simpl.
  - intros [= <-]. exists []. rewrite app_nil_r. split; [done|].
    exists []. split; [done|constructor].
  - unfold suspend_targets in *. simpl.
    destruct (suspend_skips v1 pod); simpl; [apply IH|].
    unfold bind.
    destruct (recreatePod E pod (suspend_clone v1 pod) w) as [[e|] w1|w1] eqn:Hr;
      try discriminate.
    apply recreatePod_ok in Hr as (wt & Ht1 & Hwt).
    intros (t & Ht & segs & -> & Hsegs)%IH.
    exists ((Issued WatchPods :: Issued (DeletePod pod) :: wt) ++ concat segs).
    split; [by rewrite Ht, Ht1, <- !app_assoc|].
    exists ((Issued WatchPods :: Issued (DeletePod pod) :: wt) :: segs).
    split; [done|]. constructor; eauto.
Qed.

Lemma resume_items_ok items w w' :
  prompt E ->
  resumePod_items v1 E items w = Returns None w' ->
  exists t, trace w' = trace w ++ t
            /\ deletes t = resume_targets v1 items
            /\ creates t = map (resume_clone v1)
                             (List.filter unmanaged (resume_targets v1 items)).
Proof.
  intros Hp. revert w. induction items as [|pod rest IH]; intros w; simpl.
  - intros [= <-]. exists []. by rewrite app_nil_r.
  - unfold resume_targets in *. simpl.
    destruct (resume_skips v1 pod); simpl; [apply IH|].
    unfold unmanaged at 1.
    destruct (bool_decide (0 < length (OwnerReferences (PodMeta pod)))) eqn:Hown;
      simpl; unfold bind.
    + pose proof (Client_Delete_Pod_trace E pod w) as Hd.
      destruct (Client_Delete_Pod E pod w) as [[e|] w1|w1]; try discriminate.
      simpl in Hd. intros (t & Ht & Hdel & Hcr)%IH.
      exists (Issued (DeletePod pod) :: t).
      split; [by rewrite Ht, Hd, <- app_assoc|].
      split.
      * change (deletes (Issued (DeletePod pod) :: t)) with (pod :: deletes t).
        by rewrite Hdel.
      * exact Hcr.
    + destruct (recreatePod E pod (resume_clone v1 pod) w) as [[e|] w1|w1] eqn:Hr;
        try discriminate.
      apply (recreatePod_ok_prompt _ _ _ _ Hp) in Hr as (t1 & Ht1 & Hd1 & Hc1).
      intros (t & Ht & Hdel & Hcr)%IH.
      exists (t1 ++ t). split; [by rewrite Ht, Ht1, <- app_assoc|].
      unfold deletes, creates in *. rewrite !omap_app, Hd1, Hc1, Hdel, Hcr. done.
Qed.

Lemma delete_items_trace items w :
  exists gone,
    trace (final (deleteControlledPod_items v1 E items w))
    = trace w ++ map (fun p => Issued (DeletePod p)) gone
    /\ gone `prefix_of` delete_targets v1 items
    /\ (forall w', deleteControlledPod_items v1 E items w = Returns None w' ->
                   gone = delete_targets v1 items).
Proof.
  revert w. induction items as [|pod rest IH]; intros w; simpl.
  - exists []. by rewrite app_nil_r.
  - unfold delete_targets in *. simpl.
    destruct (delete_skips v1 pod); simpl; [apply IH|].
    unfold bind. pose proof (Client_Delete_Pod_trace E pod w) as Hd.
    destruct (Client_Delete_Pod E pod w) as [[e|] w1|w1]; simpl in *.
    + exists [pod]. split; [done|]. split; [|done].
      by apply prefix_cons, prefix_nil.
    + destruct (IH w1) as (gone & Ht & Hpre & Hall).
      exists (pod :: gone). split; [by rewrite Ht, Hd, <- app_assoc|].
      split; [by apply prefix_cons|]. intros w' Hrun. f_equal. eauto.
    + exists [pod]. split; [done|]. split; [|done].
      by apply prefix_cons, prefix_nil.
Qed.

End Frames.

Section Stages.


Variable v1 : ApiV1.
Variable E : Env.

Lemma In_creates q t : In q (creates t) <-> In (Issued (CreatePod q)) t.
Proof.
  unfold creates. rewrite <- !list_elem_of_In, list_elem_of_omap. split.
  - intros (a & Ha & Hq). destruct a as [[]| |]; simpl in Hq; try discriminate.
    by injection Hq as ->.
  - intros Hin. by exists (Issued (CreatePod q)).
Qed.

Lemma In_deletes q t : In q (deletes t) <-> In (Issued (DeletePod q)) t.
Proof.
  unfold deletes. rewrite <- !list_elem_of_In, list_elem_of_omap. split.
  - intros (a & Ha & Hq). destruct a as [[]| |]; simpl in Hq; try discriminate.
    by injection Hq as ->.
  - intros Hin. by exists (Issued (DeletePod q)).
Qed.

Lemma suspendOrphanPod_acts ns w :
  exists t,
    trace (final (suspendOrphanPod v1 E ns w)) = trace w ++ Issued (ListPods ns) :: t
    /\ Forall (recreating (suspend_clone v1) (suspend_targets v1 (pods_in ns w))) t
    /\ namespaces (final (suspendOrphanPod v1 E ns w)) = namespaces w.
Proof.
  unfold suspendOrphanPod, Client_List_Pods, bind, ret. rewrite issue_run.
  destruct (fault E (trace w) (ListPods ns)); simpl.
  { exists []. done. }
  destruct (keeps_suspend_items v1 E (List.filter (in_namespace ns) (pods w))
              (record (Issued (ListPods ns)) w)) as [Hn (t & Ht & HP)].
  exists t. simpl in *. by rewrite Ht, <- app_assoc.
Qed.

Lemma resumePod_acts ns w :
  exists t,
    trace (final (resumePod v1 E ns w)) = trace w ++ Issued (ListPods ns) :: t
    /\ Forall (resuming v1 (resume_targets v1 (pods_in ns w))) t
    /\ namespaces (final (resumePod v1 E ns w)) = namespaces w.
Proof.
  unfold resumePod, Client_List_Pods, bind, ret. rewrite issue_run.
  destruct (fault E (trace w) (ListPods ns)); simpl.
  { exists []. done. }
  destruct (keeps_resume_items v1 E (List.filter (in_namespace ns) (pods w))
              (record (Issued (ListPods ns)) w)) as [Hn (t & Ht & HP)].
  exists t. simpl in *. by rewrite Ht, <- app_assoc.
Qed.

Lemma suspendOrphanPod_creates ns w :
  exists t,
    trace (final (suspendOrphanPod v1 E ns w)) = trace w ++ t /\
    forall q, In q (creates t) ->
      exists p, In p (pods_in ns w) /\ suspend_skips v1 p = false
                /\ q = suspend_clone v1 p.
Proof.
  destruct (suspendOrphanPod_acts ns w) as (t & Ht & HP & _).
  exists (Issued (ListPods ns) :: t). split; [done|].
  intros q [Hq|Hq]%In_creates; [discriminate|].
  rewrite Forall_forall in HP. apply list_elem_of_In, HP in Hq.
  destruct Hq as (p & [Hin Hsk]%filter_In & Hact). simpl in Hact.
  exists p. split; [done|]. split; [by destruct (suspend_skips v1 p)|done].
Qed.

Lemma resumePod_creates ns w :
  exists t,
    trace (final (resumePod v1 E ns w)) = trace w ++ t /\
    forall q, In q (creates t) ->
      exists p, In p (pods_in ns w) /\ resume_skips v1 p = false
                /\ OwnerReferences (PodMeta p) = [] /\ q = resume_clone v1 p.
Proof.
  destruct (resumePod_acts ns w) as (t & Ht & HP & _).
  exists (Issued (ListPods ns) :: t). split; [done|].
  intros q [Hq|Hq]%In_creates; [discriminate|].
  rewrite Forall_forall in HP. apply list_elem_of_In, HP in Hq.
  destruct Hq as (p & [Hin Hsk]%filter_In & Hact).
  unfold unmanaged in Hact.
  destruct (bool_decide (0 < length (OwnerReferences (PodMeta p)))) eqn:Hown;
    simpl in Hact; [discriminate|].
  exists p. split; [done|]. split; [by destruct (resume_skips v1 p)|].
  split; [|done]. apply bool_decide_eq_false in Hown.
  destruct (OwnerReferences (PodMeta p)); [done|]. simpl in Hown. lia.
Qed.

Lemma suspend_clone_fields pod :
  let clone := suspend_clone v1 pod in
  Name (PodMeta clone) = Name (PodMeta pod) /\
  Namespace (PodMeta clone) = Namespace (PodMeta pod) /\
  OwnerReferences (PodMeta clone) = OwnerReferences (PodMeta pod) /\
  ResourceVersion (PodMeta clone) = "" /\
  NodeName (Spec clone) = "" /\
  Status clone = PodStatus_zero /\
  SchedulerName (Spec clone) = DebtSchedulerName v1.
Proof.
  unfold suspend_clone. simpl.
  destruct (Annotations (PodMeta pod)); simpl; repeat split.
Qed.

Lemma resume_clone_fields pod :
  let clone := resume_clone v1 pod in
  Name (PodMeta clone) = Name (PodMeta pod) /\
  Namespace (PodMeta clone) = Namespace (PodMeta pod) /\
  OwnerReferences (PodMeta clone) = OwnerReferences (PodMeta pod) /\
  ResourceVersion (PodMeta clone) = "" /\
  NodeName (Spec clone) = "" /\
  Status clone = PodStatus_zero /\
  SchedulerName (Spec clone)
  = default "" (anno_lookup (PreviousSchedulerName v1) (Annotations (PodMeta pod))) /\
  anno_lookup (PreviousSchedulerName v1) (Annotations (PodMeta clone)) = None /\
  forall k, k <> PreviousSchedulerName v1 ->
            anno_lookup k (Annotations (PodMeta clone))
            = anno_lookup k (Annotations (PodMeta pod)).
Proof.
  unfold resume_clone. simpl.
  destruct (anno_lookup (PreviousSchedulerName v1) (Annotations (PodMeta pod)))
    as [scheduler|] eqn:Hprev; simpl; repeat split; auto.
  - destruct (Annotations (PodMeta pod)); simpl; [apply lookup_delete_eq|done].
  - intros k Hk. destruct (Annotations (PodMeta pod)); simpl; [|done].
    by apply lookup_delete_ne.
Qed.

Lemma suspend_clone_previous pod :
  anno_lookup (PreviousSchedulerName v1)
    (Annotations (PodMeta (suspend_clone v1 pod)))
  = Some (SchedulerName (Spec pod)).
Proof.
  unfold suspend_clone. simpl.
  destruct (Annotations (PodMeta pod)) eqn:Ha; simpl; rewrite ?Ha; simpl;
    apply lookup_insert_eq.
Qed.



(** *** The quota gate *)

Lemma limit0_key ns : quota_key (GetLimit0ResourceQuota ns) = (ns, "debt-limit0").
Proof. reflexivity. Qed.

Lemma find_has_key k q qs : find (has_key k) qs = Some q -> quota_key q = k.
Proof. intros [_ H]%find_some. by apply bool_decide_eq_true in H. Qed.

Lemma limitResourceQuotaCreate_eq ns w :
  limitResourceQuotaCreate E ns w =
  let w1 := record (Issued (GetQuota ns "debt-limit0")) w in
  match fault E (trace w) (GetQuota ns "debt-limit0") with
  | Some e => if IsNotFound e then create_limit0 E ns w1 else Returns (Some e) w1
  | None =>
      match find (has_key (ns, "debt-limit0")) (quotas w) with
      | Some _ => Returns None w1
      | None => create_limit0 E ns w1
      end
  end.
Proof.
  unfold limitResourceQuotaCreate, CreateOrUpdate, Client_Get_Quota,
    Client_Create_Quota, create_limit0, issue, bind, ret.
  cbn [Namespace Name QuotaMeta GetLimit0ResourceQuota set_Namespace set_Name
       ObjectMeta_zero].
  destruct (fault E (trace w) (GetQuota ns "debt-limit0")) as [e|].
  - destruct (IsNotFound e); cbn [negb]; [|reflexivity].
    rewrite bool_decide_eq_true_2 by reflexivity.
    destruct (fault E _ (CreateQuota _)); [reflexivity|].
    change (quota_key (GetLimit0ResourceQuota ns)) with (ns, "debt-limit0").
    cbn [quotas record]. by destruct (find _ (quotas w)).
  - cbn [quotas record].
    destruct (find (has_key (ns, "debt-limit0")) (quotas w)) as [q|] eqn:Hq.
    + apply find_has_key in Hq.
      change (quota_key (GetLimit0ResourceQuota ns)) with (ns, "debt-limit0").
      rewrite bool_decide_eq_true_2 by exact Hq.
      by rewrite bool_decide_eq_true_2 by reflexivity.
    + cbn [IsNotFound negb].
      rewrite bool_decide_eq_true_2 by reflexivity.
      destruct (fault E _ (CreateQuota _)); [reflexivity|].
      change (quota_key (GetLimit0ResourceQuota ns)) with (ns, "debt-limit0").
      cbn [quotas record]. by rewrite Hq.
Qed.

Lemma limitResourceQuotaDelete_eq ns w :
  limitResourceQuotaDelete E ns w =
  let w1 := record (Issued (DeleteQuota (GetLimit0ResourceQuota ns))) w in
  match fault E (trace w) (DeleteQuota (GetLimit0ResourceQuota ns)) with
  | Some e => Returns (IgnoreNotFound (Some e)) w1
  | None =>
      match find (has_key (ns, "debt-limit0")) (quotas w) with
      | Some _ =>
          Returns None
            (set_quotas
               (List.filter (fun o => negb (has_key (ns, "debt-limit0") o))
                  (quotas w)) w1)
      | None => Returns None w1
      end
  end.
Proof.
  unfold limitResourceQuotaDelete, Client_Delete_Quota, issue, bind, ret.
  change (quota_key (GetLimit0ResourceQuota ns)) with (ns, "debt-limit0").
  destruct (fault E _ (DeleteQuota _)); [reflexivity|].
  cbn [quotas record]. by destruct (find _ (quotas w)).
Qed.



Lemma find_snoc {A} (f : A -> bool) l x :
  find f (l ++ [x]) = match find f l with
                      | Some y => Some y
                      | None => if f x then Some x else None
                      end.
Proof. induction l as [|a l IH]; simpl; [done|]. by destruct (f a). Qed.

(** *** The waiting loop on a channel that closes too early *)

Lemma range_events_miss oldPod newPod evs w :
  existsb (is_deletion_of oldPod) evs = false ->
  exists w',
    range_events E oldPod newPod evs Closed w = Returns None w'
    /\ pods w' = pods w /\ quotas w' = quotas w /\ namespaces w' = namespaces w
    /\ trace w' = trace w ++ map Received evs.
Proof.
  revert w. induction evs as [|ev rest IH]; intros w Hno; simpl in *.
  - exists w. by rewrite app_nil_r.
  - apply orb_false_iff in Hno as [Hev Hrest]. rewrite Hev.
    destruct (IH (record (Received ev) w) Hrest) as (w' & Hrun & Hp & Hq & Hn & Ht).
    exists w'. rewrite Hrun, Ht. simpl. by rewrite <- app_assoc.
Qed.

End Stages.

(** C2.  What [recreatePod] does when the channel is closed before the
    awaited deletion was delivered: the subscription was opened, the old pod
    was deleted, none of the notifications read is the deletion of a pod of
    that name, and the loop over the channel ends.  The function then
    returns [nil]: no create was requested, the old pod is gone from the
    store, and the caller is told nothing went wrong. *)
Theorem recreatePod_closed_channel_returns_nil
    (E : Env) (oldPod newPod : Pod) (w : World) (evs : list Event) :
  fault E (trace w) WatchPods = None ->
  fault E (trace w ++ [Issued WatchPods]) (DeletePod oldPod) = None ->
  existsb (same_pod oldPod) (pods w) = true ->
  feed E (trace w ++ [Issued WatchPods; Issued (DeletePod oldPod)])
  = {| delivered := evs; ending := Closed |} ->
  existsb (is_deletion_of oldPod) evs = false ->
  exists w',
    recreatePod E oldPod newPod w = Returns None w'
    /\ trace w' = trace w ++ Issued WatchPods :: Issued (DeletePod oldPod)
                            :: map Received evs
    /\ creates (map Received evs) = []
    /\ pods w' = List.filter (fun q => negb (same_pod oldPod q)) (pods w).
Proof.
  intros Hw Hd Hex Hfeed Hno.
  unfold recreatePod, Client_Watch, Client_Delete_Pod, ResultChan, issue, bind, ret.
  rewrite Hw. cbn [trace record]. rewrite Hd. cbn [pods record]. rewrite Hex.
  cbn [trace set_pods record]. rewrite <- app_assoc. cbn [app]. rewrite Hfeed.
  cbn [delivered ending].
  edestruct (range_events_miss E oldPod newPod evs) as (w' & Hrun & Hp & _ & _ & Ht);
    [exact Hno|].
  exists w'. rewrite Hrun. split; [done|]. rewrite Ht, Hp. cbn.
  split; [by rewrite <- !app_assoc|]. split; [|done].
  clear. induction evs; [done|]. exact IHevs.
Qed.

(** In [closing_cluster] the channel reports [pod_A] as modified and is then
    closed: [pod_A] is deleted, nothing is created, [nil] is returned. *)
Lemma recreatePod_closed_channel_witness :
  let w := cluster "ResumeRequested" [pod_A; pod_B] in
  let newPod := suspend_clone example_v1 pod_A in
  exists w',
    recreatePod closing_cluster pod_A newPod w = Returns None w'
    /\ trace w' = [Issued WatchPods; Issued (DeletePod pod_A);
                   Received (event_of Modified pod_A)]
    /\ pods w' = [pod_B].
Proof.
  destruct (recreatePod_closed_channel_returns_nil closing_cluster pod_A
              (suspend_clone example_v1 pod_A)
              (cluster "ResumeRequested" [pod_A; pod_B])
              [event_of Modified pod_A])
    as (w' & Hrun & Ht & _ & Hp); try reflexivity.
  exists w'. split; [exact Hrun|]. split; [exact Ht|]. rewrite Hp.
  vm_compute. reflexivity.
Defined.

(** C7.  With an API server that fails no request: blocking a namespace
    twice succeeds both times and the second call leaves the quota records
    exactly as the first one left them, the record under the well-known name
    being present (the zero-limit record, or the one that was already
    there); pods and namespace objects are untouched.  Unblocking a
    namespace [w0] that has no such record succeeds as well, the not-found
    answer of the delete being dropped, and changes nothing. *)
Theorem quota_gate_idempotent (E : Env) (ns : string) (w w0 : World) :
  reliable E ->
  find (has_key (ns, "debt-limit0")) (quotas w0) = None ->
  (exists w1 w2,
     limitResourceQuotaCreate E ns w = Returns None w1 /\
     limitResourceQuotaCreate E ns w1 = Returns None w2 /\
     quotas w2 = quotas w1 /\
     find (has_key (ns, "debt-limit0")) (quotas w1)
     = Some (default (GetLimit0ResourceQuota ns)
               (find (has_key (ns, "debt-limit0")) (quotas w))) /\
     pods w2 = pods w /\ namespaces w2 = namespaces w)
  /\
  (exists w',
     limitResourceQuotaDelete E ns w0 = Returns None w' /\
     quotas w' = quotas w0 /\ pods w' = pods w0 /\ namespaces w' = namespaces w0).
Proof.
  intros Hrel Habsent. split.
  - rewrite limitResourceQuotaCreate_eq. cbn zeta. rewrite Hrel.
    destruct (find (has_key (ns, "debt-limit0")) (quotas w)) as [q|] eqn:Hq.
    + eexists _, _. split; [reflexivity|].
      rewrite limitResourceQuotaCreate_eq. cbn zeta. rewrite Hrel.
      cbn [quotas record]. rewrite Hq. done.
    + unfold create_limit0. rewrite Hrel. cbn [quotas record]. rewrite Hq.
      eexists _, _. split; [reflexivity|].
      rewrite limitResourceQuotaCreate_eq. cbn zeta. rewrite Hrel.
      cbn [quotas record set_quotas].
      assert (find (has_key (ns, "debt-limit0"))
                (quotas w ++ [GetLimit0ResourceQuota ns])
              = Some (GetLimit0ResourceQuota ns)) as Hnew.
      { rewrite find_snoc, Hq. unfold has_key.
        by rewrite bool_decide_eq_true_2 by reflexivity. }
      rewrite Hnew. done.
  - rewrite limitResourceQuotaDelete_eq. cbn zeta. rewrite Hrel, Habsent.
    eexists. done.
Qed.

(** The quota gate on the example namespace, which has no quota record. *)
Lemma quota_gate_idempotent_witness :
  reliable parking_cluster /\
  find (has_key ("tenant", "debt-limit0")) (quotas (cluster "Normal" [pod_A])) = None /\
  (exists w1 w2,
     limitResourceQuotaCreate parking_cluster "tenant" (cluster "Normal" [pod_A])
     = Returns None w1 /\
     limitResourceQuotaCreate parking_cluster "tenant" w1 = Returns None w2 /\
     quotas w2 = quotas w1) /\
  (exists w',
     limitResourceQuotaDelete parking_cluster "tenant" (cluster "Normal" [pod_A])
     = Returns None w').
Proof.
  split; [intros tr c; reflexivity|]. split; [reflexivity|].
  destruct (quota_gate_idempotent parking_cluster "tenant"
              (cluster "Normal" [pod_A]) (cluster "Normal" [pod_A]))
    as [(w1 & w2 & H1 & H2 & H3 & _) (w' & H4 & _)];
    [intros tr c; reflexivity|reflexivity|].
  split; [exists w1, w2; auto|exists w'; exact H4].
Defined.

Lemma find_named name ns l : find (named name) l = Some ns -> Name (NsMeta ns) = name.
Proof. intros [_ H]%find_some. by apply bool_decide_eq_true in H. Qed.

(** C8.  When the debt status read from the namespace is none of the three
    known values, [Reconcile] issues exactly two requests: the read of the
    namespace and one update of it.  The object sent differs from the one
    read in the debt status annotation only, which is now [Normal].  No pod
    and no quota is read or written, and the stored pods and quotas are
    unchanged.  When the update is accepted the stored namespace object is
    replaced by the one sent and [nil] is returned; when it is refused the
    namespace objects stay as they were and the error is returned. *)
Theorem Reconcile_unrecognized_status_normalizes
    (v1 : ApiV1) (E : Env) (req : Request) (w : World)
    (ns : NamespaceObj) (status : string) :
  fault E (trace w) (GetNamespace (ReqName req)) = None ->
  find (named (ReqName req)) (namespaces w) = Some ns ->
  anno_lookup (DebtNamespaceAnnoStatusKey v1) (Annotations (NsMeta ns))
  = Some status ->
  status <> NormalDebtNamespaceAnnoStatus v1 ->
  status <> SuspendDebtNamespaceAnnoStatus v1 ->
  status <> ResumeDebtNamespaceAnnoStatus v1 ->
  let ns' := set_debt_status v1 (NormalDebtNamespaceAnnoStatus v1) ns in
  let o := Reconcile v1 E req w in
  trace (final o)
  = trace w ++ [Issued (GetNamespace (ReqName req)); Issued (UpdateNamespace ns')]
  /\ pods (final o) = pods w
  /\ quotas (final o) = quotas w
  /\ (anno_lookup (DebtNamespaceAnnoStatusKey v1) (Annotations (NsMeta ns'))
      = Some (NormalDebtNamespaceAnnoStatus v1)
      /\ (forall k, k <> DebtNamespaceAnnoStatusKey v1 ->
            anno_lookup k (Annotations (NsMeta ns'))
            = anno_lookup k (Annotations (NsMeta ns)))
      /\ NsLabels ns' = NsLabels ns
      /\ set_Annotations (Annotations (NsMeta ns)) (NsMeta ns') = NsMeta ns)
  /\ match fault E (trace w ++ [Issued (GetNamespace (ReqName req))])
             (UpdateNamespace ns') with
     | Some e =>
         o = Returns (Result_zero, Some e) (final o)
         /\ namespaces (final o) = namespaces w
     | None =>
         o = Returns (Result_zero, None) (final o)
         /\ namespaces (final o)
            = map (fun n => if named (ReqName req) n then ns' else n) (namespaces w)
     end.
Proof.
  intros Hf Hns Hst Hn Hs Hr ns' o.
  assert (Name (NsMeta ns') = ReqName req) as Hname.
  { apply find_named in Hns. exact Hns. }
  assert (o = match fault E (trace w ++ [Issued (GetNamespace (ReqName req))])
                      (UpdateNamespace ns') with
              | Some e =>
                  Returns (Result_zero, Some e)
                    (record (Issued (UpdateNamespace ns'))
                       (record (Issued (GetNamespace (ReqName req))) w))
              | None =>
                  Returns (Result_zero, None)
                    (set_namespaces
                       (map (fun n => if named (ReqName req) n then ns' else n)
                          (namespaces w))
                       (record (Issued (UpdateNamespace ns'))
                          (record (Issued (GetNamespace (ReqName req))) w)))
              end) as Ho.
  { unfold o, Reconcile, Client_Get_Namespace, Client_Update_Namespace,
      issue, bind, ret.
    rewrite Hf. cbn [namespaces record]. rewrite Hns, Hst.
    rewrite !bool_decide_eq_false_2 by done.
    fold ns'. cbn [trace record]. rewrite Hname.
    destruct (fault E _ (UpdateNamespace ns')); [reflexivity|].
    cbn [namespaces record]. by rewrite Hns. }
  split; [|split; [|split; [|split]]].
  - rewrite Ho. destruct (fault E _ (UpdateNamespace ns')); cbn;
      by rewrite <- app_assoc.
  - rewrite Ho. by destruct (fault E _ (UpdateNamespace ns')).
  - rewrite Ho. by destruct (fault E _ (UpdateNamespace ns')).
  - unfold ns', set_debt_status. cbn.
    destruct (Annotations (NsMeta ns)) as [m|] eqn:Ha; [|discriminate].
    cbn. split; [apply lookup_insert_eq|]. split; [|split; [done|]].
    + intros k Hk. by apply lookup_insert_ne.
    + unfold set_Annotations. cbn. rewrite <- Ha. by destruct (NsMeta ns).
  - rewrite Ho. by destruct (fault E _ (UpdateNamespace ns')).
Qed.

(** The namespace marked ["garbage"] is marked [Normal] after one pass, and
    nothing else happened. *)
Lemma Reconcile_unrecognized_status_witness :
  let w := cluster "garbage" [pod_A; pod_B] in
  exists w',
    Reconcile example_v1 parking_cluster tenant_request w
    = Returns (Result_zero, None) w'
    /\ namespaces w' = [tenant "Normal"]
    /\ pods w' = pods w /\ quotas w' = quotas w
    /\ trace w' = [Issued (GetNamespace "tenant");
                   Issued (UpdateNamespace (tenant "Normal"))].
Proof.
  intros w.
  destruct (Reconcile_unrecognized_status_normalizes example_v1 parking_cluster
              tenant_request w (tenant "garbage") "garbage")
    as (Ht & Hp & Hq & _ & Ho & Hn);
    [reflexivity|reflexivity|reflexivity|discriminate|discriminate|discriminate|].
  exists (final (Reconcile example_v1 parking_cluster tenant_request w)).
  split; [exact Ho|]. split; [rewrite Hn; vm_compute; reflexivity|].
  split; [exact Hp|]. split; [exact Hq|]. rewrite Ht. vm_compute. reflexivity.
Defined.

Lemma In_pods_in p ns w :
  In p (pods_in ns w) -> In p (pods w) /\ Namespace (PodMeta p) = ns.
Proof.
  unfold pods_in. intros [Hin Hns]%filter_In. split; [done|].
  by apply bool_decide_eq_true in Hns.
Qed.

(** C9.  Every pod that [suspendOrphanPod], respectively [resumePod],
    submits for creation is the clone of a pod [pod] of the store, with the
    name and namespace of [pod], no node, the zero status, no resource
    version, and as scheduler the reserved one when suspending, the one
    recorded in the previous-scheduler annotation of [pod] (empty when there
    is none) when resuming. *)
Theorem recreate_clones_keep_identity_clear_placement
    (v1 : ApiV1) (E : Env) (namespace : string) (w : World) :
  (exists t,
     trace (final (suspendOrphanPod v1 E namespace w)) = trace w ++ t /\
     forall q, In q (creates t) ->
       exists pod, In pod (pods w) /\ q = suspend_clone v1 pod /\
         Name (PodMeta q) = Name (PodMeta pod) /\
         Namespace (PodMeta q) = Namespace (PodMeta pod) /\
         NodeName (Spec q) = "" /\
         Status q = PodStatus_zero /\
         ResourceVersion (PodMeta q) = "" /\
         SchedulerName (Spec q) = DebtSchedulerName v1)
  /\
  (exists t,
     trace (final (resumePod v1 E namespace w)) = trace w ++ t /\
     forall q, In q (creates t) ->
       exists pod, In pod (pods w) /\ q = resume_clone v1 pod /\
         Name (PodMeta q) = Name (PodMeta pod) /\
         Namespace (PodMeta q) = Namespace (PodMeta pod) /\
         NodeName (Spec q) = "" /\
         Status q = PodStatus_zero /\
         ResourceVersion (PodMeta q) = "" /\
         SchedulerName (Spec q)
         = default "" (anno_lookup (PreviousSchedulerName v1)
                         (Annotations (PodMeta pod)))).
Proof.
  split.
  - destruct (suspendOrphanPod_creates v1 E namespace w) as (t & Ht & Hq).
    exists t. split; [exact Ht|]. intros q (pod & Hin & _ & ->)%Hq.
    apply In_pods_in in Hin as [Hin _]. exists pod.
    destruct (suspend_clone_fields v1 pod) as (? & ? & ? & ? & ? & ? & ?).
    repeat split; assumption.
  - destruct (resumePod_creates v1 E namespace w) as (t & Ht & Hq).
    exists t. split; [exact Ht|]. intros q (pod & Hin & _ & _ & ->)%Hq.
    apply In_pods_in in Hin as [Hin _]. exists pod.
    destruct (resume_clone_fields v1 pod) as (? & ? & ? & ? & ? & ? & ? & _).
    repeat split; assumption.
Qed.

(** C10.  Every pod that [suspendOrphanPod] submits for creation carries
    the previous-scheduler annotation, holding the scheduler of the pod it
    replaces, whatever that scheduler is, the empty one included.  So when
    [resumePod] clones such a parked pod, whatever status the platform
    reports for it, the lookup of line 251 succeeds: the clone gets the
    original scheduler back and loses the annotation. *)
Theorem parked_pods_carry_previous_scheduler
    (v1 : ApiV1) (E : Env) (namespace : string) (w : World) :
  exists t,
    trace (final (suspendOrphanPod v1 E namespace w)) = trace w ++ t /\
    forall q, In q (creates t) ->
      exists pod, In pod (pods w) /\ q = suspend_clone v1 pod /\
        anno_lookup (PreviousSchedulerName v1) (Annotations (PodMeta q))
        = Some (SchedulerName (Spec pod)) /\
        forall status : PodStatus,
          let parked := set_Status status q in
          SchedulerName (Spec (resume_clone v1 parked)) = SchedulerName (Spec pod)
          /\ anno_lookup (PreviousSchedulerName v1)
               (Annotations (PodMeta (resume_clone v1 parked))) = None.
Proof.
  destruct (suspendOrphanPod_creates v1 E namespace w) as (t & Ht & Hq).
  exists t. split; [exact Ht|]. intros q (pod & Hin & _ & ->)%Hq.
  apply In_pods_in in Hin as [Hin _]. exists pod.
  split; [done|]. split; [done|]. split; [apply suspend_clone_previous|].
  intros status parked.
  destruct (resume_clone_fields v1 parked) as (_ & _ & _ & _ & _ & _ & Hs & Ha & _).
  split; [|exact Ha]. rewrite Hs. unfold parked. cbn [PodMeta set_Status].
  by rewrite suspend_clone_previous.
Qed.

Lemma keeps_ResumeUserResource v1 E ns :
  keeps no_namespace_update (ResumeUserResource v1 E ns).
Proof.
  unfold ResumeUserResource, run_pipelines.
  apply keeps_bind.
  { unfold limitResourceQuotaDelete. apply keeps_bind; [|intros; apply keeps_ret].
    apply keeps_Delete_Quota. by intros n. }
  intros [e|]; [apply keeps_ret|].
  apply keeps_bind; [|intros [e|]; apply keeps_ret].
  intros w. destruct (resumePod_acts v1 E ns w) as (t & Ht & HP & Hn).
  split; [done|]. exists (Issued (ListPods ns) :: t). split; [done|].
  constructor; [by intros n|].
  eapply Forall_impl; [exact HP|].
  intros a (p & _ & Ha) n ->. destruct (unmanaged p); [done|discriminate].
Qed.

(** C6.  When the debt status read is the resume request, [Reconcile] runs
    the resume pipeline, which itself never requests the update of a
    namespace object and leaves the namespace objects as they are.  If the
    pipeline returns an error, [Reconcile] returns that error in the world
    the pipeline left: the debt status is not written.  If the pipeline
    never returns, neither does [Reconcile].  If it returns [nil], the next
    and last request is the update of the namespace with debt status
    [Normal]; when the update is accepted the stored object is replaced and
    [nil] is returned, when it is refused its error is returned. *)
Theorem Reconcile_resume_marks_normal_only_on_success
    (v1 : ApiV1) (E : Env) (req : Request) (w : World) (ns : NamespaceObj) :
  fault E (trace w) (GetNamespace (ReqName req)) = None ->
  find (named (ReqName req)) (namespaces w) = Some ns ->
  anno_lookup (DebtNamespaceAnnoStatusKey v1) (Annotations (NsMeta ns))
  = Some (ResumeDebtNamespaceAnnoStatus v1) ->
  ResumeDebtNamespaceAnnoStatus v1 <> SuspendDebtNamespaceAnnoStatus v1 ->
  let ns' := set_debt_status v1 (NormalDebtNamespaceAnnoStatus v1) ns in
  let w1 := record (Issued (GetNamespace (ReqName req))) w in
  let resumed := ResumeUserResource v1 E (ReqName req) w1 in
  let o := Reconcile v1 E req w in
  (namespaces (final resumed) = namespaces w /\
   exists t, trace (final resumed) = trace w1 ++ t
             /\ Forall no_namespace_update t) /\
  anno_lookup (DebtNamespaceAnnoStatusKey v1) (Annotations (NsMeta ns'))
  = Some (NormalDebtNamespaceAnnoStatus v1) /\
  match resumed with
  | Returns (Some e) w2 => o = Returns (Result_zero, Some e) w2
  | Hangs w2 => o = Hangs w2
  | Returns None w2 =>
      trace (final o) = trace w2 ++ [Issued (UpdateNamespace ns')] /\
      match fault E (trace w2) (UpdateNamespace ns') with
      | Some e =>
          o = Returns (Result_zero, Some e) (final o)
          /\ namespaces (final o) = namespaces w
      | None =>
          o = Returns (Result_zero, None) (final o)
          /\ namespaces (final o)
             = map (fun n => if named (ReqName req) n then ns' else n)
                 (namespaces w)
      end
  end.
Proof.
  intros Hf Hns Hst Hdist ns' w1 resumed o.
  assert (Name (NsMeta ns') = ReqName req) as Hname.
  { apply find_named in Hns. exact Hns. }
  destruct (keeps_ResumeUserResource v1 E (ReqName req) w1) as [Hkeep Hquiet].
  fold resumed in Hkeep, Hquiet.
  split; [split; [exact Hkeep|exact Hquiet]|].
  split.
  { unfold ns', set_debt_status. cbn.
    destruct (Annotations (NsMeta ns)); cbn; apply lookup_insert_eq. }
  assert (o = match resumed with
              | Returns (Some e) w2 => Returns (Result_zero, Some e) w2
              | Returns None w2 =>
                  match Client_Update_Namespace E ns' w2 with
                  | Returns (Some e) w3 => Returns (Result_zero, Some e) w3
                  | Returns None w3 => Returns (Result_zero, None) w3
                  | Hangs w3 => Hangs w3
                  end
              | Hangs w2 => Hangs w2
              end) as Ho.
  { unfold o, Reconcile, Client_Get_Namespace, issue, bind, ret.
    rewrite Hf. cbn [namespaces record]. rewrite Hns, Hst.
    rewrite bool_decide_eq_false_2 by done.
    rewrite bool_decide_eq_true_2 by done.
    fold w1. fold resumed. fold ns'.
    destruct resumed as [[e|] w2|w2]; [reflexivity| |reflexivity].
    by destruct (Client_Update_Namespace E ns' w2) as [[e|] w3|w3]. }
  rewrite Ho. destruct resumed as [[e|] w2|w2]; [done| |done].
  simpl in Hkeep.
  unfold Client_Update_Namespace, issue, bind, ret. rewrite Hname.
  destruct (fault E (trace w2) (UpdateNamespace ns')); cbn.
  - done.
  - rewrite Hkeep, Hns. cbn. done.
Qed.

(** A parked pod in the suspended phase is resumed and the namespace is
    marked [Normal]. *)
Lemma Reconcile_resume_witness :
  let w := cluster "ResumeRequested"
             [example_pod "a" "sealos-debt-scheduler" "Suspended"
                (Some {[ "sealos.io/previous-scheduler" := "default" ]}) []] in
  exists w',
    Reconcile example_v1 parking_cluster tenant_request w
    = Returns (Result_zero, None) w'
    /\ namespaces w' = [tenant "Normal"]
    /\ map (fun p => SchedulerName (Spec p)) (pods w') = ["default"].
Proof.
  intros w.
  pose proof (Reconcile_resume_marks_normal_only_on_success example_v1
                parking_cluster tenant_request w (tenant "ResumeRequested")
                eq_refl eq_refl eq_refl ltac:(discriminate)) as H.
  destruct H as (_ & _ & H).
  set (r := ResumeUserResource example_v1 parking_cluster
              (ReqName tenant_request)
              (record (Issued (GetNamespace (ReqName tenant_request))) w)) in H.
  assert (r = Returns None (final r)) as Hr by (vm_compute; reflexivity).
  rewrite Hr in H. destruct H as (_ & Ho & _).
  exists (final (Reconcile example_v1 parking_cluster tenant_request w)).
  split; [exact Ho|]. split; vm_compute; reflexivity.
Defined.

Section Reliable.

Variable v1 : ApiV1.
Variable E : Env.
Hypothesis Hrel : reliable E.

Lemma deletes_app t1 t2 : deletes (t1 ++ t2) = deletes t1 ++ deletes t2.
Proof. apply omap_app. Qed.
Lemma creates_app t1 t2 : creates (t1 ++ t2) = creates t1 ++ creates t2.
Proof. apply omap_app. Qed.

Lemma same_pod_refl p : same_pod p p = true.
Proof. unfold same_pod. by apply bool_decide_eq_true. Qed.

Lemma Client_List_Pods_reliable ns w :
  Client_List_Pods E ns w
  = Returns (inl (pods_in ns w)) (record (Issued (ListPods ns)) w).
Proof. unfold Client_List_Pods, issue, bind, ret. by rewrite Hrel. Qed.

Lemma Client_Delete_Pod_reliable p w :
  existsb (same_pod p) (pods w) = true ->
  Client_Delete_Pod E p w
  = Returns None
      (set_pods (List.filter (fun q => negb (same_pod p q)) (pods w))
         (record (Issued (DeletePod p)) w)).
Proof.
  intros Hex. unfold Client_Delete_Pod, issue, bind, ret. rewrite Hrel.
  cbn [pods record]. by rewrite Hex.
Qed.

Lemma range_events_reliable oldPod newPod evs fin w :
  existsb (is_deletion_of oldPod) evs = true ->
  ResourceVersion (PodMeta newPod) = "" ->
  existsb (same_pod newPod) (pods w) = false ->
  exists w' t,
    range_events E oldPod newPod evs fin w = Returns None w'
    /\ pods w' = pods w ++ [set_Status (platform_status E newPod) newPod]
    /\ quotas w' = quotas w /\ namespaces w' = namespaces w
    /\ trace w' = trace w ++ t /\ deletes t = [] /\ creates t = [newPod].
Proof.
  intros Hex Hrv Hfree. revert w Hfree.
  induction evs as [|ev rest IH]; intros w Hfree; [discriminate|].
  simpl in *. destruct (is_deletion_of oldPod ev) eqn:Hm.
  - unfold Client_Create_Pod, Stop, issue, bind, ret. rewrite Hrel.
    cbn [pods record]. rewrite Hrv, Hfree.
    rewrite bool_decide_eq_true_2 by reflexivity. cbn [negb].
    eexists _, [Received ev; Issued (CreatePod newPod); Stopped].
    split; [reflexivity|]. cbn. rewrite <- !app_assoc. done.
  - destruct (IH Hex (record (Received ev) w) Hfree)
      as (w' & t & Hrun & Hp & Hq & Hn & Ht & Hd & Hc).
    exists w', (Received ev :: t). rewrite Hrun, Ht. cbn.
    rewrite <- app_assoc. done.
Qed.

Lemma recreatePod_reliable oldPod newPod w :
  prompt E ->
  existsb (same_pod oldPod) (pods w) = true ->
  ResourceVersion (PodMeta newPod) = "" ->
  existsb (same_pod newPod)
    (List.filter (fun q => negb (same_pod oldPod q)) (pods w)) = false ->
  exists w' t,
    recreatePod E oldPod newPod w = Returns None w'
    /\ pods w' = List.filter (fun q => negb (same_pod oldPod q)) (pods w)
                 ++ [set_Status (platform_status E newPod) newPod]
    /\ quotas w' = quotas w /\ namespaces w' = namespaces w
    /\ trace w' = trace w ++ t /\ deletes t = [oldPod] /\ creates t = [newPod].
Proof.
  intros Hp Hex Hrv Hfree.
  unfold recreatePod, Client_Watch, ResultChan, bind, ret. rewrite issue_run, Hrel.
  rewrite Client_Delete_Pod_reliable by exact Hex.
  set (w1 := set_pods _ _).
  destruct (range_events_reliable oldPod newPod (delivered (feed E (trace w1)))
              (ending (feed E (trace w1))) w1)
    as (w' & t & Hrun & Hpods & Hq & Hn & Ht & Hd & Hc);
    [unfold w1; cbn [trace set_pods record]; apply Hp|exact Hrv|exact Hfree|].
  exists w', (Issued WatchPods :: Issued (DeletePod oldPod) :: t).
  split; [exact Hrun|]. split; [exact Hpods|]. split; [exact Hq|].
  split; [exact Hn|].
  split; [rewrite Ht; unfold w1; cbn [trace set_pods record];
          by rewrite <- !app_assoc|].
  split.
  - change (deletes (Issued WatchPods :: Issued (DeletePod oldPod) :: t))
      with (oldPod :: deletes t). by rewrite Hd.
  - change (creates (Issued WatchPods :: Issued (DeletePod oldPod) :: t))
      with (creates t). done.
Qed.

Lemma find_filter_neg {A} (f : A -> bool) l :
  find f (List.filter (fun x => negb (f x)) l) = None.
Proof.
  induction l as [|a l IH]; simpl; [done|].
  destruct (f a) eqn:Hf; simpl; [done|]. by rewrite Hf.
Qed.

Lemma limitResourceQuotaCreate_reliable ns w :
  exists w' t,
    limitResourceQuotaCreate E ns w = Returns None w'
    /\ pods w' = pods w /\ namespaces w' = namespaces w
    /\ trace w' = trace w ++ t /\ deletes t = [] /\ creates t = [].
Proof.
  rewrite limitResourceQuotaCreate_eq. cbn zeta. rewrite Hrel.
  destruct (find (has_key (ns, "debt-limit0")) (quotas w)) eqn:Hq.
  - eexists _, [_]. split; [reflexivity|]. done.
  - unfold create_limit0. rewrite Hrel. cbn [quotas record]. rewrite Hq.
    eexists _, [_; _]. split; [reflexivity|]. cbn. by rewrite <- app_assoc.
Qed.

Lemma limitResourceQuotaDelete_reliable ns w :
  exists w' t,
    limitResourceQuotaDelete E ns w = Returns None w'
    /\ find (has_key (ns, "debt-limit0")) (quotas w') = None
    /\ pods w' = pods w /\ namespaces w' = namespaces w
    /\ trace w' = trace w ++ t /\ deletes t = [] /\ creates t = [].
Proof.
  rewrite limitResourceQuotaDelete_eq. cbn zeta. rewrite Hrel.
  destruct (find (has_key (ns, "debt-limit0")) (quotas w)) eqn:Hq.
  - eexists _, [_]. split; [reflexivity|]. cbn. split; [|done].
    apply find_filter_neg.
  - eexists _, [_]. split; [reflexivity|]. done.
Qed.

End Reliable.

Lemma bind_Returns {A B} (m : M A) (k : A -> M B) w a w' :
  m w = Returns a w' -> bind m k w = k a w'.
Proof. intros H. unfold bind. by rewrite H. Qed.

Lemma same_pod_other p q :
  Name (PodMeta p) <> Name (PodMeta q) -> same_pod p q = false.
Proof. intros H. unfold same_pod. apply bool_decide_eq_false. by intros [_ ?]. Qed.

Section Scenario.

Variable v1 : ApiV1.
Variable E : Env.
Hypothesis Hrel : reliable E.
Hypothesis Hprompt : prompt E.
Variable ns : string.

(** Suspending a namespace that holds one unmanaged pod [A] and one managed
    pod [B], neither of them under the reserved scheduler. *)
Lemma suspend_scenario (A B : Pod) (w : World) :
  Namespace (PodMeta A) = ns -> Namespace (PodMeta B) = ns ->
  Name (PodMeta A) <> Name (PodMeta B) ->
  OwnerReferences (PodMeta A) = [] ->
  SchedulerName (Spec A) <> DebtSchedulerName v1 ->
  OwnerReferences (PodMeta B) <> [] ->
  SchedulerName (Spec B) <> DebtSchedulerName v1 ->
  pods w = [A; B] \/ pods w = [B; A] ->
  let parked := suspend_clone v1 A in
  exists w1 t1,
    SuspendUserResource v1 E ns w = Returns None w1
    /\ pods w1 = [set_Status (platform_status E parked) parked]
    /\ namespaces w1 = namespaces w
    /\ trace w1 = trace w ++ t1
    /\ deletes t1 = [A; B] /\ creates t1 = [parked].
Proof.
  intros HnsA HnsB Hdiff HownA HschA HownB HschB Hpods. cbv zeta.
  pose proof (suspend_clone_fields v1 A) as Hf. cbv zeta in Hf.
  remember (suspend_clone v1 A) as parked eqn:Hparked.
  destruct Hf as (HcN & HcNs & HcO & HcRv & _ & _ & HcS).
  set (A' := set_Status (platform_status E parked) parked).
  assert (in_namespace ns A = true) as HinA by by apply bool_decide_eq_true.
  assert (in_namespace ns B = true) as HinB by by apply bool_decide_eq_true.
  assert (in_namespace ns A' = true) as HinA'.
  { apply bool_decide_eq_true. cbn [A' PodMeta set_Status]. congruence. }
  assert (same_pod A B = false) as HAB by by apply same_pod_other.
  assert (same_pod B A = false) as HBA by by apply same_pod_other.
  assert (same_pod parked B = false) as HpB.
  { apply same_pod_other. congruence. }
  assert (same_pod B A' = false) as HBA'.
  { apply same_pod_other. cbn [A' PodMeta set_Status]. congruence. }
  assert (suspend_skips v1 A = false) as HskA.
  { unfold suspend_skips. rewrite HownA.
    by rewrite !bool_decide_eq_false_2 by (cbn; first [done|lia]). }
  assert (suspend_skips v1 B = true) as HskB.
  { unfold suspend_skips. apply orb_true_iff. right.
    apply bool_decide_eq_true. destruct (OwnerReferences (PodMeta B)); [done|].
    simpl. lia. }
  assert (delete_skips v1 B = false) as HdkB.
  { unfold delete_skips. apply orb_false_iff. split.
    - by apply bool_decide_eq_false.
    - apply bool_decide_eq_false. by destruct (OwnerReferences (PodMeta B)). }
  assert (delete_skips v1 A' = true) as HdkA'.
  { unfold delete_skips. apply orb_true_iff. left.
    apply bool_decide_eq_true. exact HcS. }
  (* parking the unmanaged pod *)
  set (w0 := record (Issued (ListPods ns)) w).
  destruct (recreatePod_reliable E Hrel A parked w0 Hprompt)
    as (wa & ta & Hrun & Hpa & Hqa & Hna & Hta & Hda & Hca).
  { unfold w0. cbn. destruct Hpods as [Hpods|Hpods]; rewrite Hpods; cbn;
      rewrite same_pod_refl; [done|apply orb_true_r]. }
  { exact HcRv. }
  { unfold w0. cbn. destruct Hpods as [Hpods|Hpods]; rewrite Hpods; cbn;
      rewrite same_pod_refl, HAB; cbn; by rewrite HpB. }
  assert (pods wa = [B; A']) as Hpa'.
  { rewrite Hpa. unfold w0. cbn. destruct Hpods as [Hpods|Hpods]; rewrite Hpods;
      cbn; by rewrite same_pod_refl, HAB. }
  assert (suspendOrphanPod v1 E ns w = Returns None wa) as Hone.
  { unfold suspendOrphanPod.
    erewrite bind_Returns by apply (Client_List_Pods_reliable E Hrel).
    unfold pods_in.
    destruct Hpods as [Hpods|Hpods]; rewrite Hpods; cbn [List.filter];
      rewrite HinA, HinB; cbn [suspendOrphanPod_items];
      rewrite HskA, HskB, <- Hparked; fold w0;
      erewrite bind_Returns by exact Hrun; reflexivity. }
  (* the quota *)
  destruct (limitResourceQuotaCreate_reliable E Hrel ns wa)
    as (wb & tb & Htwo & Hpb & Hnb & Htb & Hdb & Hcb).
  (* deleting the managed pod *)
  assert (deleteControlledPod v1 E ns wb
          = Returns None
              (set_pods [A'] (record (Issued (DeletePod B))
                                (record (Issued (ListPods ns)) wb)))) as Hthree.
  { unfold deleteControlledPod.
    erewrite bind_Returns by apply (Client_List_Pods_reliable E Hrel).
    unfold pods_in. rewrite Hpb, Hpa'. cbn [List.filter]. rewrite HinA', HinB.
    cbn [deleteControlledPod_items]. rewrite HdkB, HdkA'.
    pose proof (Client_Delete_Pod_reliable E Hrel B
                  (record (Issued (ListPods ns)) wb)) as Hdel.
    cbn [pods record] in Hdel. rewrite Hpb, Hpa' in Hdel.
    cbn [existsb List.filter] in Hdel.
    rewrite same_pod_refl, HBA' in Hdel. cbn [negb orb] in Hdel.
    erewrite bind_Returns by (apply Hdel; reflexivity). reflexivity. }
  eexists _, (Issued (ListPods ns) :: ta ++ tb
              ++ [Issued (ListPods ns); Issued (DeletePod B)]).
  split.
  { unfold SuspendUserResource, run_pipelines.
    erewrite bind_Returns by exact Hone. cbv beta iota.
    erewrite bind_Returns by exact Htwo. cbv beta iota.
    erewrite bind_Returns by exact Hthree. reflexivity. }
  split; [reflexivity|].
  split; [cbn; by rewrite Hnb, Hna|].
  split.
  { cbn. rewrite Htb, Hta. unfold w0. cbn. by rewrite <- !app_assoc. }
  split.
  - change (deletes (Issued (ListPods ns) :: ta ++ tb
                     ++ [Issued (ListPods ns); Issued (DeletePod B)]))
      with (deletes (ta ++ tb ++ [Issued (ListPods ns); Issued (DeletePod B)])).
    by rewrite !deletes_app, Hda, Hdb.
  - change (creates (Issued (ListPods ns) :: ta ++ tb
                     ++ [Issued (ListPods ns); Issued (DeletePod B)]))
      with (creates (ta ++ tb ++ [Issued (ListPods ns); Issued (DeletePod B)])).
    by rewrite !creates_app, Hca, Hcb.
Qed.

(** Resuming a namespace that holds one unmanaged pod parked under the
    reserved scheduler and reported in the suspended phase. *)
Lemma resume_scenario (P : Pod) (w : World) :
  Namespace (PodMeta P) = ns ->
  OwnerReferences (PodMeta P) = [] ->
  SchedulerName (Spec P) = DebtSchedulerName v1 ->
  Phase (Status P) = PodPhaseSuspended v1 ->
  pods w = [P] ->
  let restored := resume_clone v1 P in
  exists w2 t2,
    ResumeUserResource v1 E ns w = Returns None w2
    /\ pods w2 = [set_Status (platform_status E restored) restored]
    /\ find (has_key (ns, "debt-limit0")) (quotas w2) = None
    /\ namespaces w2 = namespaces w
    /\ trace w2 = trace w ++ t2
    /\ deletes t2 = [P] /\ creates t2 = [restored].
Proof.
  intros HnsP HownP HschP HphP Hpods. cbv zeta.
  pose proof (resume_clone_fields v1 P) as Hf. cbv zeta in Hf.
  remember (resume_clone v1 P) as restored eqn:Hrestored.
  destruct Hf as (HcN & HcNs & HcO & HcRv & _).
  assert (in_namespace ns P = true) as HinP by by apply bool_decide_eq_true.
  assert (resume_skips v1 P = false) as Hsk.
  { unfold resume_skips. by rewrite !bool_decide_eq_true_2 by done. }
  destruct (limitResourceQuotaDelete_reliable E Hrel ns w)
    as (wa & ta & Hone & Hqa & Hpa & Hna & Hta & Hda & Hca).
  set (w0 := record (Issued (ListPods ns)) wa).
  destruct (recreatePod_reliable E Hrel P restored w0 Hprompt)
    as (wb & tb & Hrun & Hpb & Hqb & Hnb & Htb & Hdb & Hcb).
  { unfold w0. cbn. rewrite Hpa, Hpods. cbn. by rewrite same_pod_refl. }
  { exact HcRv. }
  { unfold w0. cbn. rewrite Hpa, Hpods. cbn. by rewrite same_pod_refl. }
  assert (resumePod v1 E ns wa = Returns None wb) as Htwo.
  { unfold resumePod.
    erewrite bind_Returns by apply (Client_List_Pods_reliable E Hrel).
    unfold pods_in. rewrite Hpa, Hpods. cbn [List.filter]. rewrite HinP.
    cbn [resumePod_items]. rewrite Hsk, HownP.
    rewrite bool_decide_eq_false_2 by (cbn; lia). rewrite <- Hrestored.
    fold w0. erewrite bind_Returns by exact Hrun. reflexivity. }
  exists wb, (ta ++ Issued (ListPods ns) :: tb).
  split.
  { unfold ResumeUserResource, run_pipelines.
    erewrite bind_Returns by exact Hone. cbv beta iota.
    erewrite bind_Returns by exact Htwo. reflexivity. }
  split.
  { rewrite Hpb. unfold w0. cbn. rewrite Hpa, Hpods. cbn.
    by rewrite same_pod_refl. }
  split; [rewrite Hqb; exact Hqa|].
  split; [rewrite Hnb; exact Hna|].
  split.
  { rewrite Htb. unfold w0. cbn. rewrite Hta. by rewrite <- !app_assoc. }
  split.
  - rewrite deletes_app.
    change (deletes (Issued (ListPods ns) :: tb)) with (deletes tb).
    by rewrite Hda, Hdb.
  - rewrite creates_app.
    change (creates (Issued (ListPods ns) :: tb)) with (creates tb).
    by rewrite Hca, Hcb.
Qed.

End Scenario.

Lemma find_map_named name (f : NamespaceObj -> NamespaceObj) l :
  (forall n, named name n = true -> named name (f n) = true) ->
  find (named name) (map (fun n => if named name n then f n else n) l)
  = f <$> find (named name) l.
Proof.
  intros Hf. induction l as [|n l IH]; simpl; [done|].
  destruct (named name n) eqn:Hn.
  - by rewrite Hf.
  - by rewrite Hn.
Qed.

Lemma debt_status_set v1 value ns :
  anno_lookup (DebtNamespaceAnnoStatusKey v1)
    (Annotations (NsMeta (set_debt_status v1 value ns))) = Some value.
Proof.
  unfold set_debt_status. cbn.
  destruct (Annotations (NsMeta ns)); cbn; apply lookup_insert_eq.
Qed.

(** C3, amended.  A namespace holds an unmanaged pod [A] scheduled by
    ["default"] and a managed pod [B] not under the reserved scheduler, and
    is marked for suspension.  The API server fails no request, every
    subscription delivers the awaited deletion, and the platform reports the
    parked clone of [A] in the suspended phase.  Then the first pass of
    [Reconcile] succeeds: it deletes [A] and [B], creates the parked clone
    of [A], and leaves that clone as the only pod.  Once the namespace is
    marked for resumption, the second pass succeeds too: it deletes the
    parked pod and creates its restored clone, which is then the only pod;
    it has the name of [A], scheduler ["default"] and no previous-scheduler
    annotation; the zero-limit quota record is absent and the debt status
    is [Normal]. *)
Theorem suspend_resume_round_trip
    (v1 : ApiV1) (E : Env) (req : Request) (w : World)
    (tenant_ns : NamespaceObj) (A B : Pod) :
  SuspendDebtNamespaceAnnoStatus v1 <> ResumeDebtNamespaceAnnoStatus v1 ->
  DebtSchedulerName v1 <> "default" ->
  reliable E -> prompt E ->
  Phase (platform_status E (suspend_clone v1 A)) = PodPhaseSuspended v1 ->
  find (named (ReqName req)) (namespaces w) = Some tenant_ns ->
  anno_lookup (DebtNamespaceAnnoStatusKey v1) (Annotations (NsMeta tenant_ns))
  = Some (SuspendDebtNamespaceAnnoStatus v1) ->
  pods w = [A; B] \/ pods w = [B; A] ->
  Namespace (PodMeta A) = ReqName req ->
  Namespace (PodMeta B) = ReqName req ->
  Name (PodMeta A) <> Name (PodMeta B) ->
  OwnerReferences (PodMeta A) = [] ->
  SchedulerName (Spec A) = "default" ->
  OwnerReferences (PodMeta B) <> [] ->
  SchedulerName (Spec B) <> DebtSchedulerName v1 ->
  let parked := suspend_clone v1 A in
  let A1 := set_Status (platform_status E parked) parked in
  let restored := resume_clone v1 A1 in
  let A2 := set_Status (platform_status E restored) restored in
  exists w1 t1 w2 t2,
    (Reconcile v1 E req w = Returns (Result_zero, None) w1 /\
     trace w1 = trace w ++ t1 /\
     deletes t1 = [A; B] /\ creates t1 = [parked] /\ pods w1 = [A1]) /\
    (Reconcile v1 E req
       (request_status v1 (ReqName req) (ResumeDebtNamespaceAnnoStatus v1) w1)
     = Returns (Result_zero, None) w2 /\
     trace w2 = trace w1 ++ t2 /\
     deletes t2 = [A1] /\ creates t2 = [restored] /\ pods w2 = [A2]) /\
    (Name (PodMeta A2) = Name (PodMeta A) /\
     SchedulerName (Spec A2) = "default" /\
     anno_lookup (PreviousSchedulerName v1) (Annotations (PodMeta A2)) = None) /\
    find (has_key (ReqName req, "debt-limit0")) (quotas w2) = None /\
    exists final_ns,
      find (named (ReqName req)) (namespaces w2) = Some final_ns /\
      anno_lookup (DebtNamespaceAnnoStatusKey v1) (Annotations (NsMeta final_ns))
      = Some (NormalDebtNamespaceAnnoStatus v1).
Proof.
  intros Hdist Hdef Hrel Hprompt Hphase Hns Hst Hpods HnsA HnsB Hdiff HownA HschA
    HownB HschB. cbv zeta.
  assert (SchedulerName (Spec A) <> DebtSchedulerName v1) as HschA' by congruence.
  pose proof (suspend_clone_fields v1 A) as Hf. cbv zeta in Hf.
  pose proof (suspend_clone_previous v1 A) as Hprev.
  remember (suspend_clone v1 A) as parked eqn:Hparked.
  destruct Hf as (HcN & HcNs & HcO & _ & _ & _ & HcS).
  set (A1 := set_Status (platform_status E parked) parked).
  pose proof (resume_clone_fields v1 A1) as Hg. cbv zeta in Hg.
  remember (resume_clone v1 A1) as restored eqn:Hrestored.
  destruct Hg as (HrN & _ & _ & _ & _ & _ & HrS & HrA & _).
  (* the first pass: suspend *)
  set (wg := record (Issued (GetNamespace (ReqName req))) w).
  destruct (suspend_scenario v1 E Hrel Hprompt (ReqName req) A B wg)
    as (w1 & t1 & Hsus & Hp1 & Hn1 & Ht1 & Hd1 & Hc1); try assumption.
  rewrite <- Hparked in Hp1, Hc1. fold A1 in Hp1.
  assert (Reconcile v1 E req w = Returns (Result_zero, None) w1) as Hfirst.
  { unfold Reconcile, Client_Get_Namespace, issue, bind, ret.
    rewrite Hrel. cbn [namespaces record]. rewrite Hns, Hst.
    rewrite bool_decide_eq_true_2 by done. fold wg. by rewrite Hsus. }
  (* the request to resume *)
  set (wr := request_status v1 (ReqName req) (ResumeDebtNamespaceAnnoStatus v1) w1).
  set (resume_ns := set_debt_status v1 (ResumeDebtNamespaceAnnoStatus v1) tenant_ns).
  assert (find (named (ReqName req)) (namespaces wr) = Some resume_ns) as Hnsr.
  { unfold wr, request_status. cbn [namespaces set_namespaces].
    rewrite find_map_named by done. rewrite Hn1. unfold wg.
    cbn [namespaces record]. by rewrite Hns. }
  (* the second pass: resume *)
  set (wh := record (Issued (GetNamespace (ReqName req))) wr).
  destruct (resume_scenario v1 E Hrel Hprompt (ReqName req) A1 wh)
    as (w2 & t2 & Hres & Hp2 & Hq2 & Hn2 & Ht2 & Hd2 & Hc2).
  { cbn [A1 PodMeta set_Status]. congruence. }
  { cbn [A1 PodMeta set_Status]. congruence. }
  { exact HcS. }
  { exact Hphase. }
  { exact Hp1. }
  rewrite <- Hrestored in Hp2, Hc2.
  set (A2 := set_Status (platform_status E restored) restored) in *.
  set (normal_ns := set_debt_status v1 (NormalDebtNamespaceAnnoStatus v1) resume_ns).
  set (wf := set_namespaces
               (map (fun n => if named (ReqName req) n then normal_ns else n)
                  (namespaces wr))
               (record (Issued (UpdateNamespace normal_ns)) w2)).
  assert (Reconcile v1 E req wr = Returns (Result_zero, None) wf) as Hsecond.
  { unfold Reconcile, Client_Get_Namespace, issue, bind, ret.
    rewrite Hrel. cbn [namespaces record]. rewrite Hnsr.
    unfold resume_ns at 1. rewrite debt_status_set.
    rewrite bool_decide_eq_false_2 by congruence.
    rewrite bool_decide_eq_true_2 by done. fold wh. rewrite Hres.
    fold normal_ns. unfold Client_Update_Namespace, issue, bind, ret.
    rewrite Hrel. cbn [namespaces record]. rewrite Hn2.
    assert (Name (NsMeta normal_ns) = ReqName req) as ->.
    { apply find_named in Hns. exact Hns. }
    cbn [namespaces record wh]. by rewrite Hnsr. }
  exists w1, (Issued (GetNamespace (ReqName req)) :: t1),
         wf, (Issued (GetNamespace (ReqName req)) :: t2
              ++ [Issued (UpdateNamespace normal_ns)]).
  split.
  { split; [exact Hfirst|]. split; [rewrite Ht1; unfold wg; cbn;
                                     by rewrite <- app_assoc|].
    split; [exact Hd1|]. split; [exact Hc1|exact Hp1]. }
  split.
  { split; [exact Hsecond|].
    split; [unfold wf; cbn; rewrite Ht2; unfold wh, wr; cbn;
            by rewrite <- !app_assoc|].
    split.
    { change (deletes (Issued (GetNamespace (ReqName req)) :: t2
                       ++ [Issued (UpdateNamespace normal_ns)]))
        with (deletes (t2 ++ [Issued (UpdateNamespace normal_ns)])).
      rewrite deletes_app, Hd2. done. }
    split.
    { change (creates (Issued (GetNamespace (ReqName req)) :: t2
                       ++ [Issued (UpdateNamespace normal_ns)]))
        with (creates (t2 ++ [Issued (UpdateNamespace normal_ns)])).
      rewrite creates_app, Hc2. done. }
    exact Hp2. }
  split.
  { cbn [A2 PodMeta Spec set_Status]. split.
    { rewrite HrN. cbn [A1 PodMeta set_Status]. exact HcN. }
    split; [|exact HrA].
    rewrite HrS. cbn [A1 PodMeta set_Status]. rewrite Hprev. cbn. exact HschA. }
  split; [exact Hq2|].
  exists normal_ns. split; [|apply debt_status_set].
  unfold wf. cbn [namespaces set_namespaces].
  rewrite (find_map_named _ (fun _ => normal_ns)); [by rewrite Hnsr|].
  intros _ _. apply bool_decide_eq_true. apply find_named in Hns. exact Hns.
Qed.

Lemma last_snoc_act (tr : list Act) a : last (tr ++ [a]) = Some a.
Proof. apply last_snoc. Qed.

Lemma prompt_feed_delivers tr p :
  existsb (is_deletion_of p)
    (delivered (prompt_feed (tr ++ [Issued (DeletePod p)]))) = true.
Proof.
  unfold prompt_feed. rewrite last_snoc_act. cbn.
  by rewrite bool_decide_eq_true_2 by reflexivity.
Qed.

Lemma parking_cluster_prompt : prompt parking_cluster.
Proof. intros tr p. apply prompt_feed_delivers. Qed.

Lemma parking_cluster_reliable : reliable parking_cluster.
Proof. intros tr c. reflexivity. Qed.

(** The round trip on the example namespace, with a platform that reports
    parked pods as suspended: two creates in all, and pod ["a"] is back
    under ["default"]. *)
Lemma suspend_resume_round_trip_witness :
  let w := cluster "SuspendRequested" [pod_A; pod_B] in
  exists w1 w2,
    Reconcile example_v1 parking_cluster tenant_request w
    = Returns (Result_zero, None) w1 /\
    Reconcile example_v1 parking_cluster tenant_request
      (request_status example_v1 "tenant" "ResumeRequested" w1)
    = Returns (Result_zero, None) w2 /\
    length (creates (trace w2)) = 2 /\
    map (fun p => (Name (PodMeta p), SchedulerName (Spec p))) (pods w2)
    = [("a", "default")] /\
    find (has_key ("tenant", "debt-limit0")) (quotas w2) = None.
Proof.
  intros w.
  destruct (suspend_resume_round_trip example_v1 parking_cluster tenant_request
              w (tenant "SuspendRequested") pod_A pod_B)
    as (w1 & t1 & w2 & t2 & (H1 & Ht1 & _ & Hc1 & _) & (H2 & Ht2 & _ & Hc2 & Hp2)
        & _ & Hq & _).
  - discriminate.
  - discriminate.
  - exact parking_cluster_reliable.
  - exact parking_cluster_prompt.
  - reflexivity.
  - reflexivity.
  - vm_compute. reflexivity.
  - left. reflexivity.
  - reflexivity.
  - reflexivity.
  - discriminate.
  - reflexivity.
  - reflexivity.
  - discriminate.
  - discriminate.
  - exists w1, w2. split; [exact H1|]. split; [exact H2|].
    split; [|split; [|exact Hq]].
    + rewrite Ht2, Ht1. unfold creates in *. rewrite !omap_app, Hc2, Hc1.
      reflexivity.
    + rewrite Hp2. vm_compute. reflexivity.
Defined.

(** C3 as stated fails.  On a platform that starts every pod it accepts as
    [Pending], both passes succeed and the debt status becomes [Normal], yet
    the resume pass skips the parked pod, whose phase is not the suspended
    one: pod ["a"] was created once only, and it is still under the reserved
    scheduler with its previous-scheduler annotation. *)
Lemma round_trip_leaves_pod_parked_when_pending :
  let w := cluster "SuspendRequested" [pod_A; pod_B] in
  let w1 := final (Reconcile example_v1 pending_cluster tenant_request w) in
  let w2 := final (Reconcile example_v1 pending_cluster tenant_request
                     (request_status example_v1 "tenant" "ResumeRequested" w1)) in
  Reconcile example_v1 pending_cluster tenant_request w
  = Returns (Result_zero, None) w1 /\
  Reconcile example_v1 pending_cluster tenant_request
    (request_status example_v1 "tenant" "ResumeRequested" w1)
  = Returns (Result_zero, None) w2 /\
  namespaces w2 = [tenant "Normal"] /\
  creates (trace w2) = [suspend_clone example_v1 pod_A] /\
  map (fun p => (Name (PodMeta p), SchedulerName (Spec p),
                 anno_lookup "sealos.io/previous-scheduler"
                   (Annotations (PodMeta p)))) (pods w2)
  = [("a", "sealos-debt-scheduler", Some "default")].
Proof.
  intros w w1 w2.
  split; [vm_compute; reflexivity|]. split; [vm_compute; reflexivity|].
  split; [vm_compute; reflexivity|]. split; vm_compute; reflexivity.
Qed.

(** C4 as stated fails.  An unmanaged pod under the reserved scheduler
    whose phase is [Pending] is left alone by the resume pipeline, which
    succeeds without deleting or creating anything. *)
Lemma resume_skips_parked_pod_not_suspended :
  let w := cluster "ResumeRequested" [pod_P] in
  SchedulerName (Spec pod_P) = DebtSchedulerName example_v1 /\
  OwnerReferences (PodMeta pod_P) = [] /\
  exists w',
    ResumeUserResource example_v1 parking_cluster "tenant" w = Returns None w'
    /\ pods w' = [pod_P]
    /\ deletes (trace w') = [] /\ creates (trace w') = [].
Proof.
  split; [reflexivity|]. split; [reflexivity|].
  exists (final (ResumeUserResource example_v1 parking_cluster "tenant"
                   (cluster "ResumeRequested" [pod_P]))).
  split; [vm_compute; reflexivity|]. split; [vm_compute; reflexivity|].
  split; vm_compute; reflexivity.
Qed.

(** C5 as stated fails.  A managed pod that already carries the reserved
    scheduler is not deleted by the suspend pipeline, which succeeds and
    deletes the two other pods only. *)
Lemma suspend_keeps_managed_pod_under_reserved_scheduler :
  let w := cluster "SuspendRequested" [pod_A; pod_B; pod_C] in
  OwnerReferences (PodMeta pod_C) <> [] /\
  exists w',
    SuspendUserResource example_v1 parking_cluster "tenant" w = Returns None w'
    /\ In pod_C (pods w')
    /\ deletes (trace w') = [pod_A; pod_B].
Proof.
  split; [discriminate|].
  exists (final (SuspendUserResource example_v1 parking_cluster "tenant"
                   (cluster "SuspendRequested" [pod_A; pod_B; pod_C]))).
  split; [vm_compute; reflexivity|]. split; [|vm_compute; reflexivity].
  left. vm_compute. reflexivity.
Qed.

Section Pipelines.

Variable v1 : ApiV1.
Variable E : Env.

Lemma suspend_targets_spec items pod :
  In pod (suspend_targets v1 items) <->
  In pod items /\ OwnerReferences (PodMeta pod) = []
  /\ SchedulerName (Spec pod) <> DebtSchedulerName v1.
Proof.
  unfold suspend_targets, suspend_skips. rewrite filter_In, negb_true_iff,
    orb_false_iff, !bool_decide_eq_false.
  destruct (OwnerReferences (PodMeta pod)); simpl; split;
    intros (? & ? & ?); repeat split; auto; try lia; try discriminate.
Qed.

Lemma delete_targets_spec items pod :
  In pod (delete_targets v1 items) <->
  In pod items /\ OwnerReferences (PodMeta pod) <> []
  /\ SchedulerName (Spec pod) <> DebtSchedulerName v1.
Proof.
  unfold delete_targets, delete_skips. rewrite filter_In, negb_true_iff,
    orb_false_iff, !bool_decide_eq_false.
  destruct (OwnerReferences (PodMeta pod)); simpl; split;
    intros (? & ? & ?); repeat split; auto; try lia; try discriminate.
Qed.

Lemma resume_targets_spec items pod :
  In pod (resume_targets v1 items) <->
  In pod items /\ Phase (Status pod) = PodPhaseSuspended v1
  /\ SchedulerName (Spec pod) = DebtSchedulerName v1.
Proof.
  unfold resume_targets, resume_skips. rewrite filter_In, negb_true_iff,
    orb_false_iff, !negb_false_iff, !bool_decide_eq_true. tauto.
Qed.

Lemma unmanaged_spec pod :
  unmanaged pod = true <-> OwnerReferences (PodMeta pod) = [].
Proof.
  unfold unmanaged. rewrite negb_true_iff, bool_decide_eq_false.
  destruct (OwnerReferences (PodMeta pod)); simpl; split; auto; try lia;
    try discriminate.
Qed.

Lemma pods_in_spec ns w pod :
  In pod (pods_in ns w) <-> In pod (pods w) /\ Namespace (PodMeta pod) = ns.
Proof.
  unfold pods_in, in_namespace. by rewrite filter_In, bool_decide_eq_true.
Qed.

Lemma suspendOrphanPod_ok ns w w1 :
  suspendOrphanPod v1 E ns w = Returns None w1 ->
  exists t,
    trace w1 = trace w ++ Issued (ListPods ns) :: t
    /\ recreates_each (suspend_clone v1) (suspend_targets v1 (pods_in ns w)) t.
Proof.
  unfold suspendOrphanPod, Client_List_Pods, issue, bind, ret.
  destruct (fault E (trace w) (ListPods ns)); [discriminate|].
  intros (t & Ht & Hrun)%suspend_items_ok.
  exists t. split; [|exact Hrun]. rewrite Ht. cbn. by rewrite <- app_assoc.
Qed.

Lemma resumePod_ok ns w w' :
  prompt E ->
  resumePod v1 E ns w = Returns None w' ->
  exists t,
    trace w' = trace w ++ Issued (ListPods ns) :: t
    /\ deletes t = resume_targets v1 (pods_in ns w)
    /\ creates t = map (resume_clone v1)
                     (List.filter unmanaged (resume_targets v1 (pods_in ns w))).
Proof.
  intros Hp. unfold resumePod, Client_List_Pods, issue, bind, ret.
  destruct (fault E (trace w) (ListPods ns)); [discriminate|].
  intros (t & Ht & Hd & Hc)%resume_items_ok; [|exact Hp].
  exists t. split; [|by split]. rewrite Ht. cbn. by rewrite <- app_assoc.
Qed.

Lemma deleteControlledPod_trace ns w :
  exists gone,
    trace (final (deleteControlledPod v1 E ns w))
    = trace w ++ Issued (ListPods ns) :: map (fun p => Issued (DeletePod p)) gone
    /\ gone `prefix_of` delete_targets v1 (pods_in ns w)
    /\ (forall w', deleteControlledPod v1 E ns w = Returns None w' ->
                   gone = delete_targets v1 (pods_in ns w)).
Proof.
  unfold deleteControlledPod, Client_List_Pods, issue, bind, ret.
  destruct (fault E (trace w) (ListPods ns)).
  { exists []. split; [done|]. split; [apply prefix_nil|discriminate]. }
  destruct (delete_items_trace v1 E (List.filter (in_namespace ns) (pods w))
              (record (Issued (ListPods ns)) w)) as (gone & Ht & Hpre & Hall).
  exists gone. cbv beta iota. cbn [pods record].
  split; [|by split]. rewrite Ht. cbn. by rewrite <- app_assoc.
Qed.

Lemma limitResourceQuotaCreate_run ns w :
  let o := limitResourceQuotaCreate E ns w in
  pods (final o) = pods w /\ namespaces (final o) = namespaces w /\
  (trace (final o) = trace w ++ [Issued (GetQuota ns "debt-limit0")] \/
   trace (final o) = trace w ++ [Issued (GetQuota ns "debt-limit0");
                                 Issued (CreateQuota (GetLimit0ResourceQuota ns))]) /\
  (forall w', o = Returns None w' ->
              is_Some (find (has_key (ns, "debt-limit0")) (quotas w'))).
Proof.
  cbv zeta. rewrite limitResourceQuotaCreate_eq. cbv zeta.
  assert (forall w0 : World,
            let w1 := record (Issued (GetQuota ns "debt-limit0")) w0 in
            let o := create_limit0 E ns w1 in
            pods (final o) = pods w0 /\ namespaces (final o) = namespaces w0 /\
            trace (final o) = trace w0 ++ [Issued (GetQuota ns "debt-limit0");
                                Issued (CreateQuota (GetLimit0ResourceQuota ns))] /\
            (forall w', o = Returns None w' ->
               is_Some (find (has_key (ns, "debt-limit0")) (quotas w')))) as Hcreate.
  { intros w0. cbv zeta. unfold create_limit0.
    destruct (fault E _ (CreateQuota _)); cbn [final pods namespaces trace record].
    - rewrite <- app_assoc. repeat split; auto. discriminate.
    - cbn [quotas record].
      destruct (find (has_key (ns, "debt-limit0")) (quotas w0)) eqn:Hq;
        cbn [final pods namespaces trace record set_quotas];
        rewrite <- app_assoc; repeat split; auto; try discriminate.
      intros w' [= <-]. cbn [quotas set_quotas]. rewrite find_snoc, Hq.
      unfold has_key. by rewrite bool_decide_eq_true_2 by reflexivity. }
  destruct (fault E (trace w) (GetQuota ns "debt-limit0")) as [e|].
  - destruct (IsNotFound e).
    + destruct (Hcreate w) as (? & ? & ? & ?). auto.
    + cbn. repeat split; auto. discriminate.
  - destruct (find (has_key (ns, "debt-limit0")) (quotas w)) eqn:Hq.
    + cbn. repeat split; auto. intros w' [= <-]. cbn. by rewrite Hq.
    + destruct (Hcreate w) as (? & ? & ? & ?). auto.
Qed.

End Pipelines.

Lemma SuspendUserResource_eq v1 E namespace w :
  SuspendUserResource v1 E namespace w =
  match suspendOrphanPod v1 E namespace w with
  | Hangs w1 => Hangs w1
  | Returns (Some e) w1 => Returns (Some e) w1
  | Returns None w1 =>
      match limitResourceQuotaCreate E namespace w1 with
      | Hangs w2 => Hangs w2
      | Returns (Some e) w2 => Returns (Some e) w2
      | Returns None w2 => deleteControlledPod v1 E namespace w2
      end
  end.
Proof.
  unfold SuspendUserResource, run_pipelines, bind, ret.
  destruct (suspendOrphanPod v1 E namespace w) as [[e|] w1|w1]; try reflexivity.
  destruct (limitResourceQuotaCreate E namespace w1) as [[e|] w2|w2];
    try reflexivity.
  by destruct (deleteControlledPod v1 E namespace w2) as [[e|] w3|w3].
Qed.

(** C5, amended.  [suspendOrphanPod] acts on the pods of the listing that
    have no owner reference and are not under the reserved scheduler,
    [deleteControlledPod] on those that have an owner reference and are not
    under the reserved scheduler.  The suspend pipeline runs
    [suspendOrphanPod] first; if that returns an error, or never returns,
    so does the pipeline, in the same world.  Otherwise the trace of that
    stage is the listing followed by one complete run of the recreate
    protocol per pod it acts on, in order, with the parked clone as
    replacement.  Then comes [limitResourceQuotaCreate], with the same rule
    for errors; on success it has read the quota record and created the
    zero-limit one when there was none, the record is present and the pods
    are untouched.  Last comes [deleteControlledPod], whose result is the
    result of the pipeline: it lists the pods and deletes the pods it acts
    on one after the other, all of them when it returns [nil], stopping at
    the first delete that fails otherwise. *)
Theorem SuspendUserResource_stages
    (v1 : ApiV1) (E : Env) (namespace : string) (w : World) :
  let run := SuspendUserResource v1 E namespace w in
  (forall items pod,
     In pod (suspend_targets v1 items) <->
     In pod items /\ OwnerReferences (PodMeta pod) = []
     /\ SchedulerName (Spec pod) <> DebtSchedulerName v1) /\
  (forall items pod,
     In pod (delete_targets v1 items) <->
     In pod items /\ OwnerReferences (PodMeta pod) <> []
     /\ SchedulerName (Spec pod) <> DebtSchedulerName v1) /\
  match suspendOrphanPod v1 E namespace w with
  | Hangs w1 => run = Hangs w1
  | Returns (Some e) w1 => run = Returns (Some e) w1
  | Returns None w1 =>
      (exists t,
         trace w1 = trace w ++ Issued (ListPods namespace) :: t /\
         recreates_each (suspend_clone v1)
           (suspend_targets v1 (pods_in namespace w)) t) /\
      match limitResourceQuotaCreate E namespace w1 with
      | Hangs w2 => run = Hangs w2
      | Returns (Some e) w2 => run = Returns (Some e) w2
      | Returns None w2 =>
          (pods w2 = pods w1 /\
           (trace w2 = trace w1 ++ [Issued (GetQuota namespace "debt-limit0")] \/
            trace w2 = trace w1
                       ++ [Issued (GetQuota namespace "debt-limit0");
                           Issued (CreateQuota (GetLimit0ResourceQuota namespace))]) /\
           is_Some (find (has_key (namespace, "debt-limit0")) (quotas w2))) /\
          run = deleteControlledPod v1 E namespace w2 /\
          exists gone,
            trace (final run)
            = trace w2 ++ Issued (ListPods namespace)
                          :: map (fun p => Issued (DeletePod p)) gone /\
            gone `prefix_of` delete_targets v1 (pods_in namespace w2) /\
            (forall w3, run = Returns None w3 ->
                        gone = delete_targets v1 (pods_in namespace w2))
      end
  end.
Proof.
  cbv zeta. split; [apply suspend_targets_spec|].
  split; [apply delete_targets_spec|].
  rewrite SuspendUserResource_eq.
  destruct (suspendOrphanPod v1 E namespace w) as [[e|] w1|w1] eqn:Hone;
    [reflexivity| |reflexivity].
  split; [exact (suspendOrphanPod_ok v1 E namespace w w1 Hone)|].
  pose proof (limitResourceQuotaCreate_run E namespace w1) as Htwo.
  cbv zeta in Htwo.
  destruct (limitResourceQuotaCreate E namespace w1) as [[e|] w2|w2];
    [reflexivity| |reflexivity].
  cbn [final] in Htwo. destruct Htwo as (Hp & _ & Ht & Hq).
  split; [split; [exact Hp|split; [exact Ht|by apply Hq]]|].
  split; [reflexivity|]. apply deleteControlledPod_trace.
Qed.

(** C4, amended.  When every subscription delivers the awaited deletion
    and [resumePod] returns [nil], it has acted on exactly the pods of the
    namespace whose phase is the suspended one and whose scheduler is the
    reserved one: a delete was requested for each of them, in order, and a
    create for each of them that has no owner reference, and for no other
    pod.  The pod created for [pod] is its clone with the scheduler taken
    from the previous-scheduler annotation (empty when there is none) and
    without that annotation. *)
Theorem resumePod_acts_on_suspended_parked_pods
    (v1 : ApiV1) (E : Env) (namespace : string) (w w' : World) :
  prompt E ->
  resumePod v1 E namespace w = Returns None w' ->
  let targets := resume_targets v1 (pods_in namespace w) in
  (forall pod,
     In pod targets <->
     (In pod (pods w) /\ Namespace (PodMeta pod) = namespace)
     /\ Phase (Status pod) = PodPhaseSuspended v1
     /\ SchedulerName (Spec pod) = DebtSchedulerName v1) /\
  (forall pod, unmanaged pod = true <-> OwnerReferences (PodMeta pod) = []) /\
  (exists t,
     trace w' = trace w ++ Issued (ListPods namespace) :: t /\
     deletes t = targets /\
     creates t = map (resume_clone v1) (List.filter unmanaged targets)) /\
  (forall pod,
     let clone := resume_clone v1 pod in
     Name (PodMeta clone) = Name (PodMeta pod) /\
     Namespace (PodMeta clone) = Namespace (PodMeta pod) /\
     SchedulerName (Spec clone)
     = default "" (anno_lookup (PreviousSchedulerName v1)
                     (Annotations (PodMeta pod))) /\
     anno_lookup (PreviousSchedulerName v1) (Annotations (PodMeta clone)) = None).
Proof.
  intros Hp Hrun. cbv zeta.
  split.
  { intros pod. by rewrite resume_targets_spec, pods_in_spec. }
  split; [apply unmanaged_spec|].
  split; [exact (resumePod_ok v1 E namespace w w' Hp Hrun)|].
  intros pod.
  destruct (resume_clone_fields v1 pod) as (H1 & H2 & _ & _ & _ & _ & H3 & H4 & _).
  auto.
Qed.

(** Three pods under the reserved scheduler: an unmanaged and a managed one
    in the suspended phase, and an unmanaged one that is [Pending]. *)
Lemma resumePod_acts_witness :
  let w := cluster "ResumeRequested"
             [example_pod "a" "sealos-debt-scheduler" "Suspended"
                (Some {[ "sealos.io/previous-scheduler" := "default" ]}) [];
              example_pod "b" "sealos-debt-scheduler" "Suspended" None
                [{| OwnerKind := "ReplicaSet"; OwnerName := "web" |}];
              pod_P] in
  let w' := final (resumePod example_v1 parking_cluster "tenant" w) in
  prompt parking_cluster /\
  resumePod example_v1 parking_cluster "tenant" w = Returns None w' /\
  map (fun p => Name (PodMeta p)) (deletes (trace w')) = ["a"; "b"] /\
  map (fun p => (Name (PodMeta p), SchedulerName (Spec p))) (creates (trace w'))
  = [("a", "default")].
Proof.
  intros w w'.
  assert (resumePod example_v1 parking_cluster "tenant" w = Returns None w') as Hrun
    by (vm_compute; reflexivity).
  split; [exact parking_cluster_prompt|]. split; [exact Hrun|].
  destruct (resumePod_acts_on_suspended_parked_pods example_v1 parking_cluster
              "tenant" w w' parking_cluster_prompt Hrun)
    as (_ & _ & (t & Ht & Hd & Hc) & _).
  rewrite Ht.
  change (deletes (trace w ++ Issued (ListPods "tenant") :: t)) with (deletes t).
  change (creates (trace w ++ Issued (ListPods "tenant") :: t)) with (creates t).
  rewrite Hd, Hc. split; vm_compute; reflexivity.
Defined.

(** The same defect seen from [Reconcile]: when the channel is closed early
    during a resume, the parked pod is deleted and never created again, and
    the namespace is nevertheless marked [Normal]. *)
Example resume_with_closed_channel_loses_pod :
  let w := cluster "ResumeRequested"
             [example_pod "a" "sealos-debt-scheduler" "Suspended"
                (Some {[ "sealos.io/previous-scheduler" := "default" ]}) []] in
  let w' := final (Reconcile example_v1 closing_cluster tenant_request w) in
  Reconcile example_v1 closing_cluster tenant_request w
  = Returns (Result_zero, None) w' /\
  pods w' = [] /\ creates (trace w') = [] /\ namespaces w' = [tenant "Normal"].
Proof.
  intros w w'.
  split; [vm_compute; reflexivity|]. split; [vm_compute; reflexivity|].
  split; vm_compute; reflexivity.
Qed.

(** ** The event filter *)

(** X1.  The event filter lets an update through exactly when both objects
    of the event are namespaces, the new one carries the debt status
    annotation, and its value differs from the old one's; an old namespace
    without annotations, or without that annotation, counts as having the
    empty value. *)
Theorem AnnotationChangedPredicate_Update_iff (v1 : ApiV1) (e : UpdateEvent) :
  AnnotationChangedPredicate_Update v1 e = true <->
  exists oldObj newObj newStatus,
    ObjectOld e = Some (NamespaceObject oldObj) /\
    ObjectNew e = Some (NamespaceObject newObj) /\
    anno_lookup (DebtNamespaceAnnoStatusKey v1) (Annotations (NsMeta newObj))
    = Some newStatus /\
    newStatus <> default "" (anno_lookup (DebtNamespaceAnnoStatusKey v1)
                               (Annotations (NsMeta oldObj))).
Proof.
  unfold AnnotationChangedPredicate_Update, as_Namespace. split.
  - destruct (ObjectOld e) as [[oldObj| |]|]; try discriminate.
    destruct (ObjectNew e) as [[newObj| |]|]; try discriminate.
    destruct (Annotations (NsMeta newObj)) as [newAno|] eqn:Hnew; [|discriminate].
    destruct (newAno !! DebtNamespaceAnnoStatusKey v1) as [newStatus|] eqn:Hk;
      [|discriminate].
    intros Hne%negb_true_iff%bool_decide_eq_false.
    exists oldObj, newObj, newStatus. repeat split; [by rewrite Hnew|].
    intros ->. apply Hne. by destruct (Annotations (NsMeta oldObj)).
  - intros (oldObj & newObj & newStatus & -> & -> & Hk & Hne).
    destruct (Annotations (NsMeta newObj)) as [newAno|]; [|discriminate].
    simpl in Hk. rewrite Hk. apply negb_true_iff, bool_decide_eq_false.
    intros <-. apply Hne. by destruct (Annotations (NsMeta oldObj)).
Qed.

(** X2.  An update between two namespaces is dropped when the new one has
    no debt status annotation, when the annotation reads the same on both
    sides (or is absent on both), and when it is added with the empty value
    where there was none.  A create event passes exactly when the created
    object carries the annotation, whatever its value. *)
Theorem AnnotationChangedPredicate_ignores_unmarked
    (v1 : ApiV1) (oldObj newObj : NamespaceObj) (created : ClientObject) :
  let key := DebtNamespaceAnnoStatusKey v1 in
  let e := {| ObjectOld := Some (NamespaceObject oldObj);
              ObjectNew := Some (NamespaceObject newObj) |} in
  (anno_lookup key (Annotations (NsMeta newObj)) = None ->
   AnnotationChangedPredicate_Update v1 e = false) /\
  (anno_lookup key (Annotations (NsMeta oldObj))
   = anno_lookup key (Annotations (NsMeta newObj)) ->
   AnnotationChangedPredicate_Update v1 e = false) /\
  (anno_lookup key (Annotations (NsMeta oldObj)) = None ->
   anno_lookup key (Annotations (NsMeta newObj)) = Some "" ->
   AnnotationChangedPredicate_Update v1 e = false) /\
  (AnnotationChangedPredicate_Create v1 {| Object_ := created |} = true <->
   is_Some (anno_lookup key (GetAnnotations created))).
Proof.
  cbv zeta. unfold AnnotationChangedPredicate_Update,
    AnnotationChangedPredicate_Create, as_Namespace. simpl.
  split; [|split; [|split]].
  - intros Hnone. destruct (Annotations (NsMeta newObj)) as [newAno|]; [|done].
    simpl in Hnone. by rewrite Hnone.
  - intros Heq. destruct (Annotations (NsMeta newObj)) as [newAno|]; [|done].
    simpl in Heq.
    destruct (newAno !! DebtNamespaceAnnoStatusKey v1) as [s|]; [|done].
    apply negb_false_iff, bool_decide_eq_true.
    destruct (Annotations (NsMeta oldObj)) as [oldAno|]; [|done].
    simpl in Heq. by rewrite Heq.
  - intros Hold Hnew. destruct (Annotations (NsMeta newObj)) as [newAno|]; [|done].
    simpl in Hnew. rewrite Hnew.
    apply negb_false_iff, bool_decide_eq_true.
    destruct (Annotations (NsMeta oldObj)) as [oldAno|]; [|done].
    simpl in Hold. by rewrite Hold.
  - destruct (anno_lookup _ _) as [s|]; split; eauto; try discriminate.
    by intros [? ?].
Qed.

(** Rewriting the namespace without touching its debt status. *)
Lemma AnnotationChangedPredicate_ignores_unmarked_witness :
  AnnotationChangedPredicate_Update example_v1
    {| ObjectOld := Some (NamespaceObject (tenant "Normal"));
       ObjectNew := Some (NamespaceObject (tenant "Normal")) |} = false.
Proof.
  destruct (AnnotationChangedPredicate_ignores_unmarked example_v1
              (tenant "Normal") (tenant "Normal")
              (NamespaceObject (tenant "Normal"))) as (_ & same & _).
  apply same. reflexivity.
Defined.

(** ** More on the recreate protocol *)

Section Protocol.

Variable E : Env.

Lemma range_events_skip oldPod newPod pre rest fin w :
  existsb (is_deletion_of oldPod) pre = false ->
  exists w1,
    range_events E oldPod newPod (pre ++ rest) fin w
    = range_events E oldPod newPod rest fin w1
    /\ trace w1 = trace w ++ map Received pre
    /\ pods w1 = pods w /\ quotas w1 = quotas w /\ namespaces w1 = namespaces w.
Proof.
  revert w. induction pre as [|ev pre IH]; intros w Hno; simpl in *.
  - exists w. by rewrite app_nil_r.
  - apply orb_false_iff in Hno as [Hev Hpre]. rewrite Hev.
    destruct (IH (record (Received ev) w) Hpre) as (w1 & Hrun & Ht & Hp & Hq & Hn).
    exists w1. rewrite Hrun, Ht. simpl. by rewrite <- app_assoc.
Qed.

(** The watcher is stopped exactly in the runs of the loop that return [nil]
    after the create. *)
Lemma range_events_stopped oldPod newPod evs fin w :
  exists t,
    trace (final (range_events E oldPod newPod evs fin w)) = trace w ++ t /\
    (In Stopped t <->
     (exists w', range_events E oldPod newPod evs fin w = Returns None w')
     /\ In (Issued (CreatePod newPod)) t).
Proof.
  revert w. induction evs as [|ev rest IH]; intros w; simpl.
  - exists []. rewrite app_nil_r. split; [by destruct fin|].
    split; [done|]. by intros [_ []].
  - destruct (is_deletion_of oldPod ev) eqn:Hm.
    + pose proof (Client_Create_Pod_trace E newPod (record (Received ev) w)) as Hc.
      unfold bind, ret, Stop.
      destruct (Client_Create_Pod E newPod (record (Received ev) w))
        as [[e|] w1|w1]; simpl in *.
      * exists [Received ev; Issued (CreatePod newPod)].
        split; [by rewrite Hc, <- app_assoc|].
        split; [intros [|[|[]]]; discriminate|]. by intros [[w' ?] _].
      * exists [Received ev; Issued (CreatePod newPod); Stopped].
        split; [by rewrite Hc, <- !app_assoc|].
        split; [|intros _; right; right; by left].
        intros _. split; [eauto|]. right. by left.
      * exists [Received ev; Issued (CreatePod newPod)].
        split; [by rewrite Hc, <- app_assoc|].
        split; [intros [|[|[]]]; discriminate|]. by intros [[w' ?] _].
    + destruct (IH (record (Received ev) w)) as (t & Ht & Hiff).
      exists (Received ev :: t). split; [rewrite Ht; simpl; by rewrite <- app_assoc|].
      split.
      * intros [Hd|Hs]; [discriminate|]. apply Hiff in Hs as [Hr Hc].
        split; [exact Hr|right; exact Hc].
      * intros [Hr [Hd|Hc]]; [discriminate|]. right. apply Hiff.
        split; assumption.
Qed.

End Protocol.

(** X3.  Every run of the recreate protocol extends the trace, and the
    watcher is stopped in it if and only if the run returned [nil] after
    requesting the creation of the new pod.  On every error return, and when
    the channel closes before the deletion is seen, the watcher is left
    running. *)
Theorem recreatePod_stops_watcher_only_after_create
    (E : Env) (oldPod newPod : Pod) (w : World) :
  exists t,
    trace (final (recreatePod E oldPod newPod w)) = trace w ++ t /\
    (In Stopped t <->
     (exists w', recreatePod E oldPod newPod w = Returns None w')
     /\ In (Issued (CreatePod newPod)) t).
Proof.
  unfold recreatePod, Client_Watch, ResultChan, bind, ret. rewrite issue_run.
  destruct (fault E (trace w) WatchPods); simpl.
  { exists [Issued WatchPods]. split; [done|].
    split; [intros [|[]]; discriminate|]. by intros [[w' ?] _]. }
  pose proof (Client_Delete_Pod_trace E oldPod (record (Issued WatchPods) w)) as Hd.
  destruct (Client_Delete_Pod E oldPod (record (Issued WatchPods) w))
    as [[e|] w1|w1]; simpl in *.
  - exists [Issued WatchPods; Issued (DeletePod oldPod)].
    split; [by rewrite Hd, <- app_assoc|].
    split; [intros [|[|[]]]; discriminate|]. by intros [[w' ?] _].
  - destruct (range_events_stopped E oldPod newPod (delivered (feed E (trace w1)))
                (ending (feed E (trace w1))) w1) as (t & Ht & Hiff).
    exists (Issued WatchPods :: Issued (DeletePod oldPod) :: t).
    split; [by rewrite Ht, Hd, <- !app_assoc|].
    split.
    + intros [Hx|[Hx|Hs]]; try discriminate. apply Hiff in Hs as [Hr Hc].
      split; [exact Hr|right; right; exact Hc].
    + intros [Hr [Hx|[Hx|Hc]]]; try discriminate. right. right. apply Hiff.
      split; assumption.
  - exists [Issued WatchPods; Issued (DeletePod oldPod)].
    split; [by rewrite Hd, <- app_assoc|].
    split; [intros [|[|[]]]; discriminate|]. by intros [[w' ?] _].
Qed.

(** X4.  When the subscription is granted and the delete of the old pod
    fails (refused by the API server, or answered not-found because no pod of
    that namespace and name is stored) the protocol returns that error
    wrapped as [failed to delete pod <name>], having issued the watch and the
    delete only: the store is unchanged and no create is requested. *)
Theorem recreatePod_failed_delete_creates_nothing
    (E : Env) (oldPod newPod : Pod) (w : World) (e : error) :
  fault E (trace w) WatchPods = None ->
  fault E (trace w ++ [Issued WatchPods]) (DeletePod oldPod) = Some e \/
  (fault E (trace w ++ [Issued WatchPods]) (DeletePod oldPod) = None /\
   existsb (same_pod oldPod) (pods w) = false /\ e = StatusError NotFound) ->
  recreatePod E oldPod newPod w
  = Returns (Some (Errorf_w ("failed to delete pod " +:+ Name (PodMeta oldPod)) e))
      {| namespaces := namespaces w; pods := pods w; quotas := quotas w;
         trace := trace w ++ [Issued WatchPods; Issued (DeletePod oldPod)] |}.
Proof.
  intros Hw Hd.
  unfold recreatePod, Client_Watch, Client_Delete_Pod, issue, bind, ret.
  rewrite Hw. cbn [trace record].
  destruct Hd as [Hd|(Hd & Hex & ->)]; rewrite Hd; cbn [pods record];
    rewrite ?Hex; unfold record; cbn; by rewrite <- app_assoc.
Qed.

(** An API server that refuses deletes. *)
Lemma recreatePod_failed_delete_witness :
  recreatePod readonly_cluster pod_A (suspend_clone example_v1 pod_A)
    (cluster "SuspendRequested" [pod_A])
  = Returns (Some (Errorf_w ("failed to delete pod " +:+ Name (PodMeta pod_A))
                     (StatusError Forbidden)))
      {| namespaces := [tenant "SuspendRequested"]; pods := [pod_A];
         quotas := [];
         trace := [] ++ [Issued WatchPods; Issued (DeletePod pod_A)] |}.
Proof.
  apply (recreatePod_failed_delete_creates_nothing readonly_cluster pod_A
           (suspend_clone example_v1 pod_A)
           (cluster "SuspendRequested" [pod_A]) (StatusError Forbidden)).
  - reflexivity.
  - left. reflexivity.
Defined.

(** X5.  The waiting loop compares names only.  Once the delete is
    accepted, the first [Deleted] event that carries a pod named like the old
    one triggers the create, issued right after that event is received,
    whatever the namespace of the pod it reports.  The events before it are
    consumed, those after it are not read, and the run returns. *)
Theorem recreatePod_creates_on_first_deletion_of_that_name
    (E : Env) (oldPod newPod : Pod) (w : World)
    (pre post : list Event) (ev : Event) (val : Pod) (fin : StreamEnd) :
  fault E (trace w) WatchPods = None ->
  fault E (trace w ++ [Issued WatchPods]) (DeletePod oldPod) = None ->
  existsb (same_pod oldPod) (pods w) = true ->
  feed E (trace w ++ [Issued WatchPods; Issued (DeletePod oldPod)])
  = {| delivered := pre ++ ev :: post; ending := fin |} ->
  existsb (is_deletion_of oldPod) pre = false ->
  EvType ev = Deleted -> EvObject ev = PodObject val ->
  Name (PodMeta val) = Name (PodMeta oldPod) ->
  exists r w' tail,
    recreatePod E oldPod newPod w = Returns r w' /\
    trace w' = trace w ++ [Issued WatchPods; Issued (DeletePod oldPod)]
                       ++ map Received pre
                       ++ Received ev :: Issued (CreatePod newPod) :: tail /\
    (tail = [] \/ tail = [Stopped]).
Proof.
  intros Hw Hd Hex Hfeed Hpre Hty Hobj Hname.
  assert (is_deletion_of oldPod ev = true) as Hm.
  { apply is_deletion_of_spec. eauto. }
  unfold recreatePod, Client_Watch, Client_Delete_Pod, ResultChan, issue, bind, ret.
  rewrite Hw. cbn [trace record]. rewrite Hd. cbn [pods record]. rewrite Hex.
  cbn [trace set_pods record]. rewrite <- app_assoc. cbn [app]. rewrite Hfeed.
  cbn [delivered ending].
  edestruct (range_events_skip E oldPod newPod pre (ev :: post) fin)
    as (w1 & Hrun & Ht & _); [exact Hpre|]. rewrite Hrun. clear Hrun.
  cbn [range_events]. rewrite Hm.
  pose proof (Client_Create_Pod_trace E newPod (record (Received ev) w1)) as Hc.
  unfold bind, ret, Stop.
  destruct (Client_Create_Pod E newPod (record (Received ev) w1))
    as [[e|] w2|w2] eqn:Hcr; simpl in Hc.
  - eexists _, _, []. split; [reflexivity|]. split; [|by left].
    rewrite Hc. cbn [trace record]. rewrite Ht. cbn [trace set_pods record].
    by rewrite <- !app_assoc.
  - eexists _, _, [Stopped]. split; [reflexivity|]. split; [|by right].
    cbn [trace record]. rewrite Hc. cbn [trace record]. rewrite Ht.
    cbn [trace set_pods record]. by rewrite <- !app_assoc.
  - exfalso. revert Hcr. unfold Client_Create_Pod, issue, bind, ret.
    destruct (fault E _ _); [discriminate|]. by repeat case_match.
Qed.

(** A pod of the same name is deleted in another namespace while the
    protocol waits. *)
Lemma recreatePod_first_deletion_witness :
  exists r w' tail,
    recreatePod crosstalk_cluster pod_A (suspend_clone example_v1 pod_A)
      (cluster "SuspendRequested" [pod_A]) = Returns r w' /\
    trace w' = [] ++ [Issued WatchPods; Issued (DeletePod pod_A)]
                  ++ map Received [event_of Modified pod_A]
                  ++ Received (event_of Deleted (namesake pod_A))
                  :: Issued (CreatePod (suspend_clone example_v1 pod_A)) :: tail /\
    (tail = [] \/ tail = [Stopped]).
Proof.
  apply (recreatePod_creates_on_first_deletion_of_that_name crosstalk_cluster
           pod_A (suspend_clone example_v1 pod_A)
           (cluster "SuspendRequested" [pod_A])
           [event_of Modified pod_A] [event_of Deleted pod_A]
           (event_of Deleted (namesake pod_A)) (namesake pod_A) Silent);
    vm_compute; reflexivity.
Defined.

(** X6.  When the delete is accepted and the channel stays open without
    ever reporting the deletion of a pod of that name, the protocol does not
    return: it has consumed what the channel delivered, the old pod is gone
    from the store and nothing was created. *)
Theorem recreatePod_waits_forever_on_silent_channel
    (E : Env) (oldPod newPod : Pod) (w : World) (evs : list Event) :
  fault E (trace w) WatchPods = None ->
  fault E (trace w ++ [Issued WatchPods]) (DeletePod oldPod) = None ->
  existsb (same_pod oldPod) (pods w) = true ->
  feed E (trace w ++ [Issued WatchPods; Issued (DeletePod oldPod)])
  = {| delivered := evs; ending := Silent |} ->
  existsb (is_deletion_of oldPod) evs = false ->
  exists w',
    recreatePod E oldPod newPod w = Hangs w'
    /\ trace w' = trace w ++ [Issued WatchPods; Issued (DeletePod oldPod)]
                          ++ map Received evs
    /\ pods w' = List.filter (fun q => negb (same_pod oldPod q)) (pods w).
Proof.
  intros Hw Hd Hex Hfeed Hno.
  unfold recreatePod, Client_Watch, Client_Delete_Pod, ResultChan, issue, bind, ret.
  rewrite Hw. cbn [trace record]. rewrite Hd. cbn [pods record]. rewrite Hex.
  cbn [trace set_pods record]. rewrite <- app_assoc. cbn [app]. rewrite Hfeed.
  cbn [delivered ending].
  edestruct (range_events_skip E oldPod newPod evs [] Silent)
    as (w1 & Hrun & Ht & Hp & _); [exact Hno|].
  rewrite app_nil_r in Hrun. rewrite Hrun. cbn [range_events].
  exists w1. split; [done|]. rewrite Ht, Hp. cbn. by rewrite <- !app_assoc.
Qed.

(** The deletion is never reported and the channel stays open. *)
Lemma recreatePod_silent_channel_witness :
  exists w',
    recreatePod silent_cluster pod_A (suspend_clone example_v1 pod_A)
      (cluster "SuspendRequested" [pod_A; pod_B]) = Hangs w'
    /\ trace w' = [] ++ [Issued WatchPods; Issued (DeletePod pod_A)]
                     ++ map Received [event_of Modified pod_A]
    /\ pods w' = List.filter (fun q => negb (same_pod pod_A q)) [pod_A; pod_B].
Proof.
  apply (recreatePod_waits_forever_on_silent_channel silent_cluster pod_A
           (suspend_clone example_v1 pod_A)
           (cluster "SuspendRequested" [pod_A; pod_B])
           [event_of Modified pod_A]);
    vm_compute; reflexivity.
Defined.

(** ** Relating the world before and after a run *)

Section Holds.

Variable R : World -> World -> Prop.
Hypothesis R_refl : forall w, R w w.
Hypothesis R_trans : forall w1 w2 w3, R w1 w2 -> R w2 w3 -> R w1 w3.

Lemma holds_ret {A} (a : A) : holds R (ret a).
Proof. intros w. apply R_refl. Qed.

Lemma holds_bind {A B} (m : M A) (k : A -> M B) :
  holds R m -> (forall a, holds R (k a)) -> holds R (bind m k).
Proof.
  intros Hm Hk w. unfold bind. specialize (Hm w).
  destruct (m w) as [a w1|w1]; simpl in *; [|done].
  eapply R_trans; [exact Hm|apply Hk].
Qed.

(** A request whose answer is computed by [answer] once it was recorded. *)
Lemma holds_request {A} (E : Env) c (answer : World -> Outcome A)
    (failed : error -> A) :
  (forall w, R w (record (Issued c) w)) ->
  (forall w, R w (final (answer w))) ->
  holds R (bind (issue E c) (fun r => match r with
                                      | Some err => ret (failed err)
                                      | None => answer
                                      end)).
Proof.
  intros Hrec Hans. apply holds_bind.
  - intros w. rewrite issue_run. apply Hrec.
  - intros [err|]; [apply holds_ret|exact Hans].
Qed.

End Holds.

Section Confined.

Variable v1 : ApiV1.
Variable E : Env.
Variable ns : string.

Lemma confined_refl w : confined ns w w.
Proof. by repeat split. Qed.

Lemma confined_trans w1 w2 w3 :
  confined ns w1 w2 -> confined ns w2 w3 -> confined ns w1 w3.
Proof. intros (? & ? & ?) (? & ? & ?). repeat split; congruence. Qed.

Lemma confined_record a w : confined ns w (record a w).
Proof. by repeat split. Qed.

Lemma filter_filter_implied {A} (f g : A -> bool) l :
  (forall x, f x = true -> g x = true) ->
  List.filter f (List.filter g l) = List.filter f l.
Proof.
  intros Hfg. induction l as [|x l IH]; simpl; [done|].
  destruct (g x) eqn:Hg; simpl.
  - by rewrite IH.
  - destruct (f x) eqn:Hf; [|done]. apply Hfg in Hf. congruence.
Qed.

Lemma filter_snoc_out {A} (f : A -> bool) l x :
  f x = false -> List.filter f (l ++ [x]) = List.filter f l.
Proof. intros Hx. rewrite List.filter_app. simpl. rewrite Hx. apply app_nil_r. Qed.

Lemma filter_map_out {A} (f g : A -> bool) (y : A) l :
  (forall x, g x = true -> f x = false) -> f y = false ->
  List.filter f (map (fun x => if g x then y else x) l) = List.filter f l.
Proof.
  intros Hgf Hy. induction l as [|x l IH]; simpl; [done|].
  destruct (g x) eqn:Hg.
  - rewrite Hy, (Hgf x Hg). exact IH.
  - destruct (f x); by rewrite IH.
Qed.

Lemma confined_issue c : holds (confined ns) (issue E c).
Proof. intros w. rewrite issue_run. apply confined_record. Qed.

Lemma confined_List_Pods n : holds (confined ns) (Client_List_Pods E n).
Proof.
  apply holds_request; [apply confined_refl|apply confined_trans| |];
    intros w; by repeat split.
Qed.

Lemma confined_Delete_Pod p :
  Namespace (PodMeta p) = ns -> holds (confined ns) (Client_Delete_Pod E p).
Proof.
  intros Hp. apply holds_request; [apply confined_refl|apply confined_trans| |];
    intros w; [by repeat split|].
  destruct (existsb (same_pod p) (pods w)); [|by repeat split].
  split; [|by split]. unfold pods_outside. cbn.
  apply filter_filter_implied. intros q Hq.
  apply negb_true_iff. apply negb_true_iff in Hq.
  apply bool_decide_eq_false. apply bool_decide_eq_false in Hq.
  intros [Hns _]. apply Hq. congruence.
Qed.

Lemma confined_Create_Pod p :
  Namespace (PodMeta p) = ns -> holds (confined ns) (Client_Create_Pod E p).
Proof.
  intros Hp. apply holds_request; [apply confined_refl|apply confined_trans| |];
    intros w; [by repeat split|].
  destruct (negb (bool_decide (ResourceVersion (PodMeta p) = "")));
    [by repeat split|].
  destruct (existsb (same_pod p) (pods w)); [by repeat split|].
  split; [|by split]. unfold pods_outside. cbn.
  apply filter_snoc_out. apply negb_false_iff, bool_decide_eq_true. exact Hp.
Qed.

Lemma confined_Get_Quota n k : holds (confined ns) (Client_Get_Quota E n k).
Proof.
  apply holds_request; [apply confined_refl|apply confined_trans| |];
    intros w; [by repeat split|]. by destruct (find _ _).
Qed.

Lemma confined_Create_Quota q :
  Namespace (QuotaMeta q) = ns -> holds (confined ns) (Client_Create_Quota E q).
Proof.
  intros Hq. apply holds_request; [apply confined_refl|apply confined_trans| |];
    intros w; [by repeat split|].
  destruct (find _ _); [by repeat split|].
  split; [done|]. split; [|done]. unfold quotas_outside. cbn.
  apply filter_snoc_out. apply negb_false_iff, bool_decide_eq_true. exact Hq.
Qed.

Lemma confined_Update_Quota q :
  Namespace (QuotaMeta q) = ns -> holds (confined ns) (Client_Update_Quota E q).
Proof.
  intros Hq. apply holds_request; [apply confined_refl|apply confined_trans| |];
    intros w; [by repeat split|].
  destruct (find _ _); [|by repeat split].
  split; [done|]. split; [|done]. unfold quotas_outside. cbn.
  apply filter_map_out.
  - intros o Ho. apply negb_false_iff, bool_decide_eq_true.
    apply bool_decide_eq_true in Ho. unfold quota_key in Ho. congruence.
  - apply negb_false_iff, bool_decide_eq_true. exact Hq.
Qed.

Lemma confined_Delete_Quota q :
  Namespace (QuotaMeta q) = ns -> holds (confined ns) (Client_Delete_Quota E q).
Proof.
  intros Hq. apply holds_request; [apply confined_refl|apply confined_trans| |];
    intros w; [by repeat split|].
  destruct (find _ _); [|by repeat split].
  split; [done|]. split; [|done]. unfold quotas_outside. cbn.
  apply filter_filter_implied. intros o Ho.
  apply negb_true_iff. apply negb_true_iff in Ho.
  apply bool_decide_eq_false. apply bool_decide_eq_false in Ho.
  intros Hk. apply Ho. unfold quota_key in Hk. congruence.
Qed.

Lemma confined_Get_Namespace n : holds (confined ns) (Client_Get_Namespace E n).
Proof.
  apply holds_request; [apply confined_refl|apply confined_trans| |];
    intros w; [by repeat split|]. by destruct (find _ _).
Qed.

Lemma confined_Update_Namespace n :
  Name (NsMeta n) = ns -> holds (confined ns) (Client_Update_Namespace E n).
Proof.
  intros Hn. apply holds_request; [apply confined_refl|apply confined_trans| |];
    intros w; [by repeat split|].
  destruct (find _ _); [|by repeat split].
  split; [done|]. split; [done|]. unfold namespaces_other. cbn. rewrite Hn.
  apply filter_map_out.
  - intros o Ho. by rewrite Ho.
  - apply negb_false_iff, bool_decide_eq_true. exact Hn.
Qed.



Lemma confined_range_events oldPod newPod evs fin :
  Namespace (PodMeta newPod) = ns ->
  holds (confined ns) (range_events E oldPod newPod evs fin).
Proof.
  intros Hnew. induction evs as [|ev rest IH]; simpl.
  - destruct fin; intros w; apply confined_refl.
  - intros w. eapply confined_trans; [apply (confined_record (Received ev))|].
    destruct (is_deletion_of oldPod ev); [|apply IH].
    apply (holds_bind _ confined_trans);
      [by apply confined_Create_Pod|].
    intros [e|]; [intros w'; apply confined_refl|].
    apply (holds_bind _ confined_trans);
      [|intros; intros w'; apply confined_refl].
    intros w'. apply confined_record.
Qed.

Lemma confined_recreatePod oldPod newPod :
  Namespace (PodMeta oldPod) = ns -> Namespace (PodMeta newPod) = ns ->
  holds (confined ns) (recreatePod E oldPod newPod).
Proof.
  intros Hold Hnew. unfold recreatePod.
  apply (holds_bind _ confined_trans); [apply confined_issue|].
  intros [e|]; [intros w; apply confined_refl|].
  apply (holds_bind _ confined_trans);
    [by apply confined_Delete_Pod|].
  intros [e|]; [intros w; apply confined_refl|].
  apply (holds_bind _ confined_trans);
    [intros w; apply confined_refl|].
  intros ch. by apply confined_range_events.
Qed.

Lemma suspend_clone_namespace pod :
  Namespace (PodMeta (suspend_clone v1 pod)) = Namespace (PodMeta pod).
Proof. by destruct (suspend_clone_fields v1 pod) as (_ & ? & _). Qed.

Lemma resume_clone_namespace pod :
  Namespace (PodMeta (resume_clone v1 pod)) = Namespace (PodMeta pod).
Proof. by destruct (resume_clone_fields v1 pod) as (_ & ? & _). Qed.

Lemma confined_suspend_items items :
  all_in ns items -> holds (confined ns) (suspendOrphanPod_items v1 E items).
Proof.
  induction 1 as [|pod rest Hpod Hrest IH]; simpl;
    [intros w; apply confined_refl|].
  destruct (suspend_skips v1 pod); [exact IH|].
  apply (holds_bind _ confined_trans).
  - apply confined_recreatePod; [done|]. by rewrite suspend_clone_namespace.
  - intros [e|]; [intros w; apply confined_refl|exact IH].
Qed.

Lemma confined_delete_items items :
  all_in ns items -> holds (confined ns) (deleteControlledPod_items v1 E items).
Proof.
  induction 1 as [|pod rest Hpod Hrest IH]; simpl;
    [intros w; apply confined_refl|].
  destruct (delete_skips v1 pod); [exact IH|].
  apply (holds_bind _ confined_trans);
    [by apply confined_Delete_Pod|].
  intros [e|]; [intros w; apply confined_refl|exact IH].
Qed.

Lemma confined_resume_items items :
  all_in ns items -> holds (confined ns) (resumePod_items v1 E items).
Proof.
  induction 1 as [|pod rest Hpod Hrest IH]; simpl;
    [intros w; apply confined_refl|].
  destruct (resume_skips v1 pod); [exact IH|].
  destruct (bool_decide (0 < length (OwnerReferences (PodMeta pod)))).
  - apply (holds_bind _ confined_trans);
      [by apply confined_Delete_Pod|].
    intros [e|]; [intros w; apply confined_refl|exact IH].
  - apply (holds_bind _ confined_trans).
    + apply confined_recreatePod; [done|]. by rewrite resume_clone_namespace.
    + intros [e|]; [intros w; apply confined_refl|exact IH].
Qed.

Lemma listing_all_in (w : World) : all_in ns (List.filter (in_namespace ns) (pods w)).
Proof.
  apply Forall_forall. intros p [_ Hp]%list_elem_of_In%filter_In.
  by apply bool_decide_eq_true in Hp.
Qed.

(** A loop over the listing of the namespace. *)
Lemma confined_over_listing (loop : list Pod -> M (option error)) :
  (forall items, all_in ns items -> holds (confined ns) (loop items)) ->
  holds (confined ns)
    (bind (Client_List_Pods E ns)
       (fun r => match r with
                 | inr err => ret (Some err)
                 | inl items => loop items
                 end)).
Proof.
  intros Hloop w. unfold Client_List_Pods, issue, bind, ret.
  destruct (fault E (trace w) (ListPods ns)); [apply confined_record|].
  eapply confined_trans; [apply (confined_record (Issued (ListPods ns)))|].
  apply Hloop. apply (listing_all_in (record (Issued (ListPods ns)) w)).
Qed.

Lemma confined_limitResourceQuotaCreate :
  holds (confined ns) (limitResourceQuotaCreate E ns).
Proof.
  intros w. rewrite limitResourceQuotaCreate_eq. cbv zeta.
  assert (forall w0, confined ns w0 (final (create_limit0 E ns w0))) as Hcreate.
  { intros w0. unfold create_limit0.
    destruct (fault E _ _); [apply confined_record|].
    destruct (find _ _); [apply confined_record|].
    split; [done|]. split; [|done]. unfold quotas_outside. cbn.
    apply filter_snoc_out. by apply negb_false_iff, bool_decide_eq_true. }
  destruct (fault E _ _) as [e|].
  - destruct (IsNotFound e); [|apply confined_record].
    eapply confined_trans; [apply (confined_record (Issued (GetQuota ns "debt-limit0")))|].
    apply Hcreate.
  - destruct (find _ _); [apply confined_record|].
    eapply confined_trans; [apply (confined_record (Issued (GetQuota ns "debt-limit0")))|].
    apply Hcreate.
Qed.

Lemma confined_limitResourceQuotaDelete :
  holds (confined ns) (limitResourceQuotaDelete E ns).
Proof.
  unfold limitResourceQuotaDelete.
  apply (holds_bind _ confined_trans);
    [by apply confined_Delete_Quota|].
  intros r w. apply confined_refl.
Qed.

Lemma confined_SuspendUserResource :
  holds (confined ns) (SuspendUserResource v1 E ns).
Proof.
  unfold SuspendUserResource, run_pipelines.
  apply (holds_bind _ confined_trans).
  { apply (confined_over_listing (suspendOrphanPod_items v1 E)).
    apply confined_suspend_items. }
  intros [e|]; [intros w; apply confined_refl|].
  apply (holds_bind _ confined_trans);
    [apply confined_limitResourceQuotaCreate|].
  intros [e|]; [intros w; apply confined_refl|].
  apply (holds_bind _ confined_trans).
  { apply (confined_over_listing (deleteControlledPod_items v1 E)).
    apply confined_delete_items. }
  intros [e|]; intros w; apply confined_refl.
Qed.

Lemma confined_ResumeUserResource :
  holds (confined ns) (ResumeUserResource v1 E ns).
Proof.
  unfold ResumeUserResource, run_pipelines.
  apply (holds_bind _ confined_trans);
    [apply confined_limitResourceQuotaDelete|].
  intros [e|]; [intros w; apply confined_refl|].
  apply (holds_bind _ confined_trans).
  { apply (confined_over_listing (resumePod_items v1 E)).
    apply confined_resume_items. }
  intros [e|]; intros w; apply confined_refl.
Qed.

End Confined.

(** X7.  Whatever the environment does and however the run ends,
    [Reconcile] leaves the pods and the quota records of every other
    namespace, and every other namespace object, as they were. *)
Theorem Reconcile_confined_to_its_namespace
    (v1 : ApiV1) (E : Env) (req : Request) (w : World) :
  let w' := final (Reconcile v1 E req w) in
  pods_outside (ReqName req) w' = pods_outside (ReqName req) w /\
  quotas_outside (ReqName req) w' = quotas_outside (ReqName req) w /\
  namespaces_other (ReqName req) w' = namespaces_other (ReqName req) w.
Proof.
  cbv zeta. change (confined (ReqName req) w (final (Reconcile v1 E req w))).
  set (ns := ReqName req).
  assert (forall status n, Name (NsMeta n) = ns ->
            holds (confined ns)
              (bind (Client_Update_Namespace E (set_debt_status v1 status n))
                 (fun err => match err with
                             | Some e => ret (Result_zero, Some e)
                             | None => ret (Result_zero, None)
                             end))) as Hupdate.
  { intros status n Hn.
    apply (holds_bind _ (confined_trans ns)).
    - by apply confined_Update_Namespace.
    - intros [e|]; intros w0; apply confined_refl. }
  unfold Reconcile. fold ns.
  unfold Client_Get_Namespace, issue, bind at 1 2, ret.
  destruct (fault E (trace w) (GetNamespace ns)); [apply confined_record|].
  cbn [namespaces record].
  destruct (find (named ns) (namespaces w)) as [n|] eqn:Hfind;
    [|apply confined_record].
  apply find_named in Hfind.
  eapply confined_trans; [apply (confined_record ns (Issued (GetNamespace ns)))|].
  destruct (anno_lookup _ _) as [status|]; [|apply confined_refl].
  repeat case_bool_decide.
  - apply (holds_bind _ (confined_trans ns));
      [apply confined_SuspendUserResource|].
    intros [e|]; intros w0; apply confined_refl.
  - apply (holds_bind _ (confined_trans ns));
      [apply confined_ResumeUserResource|].
    intros [e|]; [intros w0; apply confined_refl|]. by apply Hupdate.
  - apply confined_refl.
  - by apply Hupdate.
Qed.

Section Parked.

Variable v1 : ApiV1.
Variable E : Env.
Variable ns : string.

(** *** Where the pods of the store come from *)

Lemma Client_Delete_Pod_ok p w w' :
  Client_Delete_Pod E p w = Returns None w' ->
  pods w' = List.filter (fun q => negb (same_pod p q)) (pods w)
  /\ quotas w' = quotas w.
Proof.
  unfold Client_Delete_Pod, issue, bind, ret.
  destruct (fault E _ _); [discriminate|]. cbn [pods record].
  destruct (existsb _ _); [|discriminate]. by intros [= <-].
Qed.

Lemma Client_Delete_Pod_pods p w q :
  In q (pods (final (Client_Delete_Pod E p w))) -> In q (pods w).
Proof.
  unfold Client_Delete_Pod, issue, bind, ret.
  destruct (fault E _ _); [done|]. cbn [pods record].
  destruct (existsb _ _); [|done]. cbn. by intros [? _]%filter_In.
Qed.

Lemma Client_Delete_Pod_quotas p w :
  quotas (final (Client_Delete_Pod E p w)) = quotas w.
Proof.
  unfold Client_Delete_Pod, issue, bind, ret.
  destruct (fault E _ _); [done|]. cbn [pods record].
  by destruct (existsb _ _).
Qed.

Lemma range_events_pods oldPod newPod evs fin w q :
  In q (pods (final (range_events E oldPod newPod evs fin w))) ->
  In q (pods w) \/ q = set_Status (platform_status E newPod) newPod.
Proof.
  revert w. induction evs as [|ev rest IH]; intros w; simpl.
  - destruct fin; auto.
  - destruct (is_deletion_of oldPod ev); [|by intros ?%IH].
    unfold Client_Create_Pod, Stop, issue, bind, ret.
    destruct (fault E _ _); [auto|]. cbn [pods record].
    destruct (negb _); [auto|]. destruct (existsb _ _); [auto|].
    cbn. rewrite in_app_iff. intros [?|[<-|[]]]; auto.
Qed.

Lemma recreatePod_ok_pods oldPod newPod w w' q :
  recreatePod E oldPod newPod w = Returns None w' ->
  In q (pods w') ->
  (In q (pods w) /\ same_pod oldPod q = false)
  \/ q = set_Status (platform_status E newPod) newPod.
Proof.
  unfold recreatePod, Client_Watch, ResultChan, bind, ret. rewrite issue_run.
  destruct (fault E (trace w) WatchPods); [discriminate|].
  destruct (Client_Delete_Pod E oldPod (record (Issued WatchPods) w))
    as [[e|] w1|w1] eqn:Hdel; try discriminate.
  apply Client_Delete_Pod_ok in Hdel as [Hp1 _]. cbn [pods record] in Hp1.
  intros Hrun Hq.
  pose proof (range_events_pods oldPod newPod (delivered (feed E (trace w1)))
                (ending (feed E (trace w1))) w1 q) as Hfrom.
  rewrite Hrun in Hfrom. destruct (Hfrom Hq) as [Hin| ->]; [|by right].
  left. rewrite Hp1 in Hin. apply filter_In in Hin as [Hin Hne].
  by apply negb_true_iff in Hne.
Qed.

Lemma same_pod_self p : same_pod p p = true.
Proof. unfold same_pod. by apply bool_decide_eq_true. Qed.

(** *** What a pass of the suspend loops leaves in the namespace *)

Lemma suspend_items_post items w w' :
  suspendOrphanPod_items v1 E items w = Returns None w' ->
  (forall q, In q (pods w) -> Namespace (PodMeta q) = ns ->
             suspend_skips v1 q = true \/ In q items) ->
  forall q, In q (pods w') -> Namespace (PodMeta q) = ns ->
            suspend_skips v1 q = true.
Proof.
  revert w. induction items as [|pod rest IH]; intros w; simpl.
  - intros [= <-] Hinv q Hq Hns. by destruct (Hinv q Hq Hns).
  - destruct (suspend_skips v1 pod) eqn:Hsk.
    + intros Hrun Hinv. apply (IH w Hrun). intros q Hq Hns.
      destruct (Hinv q Hq Hns) as [?|[<-|?]]; auto.
    + unfold bind.
      destruct (recreatePod E pod (suspend_clone v1 pod) w) as [[e|] w1|w1] eqn:Hr;
        try discriminate.
      intros Hrun Hinv. apply (IH w1 Hrun). intros q Hq Hns.
      destruct (recreatePod_ok_pods _ _ _ _ q Hr Hq) as [[Hin Hne]| ->].
      * destruct (Hinv q Hin Hns) as [?|[<-|?]]; auto.
        by rewrite same_pod_self in Hne.
      * left. unfold suspend_skips. cbn [Spec set_Status].
        destruct (suspend_clone_fields v1 pod) as (_ & _ & _ & _ & _ & _ & Hs).
        rewrite Hs. by rewrite bool_decide_eq_true_2.
Qed.

Lemma delete_items_post items w w' :
  deleteControlledPod_items v1 E items w = Returns None w' ->
  (forall q, In q (pods w) -> Namespace (PodMeta q) = ns ->
             delete_skips v1 q = true \/ In q items) ->
  forall q, In q (pods w') -> Namespace (PodMeta q) = ns ->
            delete_skips v1 q = true.
Proof.
  revert w. induction items as [|pod rest IH]; intros w; simpl.
  - intros [= <-] Hinv q Hq Hns. by destruct (Hinv q Hq Hns).
  - destruct (delete_skips v1 pod) eqn:Hsk.
    + intros Hrun Hinv. apply (IH w Hrun). intros q Hq Hns.
      destruct (Hinv q Hq Hns) as [?|[<-|?]]; auto.
    + unfold bind.
      destruct (Client_Delete_Pod E pod w) as [[e|] w1|w1] eqn:Hd;
        try discriminate.
      apply Client_Delete_Pod_ok in Hd as [Hp1 _].
      intros Hrun Hinv. apply (IH w1 Hrun). intros q Hq Hns.
      rewrite Hp1 in Hq. apply filter_In in Hq as [Hin Hne].
      apply negb_true_iff in Hne.
      destruct (Hinv q Hin Hns) as [?|[<-|?]]; auto.
      by rewrite same_pod_self in Hne.
Qed.

Lemma delete_items_pods items w q :
  In q (pods (final (deleteControlledPod_items v1 E items w))) -> In q (pods w).
Proof.
  revert w. induction items as [|pod rest IH]; intros w; simpl; [done|].
  destruct (delete_skips v1 pod); [apply IH|].
  unfold bind. pose proof (Client_Delete_Pod_pods pod w q) as Hp.
  destruct (Client_Delete_Pod E pod w) as [[e|] w1|w1]; simpl in *; [done| |done].
  intros Hq. apply Hp. by apply IH.
Qed.

Lemma delete_items_quotas items w :
  quotas (final (deleteControlledPod_items v1 E items w)) = quotas w.
Proof.
  revert w. induction items as [|pod rest IH]; intros w; simpl; [done|].
  destruct (delete_skips v1 pod); [apply IH|].
  unfold bind. pose proof (Client_Delete_Pod_quotas pod w) as Hq.
  destruct (Client_Delete_Pod E pod w) as [[e|] w1|w1]; simpl in *; [done| |done].
  by rewrite IH.
Qed.

Lemma listing_covers (w : World) a q :
  In q (pods (record a w)) -> Namespace (PodMeta q) = ns ->
  In q (List.filter (in_namespace ns) (pods (record a w))).
Proof.
  intros Hq Hns. apply filter_In. split; [done|]. by apply bool_decide_eq_true.
Qed.

Lemma suspendOrphanPod_post w w' :
  suspendOrphanPod v1 E ns w = Returns None w' ->
  forall q, In q (pods w') -> Namespace (PodMeta q) = ns ->
            suspend_skips v1 q = true.
Proof.
  unfold suspendOrphanPod, Client_List_Pods, issue, bind, ret.
  destruct (fault E _ _); [discriminate|].
  intros Hrun. apply (suspend_items_post _ _ _ Hrun).
  intros q Hq Hns. right. by apply listing_covers.
Qed.

Lemma deleteControlledPod_post w w' :
  deleteControlledPod v1 E ns w = Returns None w' ->
  (forall q, In q (pods w') -> Namespace (PodMeta q) = ns ->
             delete_skips v1 q = true)
  /\ (forall q, In q (pods w') -> In q (pods w))
  /\ quotas w' = quotas w.
Proof.
  unfold deleteControlledPod, Client_List_Pods, issue, bind, ret.
  destruct (fault E _ _); [discriminate|].
  intros Hrun. split; [|split].
  - apply (delete_items_post _ _ _ Hrun).
    intros q Hq Hns. right. by apply listing_covers.
  - intros q Hq.
    pose proof (delete_items_pods (List.filter (in_namespace ns)
                  (pods (record (Issued (ListPods ns)) w)))
                  (record (Issued (ListPods ns)) w) q) as Hp.
    rewrite Hrun in Hp. by apply Hp.
  - pose proof (delete_items_quotas (List.filter (in_namespace ns)
                  (pods (record (Issued (ListPods ns)) w)))
                  (record (Issued (ListPods ns)) w)) as Hq.
    by rewrite Hrun in Hq.
Qed.

Lemma parked_of_both_skips q :
  suspend_skips v1 q = true -> delete_skips v1 q = true ->
  SchedulerName (Spec q) = DebtSchedulerName v1.
Proof.
  unfold suspend_skips, delete_skips.
  intros [H|Hs]%orb_true_iff [H'|Hd]%orb_true_iff;
    try (by apply bool_decide_eq_true in H);
    try (by apply bool_decide_eq_true in H').
  apply bool_decide_eq_true in Hs. apply bool_decide_eq_true in Hd. lia.
Qed.

Lemma suspend_post w w' :
  SuspendUserResource v1 E ns w = Returns None w' ->
  (forall q, In q (pods w') -> Namespace (PodMeta q) = ns ->
             SchedulerName (Spec q) = DebtSchedulerName v1)
  /\ is_Some (find (has_key (ns, "debt-limit0")) (quotas w')).
Proof.
  rewrite SuspendUserResource_eq.
  destruct (suspendOrphanPod v1 E ns w) as [[e|] w1|w1] eqn:Hone; try discriminate.
  pose proof (limitResourceQuotaCreate_run E ns w1) as Htwo. cbv zeta in Htwo.
  destruct (limitResourceQuotaCreate E ns w1) as [[e|] w2|w2]; try discriminate.
  cbn [final] in Htwo. destruct Htwo as (Hp2 & _ & _ & Hq2).
  intros Hthree. apply deleteControlledPod_post in Hthree as (Hdel & Hsub & Hq3).
  split; [|rewrite Hq3; by apply Hq2].
  intros q Hq Hns. apply parked_of_both_skips; [|by apply Hdel].
  apply (suspendOrphanPod_post _ _ Hone); [|done].
  rewrite <- Hp2. by apply Hsub.
Qed.

(** *** Passes that find nothing to do *)

Lemma suspend_items_idle items :
  Forall (fun p => suspend_skips v1 p = true) items ->
  forall w, suspendOrphanPod_items v1 E items w = Returns None w.
Proof.
  induction 1 as [|pod rest Hpod Hrest IH]; intros w; simpl; [done|].
  rewrite Hpod. apply IH.
Qed.

Lemma delete_items_idle items :
  Forall (fun p => delete_skips v1 p = true) items ->
  forall w, deleteControlledPod_items v1 E items w = Returns None w.
Proof.
  induction 1 as [|pod rest Hpod Hrest IH]; intros w; simpl; [done|].
  rewrite Hpod. apply IH.
Qed.

Lemma resume_items_idle items :
  Forall (fun p => resume_skips v1 p = true) items ->
  forall w, resumePod_items v1 E items w = Returns None w.
Proof.
  induction 1 as [|pod rest Hpod Hrest IH]; intros w; simpl; [done|].
  rewrite Hpod. apply IH.
Qed.

Lemma listing_parked (w : World) a :
  (forall q, In q (pods w) -> Namespace (PodMeta q) = ns ->
             SchedulerName (Spec q) = DebtSchedulerName v1) ->
  Forall (fun p => SchedulerName (Spec p) = DebtSchedulerName v1)
    (List.filter (in_namespace ns) (pods (record a w))).
Proof.
  intros Hall. apply Forall_forall. intros q [Hq Hns]%list_elem_of_In%filter_In.
  apply Hall; [done|]. by apply bool_decide_eq_true in Hns.
Qed.

Lemma suspend_idle w :
  (forall q, In q (pods w) -> Namespace (PodMeta q) = ns ->
             SchedulerName (Spec q) = DebtSchedulerName v1) ->
  pods (final (SuspendUserResource v1 E ns w)) = pods w /\
  exists t, trace (final (SuspendUserResource v1 E ns w)) = trace w ++ t
            /\ Forall no_pod_write t.
Proof.
  intros Hall. rewrite SuspendUserResource_eq.
  assert (forall w0 : World, pods w0 = pods w ->
            suspendOrphanPod v1 E ns w0
            = match fault E (trace w0) (ListPods ns) with
              | Some e => Returns (Some e) (record (Issued (ListPods ns)) w0)
              | None => Returns None (record (Issued (ListPods ns)) w0)
              end) as Hone.
  { intros w0 Hp. unfold suspendOrphanPod, Client_List_Pods, issue, bind, ret.
    destruct (fault E _ _); [done|]. apply suspend_items_idle.
    eapply Forall_impl; [apply listing_parked; by rewrite Hp|].
    intros q Hq. unfold suspend_skips. by rewrite bool_decide_eq_true_2. }
  assert (forall w0 : World, pods w0 = pods w ->
            deleteControlledPod v1 E ns w0
            = match fault E (trace w0) (ListPods ns) with
              | Some e => Returns (Some e) (record (Issued (ListPods ns)) w0)
              | None => Returns None (record (Issued (ListPods ns)) w0)
              end) as Hthree.
  { intros w0 Hp. unfold deleteControlledPod, Client_List_Pods, issue, bind, ret.
    destruct (fault E _ _); [done|]. apply delete_items_idle.
    eapply Forall_impl; [apply listing_parked; by rewrite Hp|].
    intros q Hq. unfold delete_skips. by rewrite bool_decide_eq_true_2. }
  rewrite (Hone w eq_refl).
  destruct (fault E (trace w) (ListPods ns)).
  { split; [done|]. exists [Issued (ListPods ns)]. split; [done|].
    by repeat constructor. }
  set (w1 := record (Issued (ListPods ns)) w).
  pose proof (limitResourceQuotaCreate_run E ns w1) as Htwo. cbv zeta in Htwo.
  destruct Htwo as (Hp2 & _ & Ht2 & _).
  assert (exists t2, trace (final (limitResourceQuotaCreate E ns w1))
                     = trace w ++ Issued (ListPods ns) :: t2
                     /\ Forall no_pod_write t2) as (t2 & Ht2' & Hno2).
  { destruct Ht2 as [Ht2|Ht2]; rewrite Ht2; unfold w1; cbn;
      rewrite <- app_assoc; eexists; (split; [reflexivity|]);
      by repeat constructor. }
  destruct (limitResourceQuotaCreate E ns w1) as [[e|] w2|w2]; cbn [final] in *.
  - split; [done|]. exists (Issued (ListPods ns) :: t2).
    split; [done|]. by constructor.
  - rewrite (Hthree w2 Hp2).
    destruct (fault E (trace w2) (ListPods ns)); cbn; (split; [done|]);
      exists (Issued (ListPods ns) :: t2 ++ [Issued (ListPods ns)]);
      (split; [rewrite Ht2'; cbn; by rewrite <- app_assoc|]);
      constructor; [done| |done|]; apply Forall_app; split; auto;
      by repeat constructor.
  - split; [done|]. exists (Issued (ListPods ns) :: t2).
    split; [done|]. by constructor.
Qed.

End Parked.

(** ** What a pass leaves behind *)

(** X8.  When [SuspendUserResource] returns [nil], every pod left in the
    namespace carries the reserved scheduler and the namespace holds a quota
    record named [debt-limit0]. *)
Theorem SuspendUserResource_leaves_namespace_parked
    (v1 : ApiV1) (E : Env) (namespace : string) (w w' : World) :
  SuspendUserResource v1 E namespace w = Returns None w' ->
  (forall pod, In pod (pods w') -> Namespace (PodMeta pod) = namespace ->
               SchedulerName (Spec pod) = DebtSchedulerName v1)
  /\ is_Some (find (has_key (namespace, "debt-limit0")) (quotas w')).
Proof. apply suspend_post. Qed.

(** Suspending the example namespace with an unmanaged and a managed pod. *)
Lemma SuspendUserResource_parked_witness :
  let w' := final (SuspendUserResource example_v1 parking_cluster "tenant"
                     (cluster "SuspendRequested" [pod_A; pod_B])) in
  (forall pod, In pod (pods w') -> Namespace (PodMeta pod) = "tenant" ->
               SchedulerName (Spec pod) = DebtSchedulerName example_v1)
  /\ is_Some (find (has_key ("tenant", "debt-limit0")) (quotas w')).
Proof.
  intros w'.
  apply (SuspendUserResource_leaves_namespace_parked example_v1 parking_cluster
           "tenant" (cluster "SuspendRequested" [pod_A; pod_B]) w').
  vm_compute. reflexivity.
Defined.

(** X9.  Run again on the world that a successful pass left behind,
    [SuspendUserResource] changes no pod: it opens no subscription and asks
    for no deletion and no creation of a pod. *)
Theorem SuspendUserResource_second_pass_is_idle
    (v1 : ApiV1) (E : Env) (namespace : string) (w w1 : World) :
  SuspendUserResource v1 E namespace w = Returns None w1 ->
  pods (final (SuspendUserResource v1 E namespace w1)) = pods w1 /\
  exists t,
    trace (final (SuspendUserResource v1 E namespace w1)) = trace w1 ++ t
    /\ Forall no_pod_write t.
Proof.
  intros Hfirst. apply suspend_idle.
  by destruct (suspend_post v1 E namespace w w1 Hfirst) as [Hparked _].
Qed.

(** A second pass over the suspended example namespace. *)
Lemma SuspendUserResource_second_pass_witness :
  let w1 := final (SuspendUserResource example_v1 parking_cluster "tenant"
                     (cluster "SuspendRequested" [pod_A; pod_B])) in
  pods (final (SuspendUserResource example_v1 parking_cluster "tenant" w1))
  = pods w1 /\
  exists t,
    trace (final (SuspendUserResource example_v1 parking_cluster "tenant" w1))
    = trace w1 ++ t
    /\ Forall no_pod_write t.
Proof.
  intros w1.
  apply (SuspendUserResource_second_pass_is_idle example_v1 parking_cluster
           "tenant" (cluster "SuspendRequested" [pod_A; pod_B]) w1).
  vm_compute. reflexivity.
Defined.

Lemma ResumeUserResource_eq v1 E namespace w :
  ResumeUserResource v1 E namespace w =
  match limitResourceQuotaDelete E namespace w with
  | Hangs w1 => Hangs w1
  | Returns (Some e) w1 => Returns (Some e) w1
  | Returns None w1 => resumePod v1 E namespace w1
  end.
Proof.
  unfold ResumeUserResource, run_pipelines, bind, ret.
  destruct (limitResourceQuotaDelete E namespace w) as [[e|] w1|w1];
    try reflexivity.
  by destruct (resumePod v1 E namespace w1) as [[e|] w2|w2].
Qed.

(** X10.  When no pod of the namespace is both in the suspended phase and
    under the reserved scheduler, [ResumeUserResource] leaves the pods as
    they are and issues at most two requests: the delete of the quota record
    and, unless that failed, the listing of the pods. *)
Theorem ResumeUserResource_idle_without_parked_pods
    (v1 : ApiV1) (E : Env) (namespace : string) (w : World) :
  (forall pod, In pod (pods w) -> Namespace (PodMeta pod) = namespace ->
               Phase (Status pod) <> PodPhaseSuspended v1
               \/ SchedulerName (Spec pod) <> DebtSchedulerName v1) ->
  let limitQuota := GetLimit0ResourceQuota namespace in
  pods (final (ResumeUserResource v1 E namespace w)) = pods w /\
  (trace (final (ResumeUserResource v1 E namespace w))
   = trace w ++ [Issued (DeleteQuota limitQuota)] \/
   trace (final (ResumeUserResource v1 E namespace w))
   = trace w ++ [Issued (DeleteQuota limitQuota); Issued (ListPods namespace)]).
Proof.
  intros Hnone. cbv zeta. rewrite ResumeUserResource_eq.
  rewrite limitResourceQuotaDelete_eq. cbv zeta.
  assert (forall w0 : World, pods w0 = pods w ->
            trace w0 = trace w ++ [Issued (DeleteQuota
                                     (GetLimit0ResourceQuota namespace))] ->
            pods (final (resumePod v1 E namespace w0)) = pods w /\
            trace (final (resumePod v1 E namespace w0))
            = trace w ++ [Issued (DeleteQuota (GetLimit0ResourceQuota namespace));
                          Issued (ListPods namespace)]) as Hrest.
  { intros w0 Hp Ht. unfold resumePod, Client_List_Pods, issue, bind, ret.
    destruct (fault E _ _); [cbn; rewrite Ht, <- app_assoc; by split|].
    rewrite resume_items_idle; [cbn; rewrite Ht, <- app_assoc; by split|].
    apply Forall_forall. intros q [Hq Hns]%list_elem_of_In%filter_In.
    cbn [pods record] in Hq. rewrite Hp in Hq.
    apply bool_decide_eq_true in Hns. unfold resume_skips.
    destruct (Hnone q Hq Hns) as [H|H];
      rewrite (bool_decide_eq_false_2 _ H); [done|apply orb_true_r]. }
  destruct (fault E _ _) as [e|].
  - unfold IgnoreNotFound. destruct (IsNotFound e).
    + destruct (Hrest (record (Issued (DeleteQuota
                  (GetLimit0ResourceQuota namespace))) w)) as [Hp Ht]; [done..|].
      split; [exact Hp|right; exact Ht].
    + cbn. split; [done|by left].
  - destruct (find _ _).
    + destruct (Hrest (set_quotas (List.filter
                  (fun o => negb (has_key (namespace, "debt-limit0") o)) (quotas w))
                  (record (Issued (DeleteQuota
                     (GetLimit0ResourceQuota namespace))) w))) as [Hp Ht];
        [done..|].
      split; [exact Hp|right; exact Ht].
    + destruct (Hrest (record (Issued (DeleteQuota
                  (GetLimit0ResourceQuota namespace))) w)) as [Hp Ht]; [done..|].
      split; [exact Hp|right; exact Ht].
Qed.

(** Resuming a namespace that was never suspended. *)
Lemma ResumeUserResource_idle_witness :
  let w := cluster "ResumeRequested" [pod_A; pod_B] in
  let limitQuota := GetLimit0ResourceQuota "tenant" in
  pods (final (ResumeUserResource example_v1 parking_cluster "tenant" w))
  = pods w /\
  (trace (final (ResumeUserResource example_v1 parking_cluster "tenant" w))
   = trace w ++ [Issued (DeleteQuota limitQuota)] \/
   trace (final (ResumeUserResource example_v1 parking_cluster "tenant" w))
   = trace w ++ [Issued (DeleteQuota limitQuota); Issued (ListPods "tenant")]).
Proof.
  apply (ResumeUserResource_idle_without_parked_pods example_v1 parking_cluster
           "tenant" (cluster "ResumeRequested" [pod_A; pod_B])).
  intros pod [<-|[<-|[]]] _; right; vm_compute; discriminate.
Defined.

(** X11.  [ResumeUserResource] starts with the delete of the quota
    record, which always returns.  A failure of it that is not a not-found
    is returned as it is, pods and quota records being untouched; otherwise
    the run continues as [resumePod] on the world the delete left, whose pods
    are unchanged. *)
Theorem ResumeUserResource_stages
    (v1 : ApiV1) (E : Env) (namespace : string) (w : World) :
  let run := ResumeUserResource v1 E namespace w in
  let limitQuota := GetLimit0ResourceQuota namespace in
  match limitResourceQuotaDelete E namespace w with
  | Returns (Some e) w1 =>
      run = Returns (Some e) w1 /\ IsNotFound e = false /\
      pods w1 = pods w /\ quotas w1 = quotas w /\
      trace w1 = trace w ++ [Issued (DeleteQuota limitQuota)]
  | Returns None w1 =>
      run = resumePod v1 E namespace w1 /\
      pods w1 = pods w /\
      trace w1 = trace w ++ [Issued (DeleteQuota limitQuota)]
  | Hangs w1 => False
  end.
Proof.
  cbv zeta. rewrite ResumeUserResource_eq.
  rewrite limitResourceQuotaDelete_eq. cbv zeta.
  destruct (fault E _ _) as [e|].
  - unfold IgnoreNotFound. by destruct (IsNotFound e) eqn:Hnf.
  - by destruct (find _ _).
Qed.

(** ** Reconcile *)

Section ReconcileFacts.

Variable v1 : ApiV1.
Variable E : Env.

Lemma keeps_delete_items P items :
  (forall p, P (Issued (DeletePod p))) ->
  keeps P (deleteControlledPod_items v1 E items).
Proof.
  intros HP. induction items as [|pod rest IH]; simpl; [apply keeps_ret|].
  destruct (delete_skips v1 pod); [exact IH|].
  apply keeps_bind; [by apply keeps_Delete_Pod|].
  intros [e|]; [apply keeps_ret|exact IH].
Qed.

Lemma keeps_SuspendUserResource ns :
  keeps no_namespace_update (SuspendUserResource v1 E ns).
Proof.
  unfold SuspendUserResource, run_pipelines.
  apply keeps_bind.
  { intros w. destruct (suspendOrphanPod_acts v1 E ns w) as (t & Ht & HP & Hn).
    split; [done|]. exists (Issued (ListPods ns) :: t). split; [done|].
    constructor; [by intros n|].
    eapply Forall_impl; [exact HP|].
    intros a (p & _ & Ha) n ->. exact Ha. }
  intros [e|]; [apply keeps_ret|].
  apply keeps_bind.
  { intros w. pose proof (limitResourceQuotaCreate_run E ns w) as Hrun.
    cbv zeta in Hrun. destruct Hrun as (_ & Hn & Ht & _).
    split; [done|]. destruct Ht as [Ht|Ht]; eexists; (split; [exact Ht|]);
      repeat constructor; by intros n. }
  intros [e|]; [apply keeps_ret|].
  apply keeps_bind; [|intros [e|]; apply keeps_ret].
  unfold deleteControlledPod.
  apply keeps_bind; [apply keeps_List_Pods; by intros n|].
  intros [items|err]; [|apply keeps_ret].
  apply keeps_delete_items. by intros p n.
Qed.

End ReconcileFacts.

(** X12.  For a namespace whose debt status asks for suspension,
    [Reconcile] reads the namespace and returns what [SuspendUserResource]
    returns, the error included (and does not return when that does not).
    It never asks for an update of a namespace object: the stored namespaces
    are unchanged, so the status keeps asking for suspension whether the pass
    succeeded or not. *)
Theorem Reconcile_suspend_leaves_status
    (v1 : ApiV1) (E : Env) (req : Request) (w : World) (ns : NamespaceObj) :
  fault E (trace w) (GetNamespace (ReqName req)) = None ->
  find (named (ReqName req)) (namespaces w) = Some ns ->
  anno_lookup (DebtNamespaceAnnoStatusKey v1) (Annotations (NsMeta ns))
  = Some (SuspendDebtNamespaceAnnoStatus v1) ->
  let w1 := record (Issued (GetNamespace (ReqName req))) w in
  let suspended := SuspendUserResource v1 E (ReqName req) w1 in
  Reconcile v1 E req w
  = match suspended with
    | Returns err w2 => Returns (Result_zero, err) w2
    | Hangs w2 => Hangs w2
    end /\
  namespaces (final suspended) = namespaces w /\
  exists t, trace (final suspended) = trace w1 ++ t
            /\ Forall no_namespace_update t.
Proof.
  intros Hf Hns Hst. cbv zeta. split.
  - unfold Reconcile, Client_Get_Namespace, issue, bind, ret.
    rewrite Hf. cbn [namespaces record]. rewrite Hns, Hst.
    rewrite bool_decide_eq_true_2 by done.
    by destruct (SuspendUserResource v1 E (ReqName req) _) as [[e|] w2|w2].
  - apply (keeps_SuspendUserResource v1 E (ReqName req)
             (record (Issued (GetNamespace (ReqName req))) w)).
Qed.

(** A suspend request for the example namespace. *)
Lemma Reconcile_suspend_witness :
  let w := cluster "SuspendRequested" [pod_A; pod_B] in
  let w1 := record (Issued (GetNamespace "tenant")) w in
  let suspended := SuspendUserResource example_v1 parking_cluster "tenant" w1 in
  Reconcile example_v1 parking_cluster tenant_request w
  = match suspended with
    | Returns err w2 => Returns (Result_zero, err) w2
    | Hangs w2 => Hangs w2
    end /\
  namespaces (final suspended) = namespaces w /\
  exists t, trace (final suspended) = trace w1 ++ t
            /\ Forall no_namespace_update t.
Proof.
  apply (Reconcile_suspend_leaves_status example_v1 parking_cluster
           tenant_request (cluster "SuspendRequested" [pod_A; pod_B])
           (tenant "SuspendRequested"));
    vm_compute; reflexivity.
Defined.

(** X13.  [Reconcile] issues the read of the namespace and nothing else,
    and returns no error, when the namespace is not found (as answered by the
    API server or because it is not stored), when it has no debt status
    annotation, and when the status is the normal one (the three status
    values being distinct).  Any other failure of the read is returned as it
    is. *)
Theorem Reconcile_idle_cases
    (v1 : ApiV1) (E : Env) (req : Request) (w : World) :
  let w1 := record (Issued (GetNamespace (ReqName req))) w in
  let o := Reconcile v1 E req w in
  match fault E (trace w) (GetNamespace (ReqName req)) with
  | Some e => o = Returns (Result_zero, if IsNotFound e then None else Some e) w1
  | None =>
      match find (named (ReqName req)) (namespaces w) with
      | None => o = Returns (Result_zero, None) w1
      | Some ns =>
          match anno_lookup (DebtNamespaceAnnoStatusKey v1)
                  (Annotations (NsMeta ns)) with
          | None => o = Returns (Result_zero, None) w1
          | Some status =>
              status = NormalDebtNamespaceAnnoStatus v1 ->
              status <> SuspendDebtNamespaceAnnoStatus v1 ->
              status <> ResumeDebtNamespaceAnnoStatus v1 ->
              o = Returns (Result_zero, None) w1
          end
      end
  end.
Proof.
  cbv zeta. unfold Reconcile, Client_Get_Namespace, issue, bind, ret.
  destruct (fault E _ _) as [e|]; [done|]. cbn [namespaces record].
  destruct (find _ _) as [ns|]; [|done].
  destruct (anno_lookup _ _) as [status|]; [|done].
  intros Hn Hs Hr. rewrite !bool_decide_eq_false_2 by done.
  by rewrite bool_decide_eq_true_2.
Qed.

(** A namespace in the normal status. *)
Lemma Reconcile_idle_witness :
  Reconcile example_v1 parking_cluster tenant_request (cluster "Normal" [pod_A])
  = Returns (Result_zero, None)
      (record (Issued (GetNamespace "tenant")) (cluster "Normal" [pod_A])).
Proof.
  refine (Reconcile_idle_cases example_v1 parking_cluster tenant_request
            (cluster "Normal" [pod_A]) eq_refl _ _); discriminate.
Defined.


(** ** More on the quota gate *)

Lemma filter_none_of {A} (f : A -> bool) l :
  find f l = None -> List.filter (fun x => negb (f x)) l = l.
Proof.
  induction l as [|a l IH]; simpl; [done|].
  destruct (f a); [discriminate|]. intros H. simpl. by rewrite IH.
Qed.

(** X14.  With an API server that fails no request and a namespace that
    has no record named [debt-limit0]: blocking the namespace appends the
    zero-limit record to the quota records, and unblocking it right after
    leaves the quota records exactly as they were before; pods and namespace
    objects are untouched. *)
Theorem quota_block_then_unblock_restores_records
    (E : Env) (namespace : string) (w : World) :
  reliable E ->
  find (has_key (namespace, "debt-limit0")) (quotas w) = None ->
  exists w1 w2,
    limitResourceQuotaCreate E namespace w = Returns None w1 /\
    quotas w1 = quotas w ++ [GetLimit0ResourceQuota namespace] /\
    limitResourceQuotaDelete E namespace w1 = Returns None w2 /\
    quotas w2 = quotas w /\ pods w2 = pods w /\ namespaces w2 = namespaces w.
Proof.
  intros Hrel Habsent.
  rewrite limitResourceQuotaCreate_eq. cbv zeta. rewrite Hrel, Habsent.
  unfold create_limit0. rewrite Hrel. cbn [quotas record]. rewrite Habsent.
  eexists _, _. split; [reflexivity|]. split; [reflexivity|].
  rewrite limitResourceQuotaDelete_eq. cbv zeta. rewrite Hrel.
  cbn [quotas set_quotas record]. rewrite find_snoc, Habsent.
  unfold has_key at 1. rewrite bool_decide_eq_true_2 by reflexivity.
  split; [reflexivity|]. cbn [quotas pods namespaces set_quotas record].
  split; [|done]. rewrite List.filter_app, filter_none_of by exact Habsent.
  cbn. unfold has_key. rewrite bool_decide_eq_true_2 by reflexivity.
  apply app_nil_r.
Qed.

(** Blocking and unblocking the example namespace. *)
Lemma quota_block_then_unblock_witness :
  exists w1 w2,
    limitResourceQuotaCreate parking_cluster "tenant"
      (cluster "SuspendRequested" [pod_A]) = Returns None w1 /\
    quotas w1 = quotas (cluster "SuspendRequested" [pod_A])
                ++ [GetLimit0ResourceQuota "tenant"] /\
    limitResourceQuotaDelete parking_cluster "tenant" w1 = Returns None w2 /\
    quotas w2 = quotas (cluster "SuspendRequested" [pod_A]) /\
    pods w2 = pods (cluster "SuspendRequested" [pod_A]) /\
    namespaces w2 = namespaces (cluster "SuspendRequested" [pod_A]).
Proof.
  apply (quota_block_then_unblock_restores_records parking_cluster "tenant"
           (cluster "SuspendRequested" [pod_A])).
  - intros tr c. reflexivity.
  - reflexivity.
Defined.

(** X15.  When the namespace already has a record named [debt-limit0],
    whatever its limits, blocking reads it and returns [nil] without writing:
    the record is neither replaced nor updated, and the read is the only
    request. *)
Theorem limitResourceQuotaCreate_keeps_existing_record
    (E : Env) (namespace : string) (w : World) (existing : ResourceQuota) :
  fault E (trace w) (GetQuota namespace "debt-limit0") = None ->
  find (has_key (namespace, "debt-limit0")) (quotas w) = Some existing ->
  limitResourceQuotaCreate E namespace w
  = Returns None
      {| namespaces := namespaces w; pods := pods w; quotas := quotas w;
         trace := trace w ++ [Issued (GetQuota namespace "debt-limit0")] |}.
Proof.
  intros Hf Hq. rewrite limitResourceQuotaCreate_eq. cbv zeta.
  by rewrite Hf, Hq.
Qed.

(** A namespace that already has a record of that name, with other limits. *)
Lemma limitResourceQuotaCreate_existing_witness :
  let w := set_quotas [loose_quota] (cluster "SuspendRequested" []) in
  limitResourceQuotaCreate parking_cluster "tenant" w
  = Returns None
      {| namespaces := namespaces w; pods := pods w; quotas := quotas w;
         trace := trace w ++ [Issued (GetQuota "tenant" "debt-limit0")] |}.
Proof.
  apply (limitResourceQuotaCreate_keeps_existing_record parking_cluster
           "tenant" (set_quotas [loose_quota] (cluster "SuspendRequested" []))
           loose_quota).
  - reflexivity.
  - vm_compute. reflexivity.
Defined.

(** ** The two clones, one after the other *)

Lemma suspend_clone_eq (v1 : ApiV1) (pod : Pod) :
  suspend_clone v1 pod
  = {| PodMeta :=
         {| Name := Name (PodMeta pod);
            Namespace := Namespace (PodMeta pod);
            ResourceVersion := "";
            Annotations :=
              Some (<[PreviousSchedulerName v1 := SchedulerName (Spec pod)]>
                      (default ∅ (Annotations (PodMeta pod))));
            OwnerReferences := OwnerReferences (PodMeta pod) |};
       Spec := {| NodeName := ""; SchedulerName := DebtSchedulerName v1 |};
       Status := PodStatus_zero |}.
Proof.
  destruct pod as [[name namespace version [annotations|] owners]
                     [node scheduler] status];
    cbv [suspend_clone with_meta set_ResourceVersion set_NodeName set_Status
         set_SchedulerName set_Annotations anno_insert PodMeta Spec Status
         Name Namespace ResourceVersion Annotations OwnerReferences NodeName
         SchedulerName default from_option];
    reflexivity.
Qed.

Lemma resume_clone_Some (v1 : ApiV1) (pod : Pod) (scheduler : string) :
  anno_lookup (PreviousSchedulerName v1) (Annotations (PodMeta pod))
  = Some scheduler ->
  resume_clone v1 pod
  = {| PodMeta :=
         {| Name := Name (PodMeta pod);
            Namespace := Namespace (PodMeta pod);
            ResourceVersion := "";
            Annotations :=
              anno_delete (PreviousSchedulerName v1) (Annotations (PodMeta pod));
            OwnerReferences := OwnerReferences (PodMeta pod) |};
       Spec := {| NodeName := ""; SchedulerName := scheduler |};
       Status := PodStatus_zero |}.
Proof.
  intros H. unfold resume_clone.
  cbn [with_meta set_ResourceVersion set_NodeName set_Status PodMeta
       Annotations].
  rewrite H. reflexivity.
Qed.

(** X16.  From the pod that the suspend loop creates in place of [pod],
    with whatever status the platform has given it since, the resume loop
    builds a pod with the name, the namespace, the owner references and the
    scheduler of [pod], no resource version, no node and the zero status.
    Its annotations are those of [pod] without the previous-scheduler key; a
    [pod] without annotation map ends with an empty one. *)
Theorem resume_clone_of_suspend_clone (v1 : ApiV1) (pod : Pod)
    (status : PodStatus) :
  resume_clone v1 (set_Status status (suspend_clone v1 pod))
  = {| PodMeta :=
         {| Name := Name (PodMeta pod);
            Namespace := Namespace (PodMeta pod);
            ResourceVersion := "";
            Annotations :=
              Some (delete (PreviousSchedulerName v1)
                      (default ∅ (Annotations (PodMeta pod))));
            OwnerReferences := OwnerReferences (PodMeta pod) |};
       Spec := {| NodeName := ""; SchedulerName := SchedulerName (Spec pod) |};
       Status := PodStatus_zero |}.
Proof.
  rewrite (resume_clone_Some v1 _ (SchedulerName (Spec pod))).
  - rewrite suspend_clone_eq.
    cbn [set_Status PodMeta Name Namespace Annotations OwnerReferences
         anno_delete].
    by rewrite delete_insert_eq.
  - cbn [set_Status PodMeta]. apply suspend_clone_previous.
Qed.

(** ** Deleting the managed pods *)

Lemma delete_items_targets v1 E items w :
  deleteControlledPod_items v1 E items w
  = deleteControlledPod_items v1 E (delete_targets v1 items) w.
Proof.
  revert w. induction items as [|pod rest IH]; intros w; simpl; [done|].
  unfold delete_targets in *. simpl.
  destruct (delete_skips v1 pod) eqn:Hsk; simpl; [apply IH|].
  rewrite Hsk. unfold bind.
  destruct (Client_Delete_Pod E pod w) as [[e|] w1|w1]; auto.
Qed.

(** X17.  When the delete of the first pod that [deleteControlledPod]
    acts on is refused, the error is returned unwrapped and the loop stops:
    the listing and that one delete are the only requests, and the store is
    unchanged. *)
Theorem deleteControlledPod_stops_at_refused_delete
    (v1 : ApiV1) (E : Env) (namespace : string) (w : World)
    (pod : Pod) (rest : list Pod) (e : error) :
  fault E (trace w) (ListPods namespace) = None ->
  delete_targets v1 (pods_in namespace w) = pod :: rest ->
  fault E (trace w ++ [Issued (ListPods namespace)]) (DeletePod pod) = Some e ->
  deleteControlledPod v1 E namespace w
  = Returns (Some e)
      {| namespaces := namespaces w; pods := pods w; quotas := quotas w;
         trace := trace w ++ [Issued (ListPods namespace);
                              Issued (DeletePod pod)] |}.
Proof.
  intros Hl Htargets Hd.
  assert (delete_skips v1 pod = false) as Hsk.
  { assert (In pod (delete_targets v1 (pods_in namespace w))) as Hin
      by (rewrite Htargets; by left).
    apply filter_In in Hin as [_ Hin]. by apply negb_true_iff in Hin. }
  unfold deleteControlledPod, Client_List_Pods, issue, bind at 1 2, ret.
  rewrite Hl. cbn [pods record]. rewrite delete_items_targets.
  fold (pods_in namespace w). rewrite Htargets.
  cbn [deleteControlledPod_items]. rewrite Hsk.
  unfold Client_Delete_Pod, issue, bind, ret. cbn [trace record]. rewrite Hd.
  unfold record. cbn. by rewrite <- app_assoc.
Qed.

(** The managed pod of the example namespace cannot be deleted. *)
Lemma deleteControlledPod_refused_witness :
  let w := cluster "SuspendRequested" [pod_A; pod_B] in
  deleteControlledPod example_v1 readonly_cluster "tenant" w
  = Returns (Some (StatusError Forbidden))
      {| namespaces := namespaces w; pods := pods w; quotas := quotas w;
         trace := trace w ++ [Issued (ListPods "tenant");
                              Issued (DeletePod pod_B)] |}.
Proof.
  apply (deleteControlledPod_stops_at_refused_delete example_v1
           readonly_cluster "tenant"
           (cluster "SuspendRequested" [pod_A; pod_B]) pod_B []
           (StatusError Forbidden)).
  - reflexivity.
  - vm_compute. reflexivity.
  - reflexivity.
Defined.


(** ** How the loops report a pod that failed *)

Lemma range_events_failure E oldPod newPod evs fin w w' e :
  range_events E oldPod newPod evs fin w = Returns (Some e) w' ->
  exists cause,
    e = Errorf_w ("failed to recreate pod " +:+ Name (PodMeta newPod)) cause.
Proof.
  revert w. induction evs as [|event rest IH]; intros w; simpl.
  - destruct fin; discriminate.
  - destruct (is_deletion_of oldPod event); [|apply IH].
    unfold bind.
    destruct (Client_Create_Pod E newPod _) as [[cause|] w1|w1];
      simpl; [|discriminate..].
    intros [= <- _]. by exists cause.
Qed.

Lemma recreatePod_failure E oldPod newPod w w' e :
  recreatePod E oldPod newPod w = Returns (Some e) w' ->
  exists msg cause, e = Errorf_w msg cause.
Proof.
  unfold recreatePod, bind.
  destruct (Client_Watch E w) as [[cause|] w1|w1]; simpl; [| |discriminate].
  { intros [= <- _]. by eexists _, cause. }
  destruct (Client_Delete_Pod E oldPod w1) as [[cause|] w2|w2]; simpl;
    [| |discriminate].
  { intros [= <- _]. by eexists _, cause. }
  intros [cause ->]%range_events_failure. by eexists _, cause.
Qed.

Lemma suspend_items_failure v1 E items w w' e :
  suspendOrphanPod_items v1 E items w = Returns (Some e) w' ->
  exists pod msg cause,
    In pod (suspend_targets v1 items) /\
    e = Errorf_w ("recrete unowned pod `" +:+ Name (PodMeta pod) +:+ "` failed")
          (Errorf_w msg cause).
Proof.
  revert w. induction items as [|pod rest IH]; intros w; simpl; [discriminate|].
  unfold suspend_targets in *. simpl.
  destruct (suspend_skips v1 pod); simpl; [apply IH|].
  unfold bind.
  destruct (recreatePod E pod (suspend_clone v1 pod) w) as [[e1|] w1|w1] eqn:Hr;
    simpl; [| |discriminate].
  - intros [= <- _].
    apply recreatePod_failure in Hr as (msg & cause & ->).
    exists pod, msg, cause. split; [by left|done].
  - intros (p & msg & cause & Hin & ->)%IH.
    exists p, msg, cause. split; [by right|done].
Qed.

Lemma resume_items_failure v1 E items w w' e :
  resumePod_items v1 E items w = Returns (Some e) w' ->
  exists pod msg cause,
    In pod (resume_targets v1 items) /\ e = Errorf_v msg cause.
Proof.
  revert w. induction items as [|pod rest IH]; intros w; simpl; [discriminate|].
  unfold resume_targets in *. simpl.
  destruct (resume_skips v1 pod); simpl; [apply IH|].
  destruct (bool_decide (0 < length (OwnerReferences (PodMeta pod))));
    unfold bind.
  - destruct (Client_Delete_Pod E pod w) as [[e1|] w1|w1]; simpl;
      [| |discriminate].
    + intros [= <- _]. eexists pod, _, e1. split; [by left|done].
    + intros (p & msg & cause & Hin & ->)%IH.
      exists p, msg, cause. split; [by right|done].
  - destruct (recreatePod E pod (resume_clone v1 pod) w) as [[e1|] w1|w1];
      simpl; [| |discriminate].
    + intros [= <- _]. eexists pod, _, e1. split; [by left|done].
    + intros (p & msg & cause & Hin & ->)%IH.
      exists p, msg, cause. split; [by right|done].
Qed.

(** X18.  When the listing succeeded and [suspendOrphanPod] returns an
    error, that error names one of the pods the loop acts on and wraps, with
    [%w], the error of the recreate protocol, which is itself a [%w] wrapper
    of the client's error: [IsNotFound] sees through both. *)
Theorem suspendOrphanPod_failure_shows_its_cause
    (v1 : ApiV1) (E : Env) (namespace : string) (w w' : World) (e : error) :
  fault E (trace w) (ListPods namespace) = None ->
  suspendOrphanPod v1 E namespace w = Returns (Some e) w' ->
  exists pod msg cause,
    In pod (suspend_targets v1 (pods_in namespace w)) /\
    e = Errorf_w ("recrete unowned pod `" +:+ Name (PodMeta pod) +:+ "` failed")
          (Errorf_w msg cause) /\
    IsNotFound e = IsNotFound cause.
Proof.
  intros Hl. unfold suspendOrphanPod, Client_List_Pods, bind, issue.
  rewrite Hl. cbn.
  intros (pod & msg & cause & Hin & ->)%suspend_items_failure.
  by exists pod, msg, cause.
Qed.

(** The unmanaged pod of the example namespace cannot be deleted. *)
Lemma suspendOrphanPod_failure_witness :
  let w := cluster "SuspendRequested" [pod_A] in
  let e := Errorf_w "recrete unowned pod `a` failed"
             (Errorf_w "failed to delete pod a" (StatusError Forbidden)) in
  exists pod msg cause,
    In pod (suspend_targets example_v1 (pods_in "tenant" w)) /\
    e = Errorf_w ("recrete unowned pod `" +:+ Name (PodMeta pod) +:+ "` failed")
          (Errorf_w msg cause) /\
    IsNotFound e = IsNotFound cause.
Proof.
  intros w e.
  apply (suspendOrphanPod_failure_shows_its_cause example_v1 readonly_cluster
           "tenant" w
           (final (suspendOrphanPod example_v1 readonly_cluster "tenant" w)) e).
  - reflexivity.
  - vm_compute. reflexivity.
Defined.

(** X19.  When the listing succeeded and [resumePod] returns an error,
    that error is a [%v] wrapper made for one of the pods the loop acts on:
    [IsNotFound] is false of it whatever the cause was. *)
Theorem resumePod_failure_hides_its_cause
    (v1 : ApiV1) (E : Env) (namespace : string) (w w' : World) (e : error) :
  fault E (trace w) (ListPods namespace) = None ->
  resumePod v1 E namespace w = Returns (Some e) w' ->
  IsNotFound e = false /\
  exists pod msg cause,
    In pod (resume_targets v1 (pods_in namespace w)) /\ e = Errorf_v msg cause.
Proof.
  intros Hl. unfold resumePod, Client_List_Pods, bind, issue.
  rewrite Hl. cbn.
  intros (pod & msg & cause & Hin & ->)%resume_items_failure.
  split; [done|]. by exists pod, msg, cause.
Qed.

(** A parked managed pod that cannot be deleted. *)
Lemma resumePod_failure_witness :
  let pod := example_pod "s" "sealos-debt-scheduler" "Suspended" None
               [{| OwnerKind := "ReplicaSet"; OwnerName := "web" |}] in
  let w := cluster "ResumeRequested" [pod] in
  let e := Errorf_v "delete pod s failed" (StatusError Forbidden) in
  IsNotFound e = false /\
  exists pod msg cause,
    In pod (resume_targets example_v1 (pods_in "tenant" w))
    /\ e = Errorf_v msg cause.
Proof.
  intros pod w e.
  apply (resumePod_failure_hides_its_cause example_v1 readonly_cluster
           "tenant" w
           (final (resumePod example_v1 readonly_cluster "tenant" w)) e).
  - reflexivity.
  - vm_compute. reflexivity.
Defined.
